(** * context-mod: configuration hydration, named entities, filters,
      rule evaluation and resource caching

    A shallow embedding of the parts of the repository that resolve a
    subreddit configuration (src/ConfigBuilder.ts), evaluate one rule
    against one activity (Rule.run), memoize author activity
    (src/Subreddit/SubredditResources.ts) and build action premises
    (src/Common/Entities/ActionPremise.ts), followed by the properties
    established about them. *)

From Stdlib Require Import ZArith Ascii String List Bool DecimalString.
From Stdlib Require QArith Lqa.
From stdpp Require Import gmap strings list fin_maps.

Import ListNotations.
Set Warnings "-register-all".
Local Open Scope string_scope.
Local Open Scope list_scope.

(** ** JavaScript values *)

Module Js.

(** Plain data as the configuration parser produces it.  Objects keep
    their properties in insertion order, as JavaScript does. *)
Inductive jsval : Type :=
| JUndefined
| JNull
| JBool (b : bool)
| JNum (n : Z)
| JStr (s : string)
| JArr (items : list jsval)
| JObj (fields : list (string * jsval)).

(** [obj[key]]: the first binding of [key], [JUndefined] when absent. *)
Fixpoint getField (key : string) (fields : list (string * jsval)) : jsval :=
  match fields with
  | [] => JUndefined
  | (k, v) :: rest => if String.eqb k key then v else getField key rest
  end.

(** [key in obj] for own properties. *)
Fixpoint hasField (key : string) (fields : list (string * jsval)) : bool :=
  match fields with
  | [] => false
  | (k, _) :: rest => String.eqb k key || hasField key rest
  end.

(** [const {key, ...rest} = obj]: the object without [key]. *)
Fixpoint omitField (key : string) (fields : list (string * jsval))
  : list (string * jsval) :=
  match fields with
  | [] => []
  | (k, v) :: rest =>
      if String.eqb k key then omitField key rest
      else (k, v) :: omitField key rest
  end.

(** [{...obj, key: v}]: an existing property keeps its place and takes
    the new value, a new property goes last. *)
Fixpoint setField (key : string) (v : jsval) (fields : list (string * jsval))
  : list (string * jsval) :=
  match fields with
  | [] => [(key, v)]
  | (k, w) :: rest =>
      if String.eqb k key then (k, v) :: rest
      else (k, w) :: setField key v rest
  end.

(** [v[key]] for a value of unknown shape: a property of an object,
    [undefined] for everything else. *)
Definition prop (key : string) (v : jsval) : jsval :=
  match v with
  | JObj fields => getField key fields
  | _ => JUndefined
  end.

(** fast-deep-equal on plain data: primitives by identity, arrays
    element-wise, objects by key count and by every key of the left
    object being bound to a deep-equal value on the right. *)
Fixpoint deepEqual (a b : jsval) {struct a} : bool :=
  match a, b with
  | JUndefined, JUndefined => true
  | JNull, JNull => true
  | JBool x, JBool y => Bool.eqb x y
  | JNum x, JNum y => Z.eqb x y
  | JStr x, JStr y => String.eqb x y
  | JArr xs, JArr ys =>
      (fix all2 (l : list jsval) (r : list jsval) {struct l} : bool :=
         match l, r with
         | [], [] => true
         | x :: l', y :: r' => deepEqual x y && all2 l' r'
         | _, _ => false
         end) xs ys
  | JObj fa, JObj fb =>
      Nat.eqb (List.length fa) (List.length fb)
      && (fix keys (l : list (string * jsval)) {struct l} : bool :=
            match l with
            | [] => true
            | (k, v) :: l' =>
                hasField k fb && deepEqual v (getField k fb) && keys l'
            end) fa
  | _, _ => false
  end.

(** [String.prototype.toLowerCase] on the ASCII range. *)
Definition lowerAscii (c : ascii) : ascii :=
  let n := nat_of_ascii c in
  if (65 <=? n)%nat && (n <=? 90)%nat then ascii_of_nat (n + 32) else c.

Fixpoint toLowerCase (s : string) : string :=
  match s with
  | EmptyString => EmptyString
  | String c rest => String (lowerAscii c) (toLowerCase rest)
  end.

(** Template literals print a number in decimal. *)
Definition showNat (n : nat) : string :=
  NilZero.string_of_uint (Nat.to_uint n).

(** The double quote character, for messages that quote a name. *)
Definition dquote : string := String (ascii_of_nat 34) EmptyString.

End Js.

(** ** Exceptions *)

Module Exn.

(** The error classes the modelled code throws.  [CMError] carries the
    error it wraps as its [cause]; [External] stands for whatever a
    collaborator outside the modelled code raised. *)
Inductive exn : Type :=
| Error (msg : string)
| CMError (msg : string) (cause : exn)
| ConfigParseError (msg : string)
| LoggedError (msg : string)
| TypeError (msg : string)
| External (msg : string).

Definition message (e : exn) : string :=
  match e with
  | Error m | CMError m _ | ConfigParseError m
  | LoggedError m | TypeError m | External m => m
  end.

(** A computation that returns or throws. *)
Inductive result (A : Type) : Type :=
| Ok (a : A)
| Throw (e : exn).

Arguments Ok {A} a.
Arguments Throw {A} e.

Definition bind {A B : Type} (r : result A) (k : A -> result B) : result B :=
  match r with
  | Ok a => k a
  | Throw e => Throw e
  end.

(** [try { r } catch (e) { throw h(e) }] *)
Definition rethrow {A : Type} (r : result A) (h : exn -> exn) : result A :=
  match r with
  | Ok a => Ok a
  | Throw e => Throw (h e)
  end.

(** A [for ... of] loop whose body may throw, threading the loop state. *)
Fixpoint forOf {A S : Type} (body : S -> A -> result S) (xs : list A) (s : S)
  : result S :=
  match xs with
  | [] => Ok s
  | x :: rest => bind (body s x) (forOf body rest)
  end.

Definition isOk {A : Type} (r : result A) : bool :=
  match r with Ok _ => true | Throw _ => false end.

End Exn.

Declare Scope js_scope.
Delimit Scope js_scope with js.
Notation "x <- c ;; k" := (Exn.bind c (fun x => k))
  (at level 100, c at next level, right associativity) : js_scope.

(** ** Hydration of configuration fragments (ConfigBuilder) *)

Module Hydrate.
Import Js Exn.
Local Open Scope js_scope.

(** The JSON schemas a fragment is validated against. *)
Inductive Schema : Type := AppSchema | RunSchema | CheckSchema.

(** What hydration needs from outside ConfigBuilder.ts:
    - [parseUrlContext] (util): whether a string is a 'url:' or 'wiki:'
      resource, that is, whether the source's call returns a context
      rather than [undefined];
    - [fetchFragment]: the resource fetching and parsing the fragment an
      includes object points to;
    - [schemaValid]: ajv's verdict on a value for a schema. *)
Class ConfigSource : Type := {
  parseUrlContext : string -> bool;
  fetchFragment : jsval -> result jsval;
  schemaValid : Schema -> jsval -> bool
}.

(** [ConfigFragmentValidationFunc]: [(data, fetched) => boolean], may
    throw. *)
Definition ConfigFragmentValidationFunc : Type := jsval -> bool -> result bool.

Section WithSource.
Context `{ConfigSource}.

(** [validateJson]: the config itself when the schema accepts it,
    otherwise the logged schema failure. *)
Definition validateJson (config : jsval) (schema : Schema) : result jsval :=
  if schemaValid schema config then Ok config
  else Throw (LoggedError "Config schema validity failure").

(** Modelled from the spec: SubredditResources.getConfigFragment is not
    among the sources.  It fetches and parses the fragment, then invokes
    the validator, when one is given, with [fetched = true]. *)
Definition getConfigFragment (includes : jsval)
    (validateFunc : option ConfigFragmentValidationFunc) : result jsval :=
  data <- fetchFragment includes ;;
  match validateFunc with
  | Some validate => _ <- validate data true ;; Ok data
  | None => Ok data
  end.

(** [asIncludesData] (Common/Infrastructure/Includes): an object that has
    a [path]. *)
Definition asIncludesData (val : jsval) : bool :=
  match val with
  | JObj fields => hasField "path" fields
  | _ => false
  end.

(** How a template literal prints a value. *)
Definition display (v : jsval) : string :=
  match v with
  | JStr s => s
  | JUndefined => "undefined"
  | JNull => "null"
  | JBool true => "true"
  | JBool false => "false"
  | JNum n => NilZero.string_of_int (Z.to_int n)
  | JArr _ => "[array]"
  | JObj _ => "[object Object]"
  end.

(** The first half of [hydrateConfigFragment]: the includes object the
    value stands for, if any. *)
Definition detectIncludes (val : jsval) : result (option jsval) :=
  match val with
  | JStr s =>
      if parseUrlContext s then Ok (Some (JObj [("path", JStr s)]))
      else Ok None
  | _ =>
      if asIncludesData val then
        let recognised :=
          match prop "path" val with
          | JStr p => parseUrlContext p
          | _ => false
          end in
        if recognised then Ok (Some val)
        else Throw (ConfigParseError
          ("Could not detect Config Fragment path as a valid URL Resource. Resource must be prefixed with either 'url:' or 'wiki:' -- "
             ++ display (prop "path" val)))
      else Ok None
  end.

(** [Array.isArray(v) ? v : [v]] *)
Definition asList (v : jsval) : list jsval :=
  match v with
  | JArr items => items
  | _ => [v]
  end.

(** [ConfigBuilder.hydrateConfigFragment] *)
Definition hydrateConfigFragment (val : jsval)
    (validateFunc : option ConfigFragmentValidationFunc) : result (list jsval) :=
  includes <- detectIncludes val ;;
  match includes with
  | None => Ok (asList val)
  | Some inc =>
      resolvedFragment <- getConfigFragment inc validateFunc ;;
      Ok (asList resolvedFragment)
  end.

(** [for (const x of v)]: arrays yield their elements, strings their
    characters; anything else is not iterable. *)
Definition iter (v : jsval) : result (list jsval) :=
  match v with
  | JArr items => Ok items
  | JStr s =>
      Ok (List.map (fun c => JStr (String c EmptyString)) (list_ascii_of_string s))
  | _ => Throw (TypeError (display v ++ " is not iterable"))
  end.

(** The own enumerable properties an object pattern [{a, ...rest} = v]
    reads from [v]; destructuring [null] or [undefined] throws. *)
Definition ownProps (v : jsval) : result (list (string * jsval)) :=
  match v with
  | JObj fields => Ok fields
  | JArr items =>
      Ok (List.map (fun p => (showNat (fst p), snd p))
            (List.combine (List.seq 0 (List.length items)) items))
  | JStr s =>
      let cs := list_ascii_of_string s in
      Ok (List.map (fun p => (showNat (fst p), JStr (String (snd p) EmptyString)))
            (List.combine (List.seq 0 (List.length cs)) cs))
  | JNull | JUndefined =>
      Throw (TypeError ("Cannot destructure " ++ display v))
  | _ => Ok []
  end.

(** [isRuleSetJSON] (Rule/RuleSet): the value carries a [rules]
    property. *)
Definition isRuleSetJSON (v : jsval) : bool :=
  match prop "rules" v with
  | JUndefined => false
  | _ => true
  end.

(** [obj.key = v] *)
Definition assign (key : string) (v : jsval) (obj : jsval) : jsval :=
  match obj with
  | JObj fields => JObj (setField key v fields)
  | _ => obj
  end.

(** The validator [hydrateConfig] hands over for runs and for checks:
    fetched data is checked against the level's schema, element by
    element when it is an array; literal data is accepted as it is. *)
Definition fragmentValidator (schema : Schema) : ConfigFragmentValidationFunc :=
  fun data fetched =>
    if fetched then
      match data with
      | JArr items =>
          _ <- forOf (fun (_ : unit) item => _ <- validateJson item schema ;; Ok tt)
                 items tt ;;
          Ok true
      | _ => _ <- validateJson data schema ;; Ok true
      end
    else Ok true.

(** *** The messages of the positional errors *)

Definition runFetchMessage (runIndex : nat) : string :=
  "Could not fetch or validate Run #" ++ showNat runIndex.

Definition runFormatMessage (runIndex : nat) (given : string) : string :=
  "Run Config Fragment #" ++ showNat runIndex
    ++ " was not in a recognized Config Fragment format. Given: " ++ given.

Definition checkFetchMessage (checkIndex runIndex : nat) : string :=
  "Could not fetch or validate Check Config Fragment #" ++ showNat checkIndex
    ++ " in Run #" ++ showNat runIndex.

Definition checkFormatMessage (checkIndex runIndex : nat) (given : string) : string :=
  "Check #" ++ showNat checkIndex ++ " in Run #" ++ showNat runIndex
    ++ " was not in a recognized include format. Given: " ++ given.

Definition ruleFetchMessage (ruleIndex checkIndex : nat) : string :=
  "Rule Config Fragment #" ++ showNat ruleIndex ++ " in Check #"
    ++ showNat checkIndex ++ " could not be fetched".

Definition actionFetchMessage (actionIndex checkIndex : nat) : string :=
  "Action Config Fragment #" ++ showNat actionIndex ++ " in Check #"
    ++ showNat checkIndex ++ " could not be fetched".

(** *** Rules and rule sets of one check *)

(** The rules inside a rule set: each is resolved on its own, outside
    any [try]. *)
Definition hydrateRuleSetRules (rules : list jsval) : result (list jsval) :=
  forOf (fun hydratedRulesetRules rsr =>
           hydratedRuleSetRuleArr <- hydrateConfigFragment rsr None ;;
           Ok (hydratedRulesetRules ++ hydratedRuleSetRuleArr))
        rules [].

(** One resolved element of a check's [rules]: a name, a rule set whose
    own rules are resolved in turn, or a rule. *)
Definition hydrateRuleOrSet (hydratedRuleOrSet : jsval) : result jsval :=
  match hydratedRuleOrSet with
  | JStr _ => Ok hydratedRuleOrSet
  | _ =>
      if isRuleSetJSON hydratedRuleOrSet then
        setRules <- iter (prop "rules" hydratedRuleOrSet) ;;
        hydratedRulesetRules <- hydrateRuleSetRules setRules ;;
        Ok (assign "rules" (JArr hydratedRulesetRules) hydratedRuleOrSet)
      else Ok hydratedRuleOrSet
  end.

(** The body of [for (const hydratedRuleOrSet of hydratedRuleOrSetArr)]:
    the element is pushed and the rule counter goes up. *)
Definition pushRule (st : list jsval * nat) (hydratedRuleOrSet : jsval)
  : result (list jsval * nat) :=
  item <- hydrateRuleOrSet hydratedRuleOrSet ;;
  Ok (fst st ++ [item], S (snd st)).

(** The body of [for (const r of rules)]; the loop state is
    [(hydratedRulesOrSets, ruleIndex)]. *)
Definition ruleStep (checkIndex : nat) (st : list jsval * nat) (r : jsval)
  : result (list jsval * nat) :=
  hydratedRuleOrSetArr <-
    rethrow (hydrateConfigFragment r None)
            (CMError (ruleFetchMessage (snd st) checkIndex)) ;;
  forOf pushRule hydratedRuleOrSetArr st.

Definition hydrateRules (rules : list jsval) (checkIndex : nat)
  : result (list jsval) :=
  st <- forOf (ruleStep checkIndex) rules ([], 1%nat) ;;
  Ok (fst st).

(** The body of [for (const a of actions)]. *)
Definition actionStep (checkIndex : nat) (st : list jsval * nat) (a : jsval)
  : result (list jsval * nat) :=
  hydratedActionArr <-
    rethrow (hydrateConfigFragment a None)
            (CMError (actionFetchMessage (snd st) checkIndex)) ;;
  forOf (fun st' hydratedAction => Ok (fst st' ++ [hydratedAction], S (snd st')))
        hydratedActionArr st.

Definition hydrateActions (actions : list jsval) (checkIndex : nat)
  : result (list jsval) :=
  st <- forOf (actionStep checkIndex) actions ([], 1%nat) ;;
  Ok (fst st).

(** *** Checks of one run *)

(** One resolved check: its [rules] and [actions], when defined, are
    replaced by their hydrated lists. *)
Definition hydrateCheck (runIndex checkIndex : nat) (hydratedCheckData : jsval)
  : result jsval :=
  match hydratedCheckData with
  | JStr given => Throw (ConfigParseError (checkFormatMessage checkIndex runIndex given))
  | _ =>
      fields <- ownProps hydratedCheckData ;;
      let rules := getField "rules" fields in
      let actions := getField "actions" fields in
      let rest := omitField "actions" (omitField "rules" fields) in
      withRules <-
        match rules with
        | JUndefined => Ok rest
        | _ =>
            rs <- iter rules ;;
            hydratedRulesOrSets <- hydrateRules rs checkIndex ;;
            Ok (setField "rules" (JArr hydratedRulesOrSets) rest)
        end ;;
      withActions <-
        match actions with
        | JUndefined => Ok withRules
        | _ =>
            acts <- iter actions ;;
            hydratedActions <- hydrateActions acts checkIndex ;;
            Ok (setField "actions" (JArr hydratedActions) withRules)
        end ;;
      Ok (JObj withActions)
  end.

(** The body of [for (const hydratedCheckData of hydratedCheckDataArr)]:
    the hydrated check is pushed and the check counter goes up. *)
Definition pushCheck (runIndex : nat) (st : list jsval * nat)
    (hydratedCheckData : jsval) : result (list jsval * nat) :=
  hydratedCheck <- hydrateCheck runIndex (snd st) hydratedCheckData ;;
  Ok (fst st ++ [hydratedCheck], S (snd st)).

(** The body of [for (const c of preValidatedRun.checks)]; the loop
    state is [(hydratedChecks, checkIndex)]. *)
Definition checkStep (runIndex : nat) (st : list jsval * nat) (c : jsval)
  : result (list jsval * nat) :=
  hydratedCheckDataArr <-
    rethrow (hydrateConfigFragment c (Some (fragmentValidator CheckSchema)))
            (CMError (checkFetchMessage (snd st) runIndex)) ;;
  forOf (pushCheck runIndex) hydratedCheckDataArr st.

(** *** Runs *)

Definition hydrateRun (runIndex : nat) (hydratedRunVal : jsval) : result jsval :=
  match hydratedRunVal with
  | JStr given => Throw (ConfigParseError (runFormatMessage runIndex given))
  | _ =>
      fields <- ownProps hydratedRunVal ;;
      let rest := omitField "checks" fields in
      cs <- iter (getField "checks" fields) ;;
      st <- forOf (checkStep runIndex) cs ([], 1%nat) ;;
      Ok (JObj (setField "checks" (JArr (fst st)) rest))
  end.

(** The body of [for (const hydratedRunVal of hydratedRunArr)]: the
    hydrated run is pushed and the run counter goes up. *)
Definition pushRun (st : list jsval * nat) (hydratedRunVal : jsval)
  : result (list jsval * nat) :=
  hydratedRun <- hydrateRun (snd st) hydratedRunVal ;;
  Ok (fst st ++ [hydratedRun], S (snd st)).

(** The body of [for (const r of realRuns)]; the loop state is
    [(hydratedRuns, runIndex)]. *)
Definition runStep (st : list jsval * nat) (r : jsval)
  : result (list jsval * nat) :=
  hydratedRunArr <-
    rethrow (hydrateConfigFragment r (Some (fragmentValidator RunSchema)))
            (CMError (runFetchMessage (snd st))) ;;
  forOf pushRun hydratedRunArr st.

(** [SubredditConfigData]: the top-level document.  Its [runs] and
    [checks] are arrays when present; their elements are still raw. *)
Record SubredditConfigData : Type := {
  runs : option (list jsval);
  checks : option (list jsval);
  restConfig : list (string * jsval)
}.

Definition bothLevelsMessage : string :=
  "Subreddit configuration cannot contain both 'checks' and 'runs' at top-level.".

(** The runs [hydrateConfig] walks: the document's own, followed by the
    run that wraps top-level checks when there are any.  (The source
    pushes that run onto the document's own [runs] array when it has
    one; only the list that is walked is modelled.) *)
Definition realRuns (config : SubredditConfigData) : list jsval :=
  let runs := default [] (runs config) in
  let checks := default [] (checks config) in
  if (0 <? List.length checks)%nat
  then runs ++ [JObj [("name", JStr "Run1"); ("checks", JArr checks)]]
  else runs.

(** [ConfigBuilder.hydrateConfig] *)
Definition hydrateConfig (config : SubredditConfigData) : result jsval :=
  let runs := default [] (runs config) in
  let checks := default [] (checks config) in
  if (0 <? List.length checks)%nat && (0 <? List.length runs)%nat
  then Throw (Error bothLevelsMessage)
  else
    st <- forOf runStep (realRuns config) ([], 1%nat) ;;
    validateJson (JObj (setField "runs" (JArr (fst st)) (restConfig config)))
                 AppSchema.

End WithSource.

End Hydrate.

(** ** The hydrated configuration, as validated data *)

Module Config.
Import Js Exn.

(** [NamedCriteria<T>]: criteria with an optional name. *)
Record NamedCriteria : Type := {
  nc_name : option string;
  nc_criteria : jsval
}.

(** [MaybeAnonymousOrStringCriteria<T>]: a name that refers to criteria
    registered elsewhere, criteria wrapped with [criteria] (what
    [asNamedCriteria] accepts), or bare anonymous criteria. *)
Inductive MaybeAnonymousOrStringCriteria : Type :=
| CritRef (ref : string)
| CritNamed (nc : NamedCriteria)
| CritAnon (c : jsval).

(** [MinimalOrFullFilterJson<T>]: the shorthand array, or an object with
    [include] and [exclude].  Extraction and composition read these two
    properties only; whatever else the object holds, such as
    [excludeCondition], is kept in [others], so that a comparison of two
    rules sees it. *)
Inductive FilterJson : Type :=
| FilterArr (items : list MaybeAnonymousOrStringCriteria)
| FilterObj (include exclude : option (list MaybeAnonymousOrStringCriteria))
            (others : list (string * jsval)).

(** [RunnableBaseJson]: the filter fields every runnable level has. *)
Record RunnableBaseJson : Type := {
  authorIs : option FilterJson;
  itemIs : option FilterJson
}.

(** A rule object: [kind], the optional [name], its filters and the
    kind-specific remainder. *)
Record RuleJson : Type := {
  r_name : option string;
  r_kind : string;
  r_filters : RunnableBaseJson;
  r_config : list (string * jsval)
}.

(** An element of a [rules] array: a name, a rule, or a rule set (an
    object without [kind] that holds [rules]). *)
Inductive RuleData : Type :=
| RuleRef (ref : string)
| RuleObj (rule : RuleJson)
| RuleSetObj (condition : option string) (rules : list RuleData).

Record ActionJson : Type := {
  a_name : option string;
  a_kind : string;
  a_filters : RunnableBaseJson;
  a_config : list (string * jsval)
}.

Inductive ActionData : Type :=
| ActionRef (ref : string)
| ActionObj (action : ActionJson).

Record CheckData : Type := {
  c_name : string;
  c_filters : RunnableBaseJson;
  c_rules : option (list RuleData);
  c_actions : option (list ActionData)
}.

Record RunData : Type := {
  run_name : string;
  run_filterCriteriaDefaults : option RunnableBaseJson;
  run_filters : RunnableBaseJson;
  run_checks : list CheckData
}.

(** [SubredditConfigHydratedData] *)
Record SubredditConfigHydratedData : Type := {
  filterCriteriaDefaults : option RunnableBaseJson;
  runs : option (list RunData)
}.

(** *** The plain-object view, for structural comparison *)

Definition optField (key : string) (v : option jsval) : list (string * jsval) :=
  match v with
  | Some x => [(key, x)]
  | None => []
  end.

Definition namedCriteriaToJs (nc : NamedCriteria) : jsval :=
  JObj (optField "name" (JStr <$> nc_name nc) ++ [("criteria", nc_criteria nc)]).

Definition criteriaToJs (c : MaybeAnonymousOrStringCriteria) : jsval :=
  match c with
  | CritRef ref => JStr ref
  | CritNamed nc => namedCriteriaToJs nc
  | CritAnon v => v
  end.

Definition filterToJs (f : FilterJson) : jsval :=
  match f with
  | FilterArr items => JArr (List.map criteriaToJs items)
  | FilterObj include exclude others =>
      JObj (optField "include" ((fun l => JArr (List.map criteriaToJs l)) <$> include)
            ++ optField "exclude" ((fun l => JArr (List.map criteriaToJs l)) <$> exclude)
            ++ others)
  end.

Definition filtersToJs (b : RunnableBaseJson) : list (string * jsval) :=
  optField "authorIs" (filterToJs <$> authorIs b)
  ++ optField "itemIs" (filterToJs <$> itemIs b).

(** [const {name: n, ...rest} = rule]: the rule without its name, with
    every other property it has: its kind, its filters with all their
    properties, and the kind-specific remainder. *)
Definition ruleNoName (rule : RuleJson) : jsval :=
  JObj (("kind", JStr (r_kind rule)) :: filtersToJs (r_filters rule) ++ r_config rule).

(** *** A JavaScript [Map] with string keys

    Kept as the list of its entries in insertion order, which is the
    order [values()] yields. *)
Definition JsMap (V : Type) : Type := list (string * V).

Fixpoint mapGet {V : Type} (key : string) (m : JsMap V) : option V :=
  match m with
  | [] => None
  | (k, v) :: rest => if String.eqb k key then Some v else mapGet key rest
  end.

Definition mapHas {V : Type} (key : string) (m : JsMap V) : bool :=
  match mapGet key m with
  | Some _ => true
  | None => false
  end.

Fixpoint mapSet {V : Type} (key : string) (v : V) (m : JsMap V) : JsMap V :=
  match m with
  | [] => [(key, v)]
  | (k, w) :: rest =>
      if String.eqb k key then (k, v) :: rest else (k, w) :: mapSet key v rest
  end.

Definition mapValues {V : Type} (m : JsMap V) : list V := List.map snd m.

End Config.

(** ** Named rules (ConfigBuilder.extractNamedRules) *)

Module NamedRules.
Import Js Exn Config.
Local Open Scope js_scope.

(** Modelled from the spec: normalizeName (util) is not among the
    sources; registry keys are the lower-cased names. *)
Definition normalizeName (name : string) : string := toLowerCase name.

Definition conflictMessage (name : string) : string :=
  "Rule names must be unique (case-insensitive). Conflicting name: " ++ name.

(** The body of [for (const rule of rulesToAdd)].  Every rule that
    reaches it carries a name; normalizing an absent name would be a
    type error. *)
Definition registerRule (namedRules : JsMap RuleJson) (rule : RuleJson)
  : result (JsMap RuleJson) :=
  match r_name rule with
  | None => Throw (TypeError "Cannot read properties of undefined")
  | Some name =>
      let normalName := normalizeName name in
      if mapHas normalName namedRules then
        match mapGet normalName namedRules with
        | Some existing =>
            if negb (deepEqual (ruleNoName existing) (ruleNoName rule))
            then Throw (Error (conflictMessage name))
            else Ok namedRules
        | None => Ok namedRules
        end
      else Ok (mapSet normalName rule namedRules)
  end.

(** The loop [for (const r of rules)] of [extractNamedRules], given how
    one element yields its [rulesToAdd]. *)
Definition extractLoop (rulesToAddOf : RuleData -> result (list RuleJson))
  : list RuleData -> JsMap RuleJson -> result (JsMap RuleJson) :=
  fix loop (rules : list RuleData) (namedRules : JsMap RuleJson) {struct rules} :=
    match rules with
    | [] => Ok namedRules
    | r :: rest =>
        rulesToAdd <- rulesToAddOf r ;;
        namedRules' <- forOf registerRule rulesToAdd namedRules ;;
        loop rest namedRules'
    end.

(** [rulesToAdd] for one element: nothing for a name, the rule itself
    when it is named, and for a rule set the values of the map that
    [extractNamedRules(ruleSet.rules)] builds from a fresh map. *)
Fixpoint rulesToAddOf (r : RuleData) : result (list RuleJson) :=
  match r with
  | RuleRef _ => Ok []
  | RuleObj rule =>
      Ok (match r_name rule with Some _ => [rule] | None => [] end)
  | RuleSetObj _ setRules =>
      nestedNamed <- extractLoop rulesToAddOf setRules [] ;;
      Ok (mapValues nestedNamed)
  end.

(** [extractNamedRules(rules, namedRules)] *)
Definition extractNamedRules (rules : list RuleData) (namedRules : JsMap RuleJson)
  : result (JsMap RuleJson) :=
  extractLoop rulesToAddOf rules namedRules.

End NamedRules.

(** ** Named filters (ConfigBuilder.extractNamedFilters, insertNameFilters) *)

Module Filters.
Import Js Exn Config.
Local Open Scope js_scope.

(** [String.prototype.toLocaleLowerCase] *)
Definition toLocaleLowerCase (s : string) : string := toLowerCase s.

Definition duplicateMessage (filterName name : string) : string :=
  "names for " ++ filterName
    ++ " filters must be unique (case-insensitive). Conflicting name " ++ name.

(** [addToNamedFilter(namedFilter, filterName)(val)]; the map it mutates
    is passed in and handed back. *)
Definition addToNamedFilter (filterName : string)
    (namedFilter : gmap string NamedCriteria)
    (val : MaybeAnonymousOrStringCriteria)
  : result (gmap string NamedCriteria) :=
  match val with
  | CritRef _ => Ok namedFilter
  | CritNamed nc =>
      match nc_name nc with
      | Some name =>
          match namedFilter !! toLocaleLowerCase name with
          | Some _ => Throw (Error (duplicateMessage filterName name))
          | None => Ok (<[toLocaleLowerCase name := nc]> namedFilter)
          end
      | None => Ok namedFilter
      end
  | CritAnon _ => Ok namedFilter
  end.

(** [parseFilterJson(addToFilter)(val)] *)
Definition parseFilterJson {S : Type}
    (addToFilter : S -> MaybeAnonymousOrStringCriteria -> result S)
    (val : option FilterJson) (s : S) : result S :=
  match val with
  | None => Ok s
  | Some (FilterArr items) => forOf addToFilter items s
  | Some (FilterObj include exclude _) =>
      s' <- forOf addToFilter (default [] include) s ;;
      forOf addToFilter (default [] exclude) s'
  end.

(** The two registries [extractNamedFilters] fills. *)
Record NamedFilters : Type := {
  namedAuthorFilters : gmap string NamedCriteria;
  namedItemFilters : gmap string NamedCriteria
}.

Definition parseAuthorIs (val : option FilterJson) (nf : NamedFilters)
  : result NamedFilters :=
  m <- parseFilterJson (addToNamedFilter "authorIs") val (namedAuthorFilters nf) ;;
  Ok {| namedAuthorFilters := m; namedItemFilters := namedItemFilters nf |}.

Definition parseItemIs (val : option FilterJson) (nf : NamedFilters)
  : result NamedFilters :=
  m <- parseFilterJson (addToNamedFilter "itemIs") val (namedItemFilters nf) ;;
  Ok {| namedAuthorFilters := namedAuthorFilters nf; namedItemFilters := m |}.

(** [x?.authorIs] and [x?.itemIs] on optional filter defaults. *)
Definition authorIsOf (d : option RunnableBaseJson) : option FilterJson :=
  d ≫= authorIs.

Definition itemIsOf (d : option RunnableBaseJson) : option FilterJson :=
  d ≫= itemIs.

(** [rr.authorIs] for an element of a rule set; only rule objects have
    the property. *)
Definition ruleAuthorIs (r : RuleData) : option FilterJson :=
  match r with
  | RuleObj rule => authorIs (r_filters rule)
  | _ => None
  end.

(** The body of [for (const ru of c.rules ?? [])] *)
Definition filtersOfRule (c : CheckData) (nf : NamedFilters) (ru : RuleData)
  : result NamedFilters :=
  match ru with
  | RuleRef _ => Ok nf
  | RuleSetObj _ setRules =>
      forOf (fun nf' rr =>
               match rr with
               | RuleRef _ => Ok nf'
               | _ =>
                   nf1 <- parseAuthorIs (ruleAuthorIs rr) nf' ;;
                   parseItemIs (itemIs (c_filters c)) nf1
               end)
            setRules nf
  | RuleObj rule =>
      nf1 <- parseAuthorIs (authorIs (r_filters rule)) nf ;;
      parseItemIs (itemIs (c_filters c)) nf1
  end.

(** The body of [for (const a of c.actions ?? [])] *)
Definition filtersOfAction (c : CheckData) (nf : NamedFilters) (a : ActionData)
  : result NamedFilters :=
  match a with
  | ActionRef _ => Ok nf
  | ActionObj action =>
      nf1 <- parseAuthorIs (authorIs (a_filters action)) nf ;;
      parseItemIs (itemIs (c_filters c)) nf1
  end.

(** The body of [for (const c of r.checks)] *)
Definition filtersOfCheck (nf : NamedFilters) (c : CheckData) : result NamedFilters :=
  nf1 <- parseAuthorIs (authorIs (c_filters c)) nf ;;
  nf2 <- parseItemIs (itemIs (c_filters c)) nf1 ;;
  nf3 <- forOf (filtersOfRule c) (default [] (c_rules c)) nf2 ;;
  forOf (filtersOfAction c) (default [] (c_actions c)) nf3.

(** The body of [for (const r of runs)].  What it parses first and last
    are the document's [filterCriteriaDefaults]; the run's own defaults
    are read into [filterCriteriaDefaultsFromRun] and not used. *)
Definition filtersOfRun (filterCriteriaDefaults : option RunnableBaseJson)
    (nf : NamedFilters) (r : RunData) : result NamedFilters :=
  let filterCriteriaDefaultsFromRun := run_filterCriteriaDefaults r in
  nf1 <- parseAuthorIs (authorIsOf filterCriteriaDefaults) nf ;;
  nf2 <- parseAuthorIs (authorIs (run_filters r)) nf1 ;;
  nf3 <- parseItemIs (itemIs (run_filters r)) nf2 ;;
  nf4 <- parseItemIs (itemIsOf filterCriteriaDefaults) nf3 ;;
  forOf filtersOfCheck (run_checks r) nf4.

(** [extractNamedFilters(config, namedAuthorFilters, namedItemFilters)] *)
Definition extractNamedFilters (config : SubredditConfigHydratedData)
    (nf : NamedFilters) : result NamedFilters :=
  let filterCriteriaDefaults := filterCriteriaDefaults config in
  let runs := default [] (runs config) in
  nf1 <- parseAuthorIs (authorIsOf filterCriteriaDefaults) nf ;;
  nf2 <- parseItemIs (itemIsOf filterCriteriaDefaults) nf1 ;;
  forOf (filtersOfRun filterCriteriaDefaults) runs nf2.

(** The registries a caller starts from: two empty maps. *)
Definition noFilters : NamedFilters :=
  {| namedAuthorFilters := ∅; namedItemFilters := ∅ |}.

(** *** Composition *)

Definition missingMessage (filterName ref : string) : string :=
  "No named " ++ filterName ++ " criteria with the name " ++ dquote ++ ref ++ dquote.

(** [getNamedOrReturn(namedFilters, filterName)(x)].  The result of
    [Map.get] is [undefined] on a miss, which is [None] here. *)
Definition getNamedOrReturn (namedFilters : gmap string NamedCriteria)
    (filterName : string) (x : MaybeAnonymousOrStringCriteria)
  : result (option NamedCriteria) :=
  match x with
  | CritRef ref =>
      match namedFilters !! toLocaleLowerCase ref with
      | None => Throw (Error (missingMessage filterName ref))
      | Some _ => Ok (namedFilters !! ref)
      end
  | CritNamed nc => Ok (Some nc)
  | CritAnon c => Ok (Some {| nc_name := None; nc_criteria := c |})
  end.

(** [Array.prototype.map] with a callback that may throw. *)
Fixpoint mapM {A B : Type} (f : A -> result B) (xs : list A) : result (list B) :=
  match xs with
  | [] => Ok []
  | x :: rest => y <- f x ;; ys <- mapM f rest ;; Ok (y :: ys)
  end.

(** [MinimalOrFullFilter<T>] as composition leaves it; an element is
    [None] where the source stored [undefined]. *)
Inductive Filter : Type :=
| FullArr (items : list (option NamedCriteria))
| FullObj (include exclude : option (list (option NamedCriteria))).

(** [StructuredRunnableBase] *)
Record StructuredRunnableBase : Type := {
  s_authorIs : option Filter;
  s_itemIs : option Filter
}.

(** One filter field of [insertNameFilters]. *)
Definition insertField (namedFilters : gmap string NamedCriteria)
    (filterName : string) (val : option FilterJson) : result (option Filter) :=
  match val with
  | None => Ok None
  | Some (FilterArr items) =>
      l <- mapM (getNamedOrReturn namedFilters filterName) items ;;
      Ok (Some (FullArr l))
  | Some (FilterObj include exclude _) =>
      inc <- match include with
             | Some l => l' <- mapM (getNamedOrReturn namedFilters filterName) l ;;
                         Ok (Some l')
             | None => Ok None
             end ;;
      exc <- match exclude with
             | Some l => l' <- mapM (getNamedOrReturn namedFilters filterName) l ;;
                         Ok (Some l')
             | None => Ok None
             end ;;
      Ok (Some (FullObj inc exc))
  end.

(** [insertNameFilters(namedAuthorFilters, namedItemFilters)(val)] *)
Definition insertNameFilters (nf : NamedFilters) (val : RunnableBaseJson)
  : result StructuredRunnableBase :=
  a <- insertField (namedAuthorFilters nf) "authorIs" (authorIs val) ;;
  i <- insertField (namedItemFilters nf) "itemIs" (itemIs val) ;;
  Ok {| s_authorIs := a; s_itemIs := i |}.

End Filters.

(** ** Hashing of plain objects *)

Module Hashing.
Import Js.

(** [objectHash.sha1] of the object-hash package: some function from
    plain data to a digest.  Nothing about it is assumed. *)
Class ObjectHash : Type := sha1 : jsval -> string.

End Hashing.

(** ** Evaluation of one rule against one activity (Rule.run) *)

Module RuleEngine.
Import Js Exn Hashing.

(** What [run] calls outside itself, in the order of the calls. *)
Inductive Event : Type :=
| CacheLookup
| ItemFilter
| AuthorFilter
| Process.

Definition Event_eqb (a b : Event) : bool :=
  match a, b with
  | CacheLookup, CacheLookup | ItemFilter, ItemFilter
  | AuthorFilter, AuthorFilter | Process, Process => true
  | _, _ => false
  end.

(** A computation that records the calls it makes and returns or
    throws. *)
Definition Traced (A : Type) : Type := (list Event * result A)%type.

Definition ret {A : Type} (a : A) : Traced A := ([], Ok a).

Definition call {A : Type} (ev : Event) (r : result A) : Traced A := ([ev], r).

Definition tbind {A B : Type} (m : Traced A) (k : A -> Traced B) : Traced B :=
  match m with
  | (t, Ok a) => let (t', r) := k a in (t ++ t', r)
  | (t, Throw e) => (t, Throw e)
  end.

Declare Scope traced_scope.
Delimit Scope traced_scope with traced.
Notation "x <~ c ;; k" := (tbind c (fun x => k))
  (at level 100, c at next level, right associativity) : traced_scope.
Local Open Scope traced_scope.

(** [ObjectPremise] *)
Record ObjectPremise : Type := {
  p_kind : string;
  p_config : jsval;
  p_authorIs : jsval;
  p_itemIs : jsval
}.

Definition premiseToJs (p : ObjectPremise) : jsval :=
  JObj [("kind", JStr (p_kind p)); ("config", p_config p);
        ("authorIs", p_authorIs p); ("itemIs", p_itemIs p)].

(** The rule's own result, as [process] returns it. *)
Record IRuleResult : Type := {
  ir_result : option string;
  ir_data : option jsval
}.

(** The three values a filter check returns: whether the activity
    passed, the filter type, and the filter's detailed results. *)
Record FilterOutcome : Type := {
  passed : bool;
  filterType : option string;
  filterResults : jsval
}.

(** [checkItemFilter] and [checkAuthorFilter] of the resources module,
    which depend on the activity and on the platform. *)
Class FilterChecks : Type := {
  checkItemFilter : jsval -> jsval -> result FilterOutcome;
  checkAuthorFilter : jsval -> jsval -> result FilterOutcome
}.

Section WithHash.
Context `{ObjectHash}.

(** Modelled from the spec: the RulePremise entity is not among the
    sources.  It is the canonical identity of a rule; like its sibling
    ActionPremise, it stores the hash of the whole premise object. *)
Record RulePremise : Type := {
  rp_name : option string;
  rp_kind : string;
  rp_config : ObjectPremise;
  rp_configHash : string
}.

Definition newRulePremise (kind : string) (config : ObjectPremise)
    (name : option string) : RulePremise :=
  {| rp_name := name; rp_kind := kind; rp_config := config;
     rp_configHash := sha1 (premiseToJs config) |}.

(** [RuleResultEntity]: only [premise] is set on construction. *)
Record RuleResultEntity : Type := {
  premise : RulePremise;
  triggered : option bool;
  result_ : option string;
  fromCache : option bool;
  data : option jsval;
  res_itemIs : option jsval;
  res_authorIs : option jsval
}.

Definition newRuleResultEntity (p : RulePremise) : RuleResultEntity :=
  {| premise := p; triggered := None; result_ := None; fromCache := None;
     data := None; res_itemIs := None; res_authorIs := None |}.

(** A rule as its constructor and its subclass define it: the abstract
    methods [getKind], [getSpecificPremise] and [process] are fields. *)
Record RuleOptions : Type := {
  name : option string;
  getKind : string;
  getSpecificPremise : jsval;
  authorIs : jsval;
  itemIs : jsval;
  process : jsval -> result (bool * IRuleResult)
}.

(** [Rule.getPremise] *)
Definition getPremise (o : RuleOptions) : ObjectPremise :=
  {| p_kind := getKind o; p_config := getSpecificPremise o;
     p_authorIs := authorIs o; p_itemIs := itemIs o |}.

(** An initialized rule: [initialize] has stored the premise entity,
    either the candidate built from [getPremise] or the stored entity
    with the candidate's kind, hashes and name. *)
Record Rule : Type := {
  options : RuleOptions;
  rulePremiseEntity : RulePremise
}.

Definition initialize (o : RuleOptions) : Rule :=
  {| options := o;
     rulePremiseEntity := newRulePremise (getKind o) (getPremise o) (name o) |}.

(** Modelled from the spec: findResultByPremise (util) is not among the
    sources.  It finds, among the results of the pass so far, the first
    one produced for an identical premise hash. *)
Definition findResultByPremise (p : RulePremise) (results : list RuleResultEntity)
  : option RuleResultEntity :=
  List.find (fun x => String.eqb (rp_configHash (premise x)) (rp_configHash p)) results.

(** [this.itemIs.length > 0] *)
Definition nonEmptyArray (v : jsval) : bool :=
  match v with
  | JArr items => (0 <? List.length items)%nat
  | JStr s => (0 <? String.length s)%nat
  | _ => false
  end.

Definition withItemIs (v : jsval) (res : RuleResultEntity) : RuleResultEntity :=
  {| premise := premise res; triggered := triggered res; result_ := result_ res;
     fromCache := fromCache res; data := data res;
     res_itemIs := Some v; res_authorIs := res_authorIs res |}.

Definition withAuthorIs (v : jsval) (res : RuleResultEntity) : RuleResultEntity :=
  {| premise := premise res; triggered := triggered res; result_ := result_ res;
     fromCache := fromCache res; data := data res;
     res_itemIs := res_itemIs res; res_authorIs := Some v |}.

Definition withResult (msg : string) (res : RuleResultEntity) : RuleResultEntity :=
  {| premise := premise res; triggered := triggered res; result_ := Some msg;
     fromCache := fromCache res; data := data res;
     res_itemIs := res_itemIs res; res_authorIs := res_authorIs res |}.

(** The four assignments after [process] returned. *)
Definition withProcessed (t : bool) (plain : IRuleResult) (res : RuleResultEntity)
  : RuleResultEntity :=
  {| premise := premise res; triggered := Some t; result_ := ir_result plain;
     fromCache := Some false; data := ir_data plain;
     res_itemIs := res_itemIs res; res_authorIs := res_authorIs res |}.

Context `{FilterChecks}.

(** [Rule.run(item, existingResults, options)].  The two [try] blocks
    log and rethrow, so an error of a collaborator leaves as it came. *)
Definition run (rule : Rule) (item : jsval) (existingResults : list RuleResultEntity)
  : Traced (option bool * RuleResultEntity) :=
  let this := options rule in
  let res := newRuleResultEntity (rulePremiseEntity rule) in
  existingResult <~
    call CacheLookup (Ok (findResultByPremise (rulePremiseEntity rule) existingResults)) ;;
  match existingResult with
  | Some existing => ret (triggered existing, existing)
  | None =>
      itemCheck <~ call ItemFilter (checkItemFilter item (itemIs this)) ;;
      let res := if nonEmptyArray (itemIs this)
                 then withItemIs (filterResults itemCheck) res else res in
      if negb (passed itemCheck)
      then ret (None, withResult "Item did not pass 'itemIs' test" res)
      else
        authCheck <~ call AuthorFilter (checkAuthorFilter item (authorIs this)) ;;
        let res := match filterType authCheck with
                   | Some _ => withAuthorIs (filterResults authCheck) res
                   | None => res
                   end in
        if negb (passed authCheck)
        then ret (None,
                  withResult (default "undefined" (filterType authCheck)
                                ++ " author criteria not matched") res)
        else
          processed <~ call Process (process this item) ;;
          ret (Some (fst processed), withProcessed (fst processed) (snd processed) res)
  end.

(** Modelled from the spec: the check that runs the rules of a pass is
    not among the sources.  Rules run in declared order against one
    activity, and each is handed the results produced so far. *)
Fixpoint runRules (rules : list Rule) (item : jsval)
    (existingResults : list RuleResultEntity)
  : Traced (list (option bool * RuleResultEntity)) :=
  match rules with
  | [] => ret []
  | rule :: rest =>
      r <~ run rule item existingResults ;;
      rs <~ runRules rest item (existingResults ++ [snd r]) ;;
      ret (r :: rs)
  end.

End WithHash.

End RuleEngine.

(** ** Author activity memoization (SubredditResources) *)

Module Resources.
Import Js Exn Hashing.

(** The shared manager's settings (SubredditResourcesManager). *)
Record SubredditResourcesManager : Type := {
  m_authorTTL : Z;
  m_enabled : bool
}.

Definition manager : SubredditResourcesManager :=
  {| m_authorTTL := 10000; m_enabled := true |}.

(** [SubredditCacheOptions], as far as the constructor reads them. *)
Record SubredditCacheOptions : Type := {
  o_enabled : option bool;
  o_authorTTL : option Z;
  o_wikiTTL : option Z
}.

Record SubredditResources : Type := {
  enabled : bool;
  authorTTL : Z;
  useSubredditAuthorCache : bool;
  wikiTTL : Z;
  name : string
}.

(** [new SubredditResources(name, options)] *)
Definition newSubredditResources (mgr : SubredditResourcesManager)
    (name : string) (options : SubredditCacheOptions) : SubredditResources :=
  let enabled := default true (o_enabled options) in
  {| enabled := if m_enabled mgr then enabled else false;
     authorTTL := match o_authorTTL options with
                  | None => m_authorTTL mgr
                  | Some ttl => ttl
                  end;
     useSubredditAuthorCache := match o_authorTTL options with
                                | None => false
                                | Some _ => true
                                end;
     wikiTTL := default 300000%Z (o_wikiTTL options);
     name := name |}.

(** A record of the process-wide memory-cache: the value, the time it
    expires at, and the time at which the timer that [put] armed for it
    is due.  Times are whole milliseconds. *)
Record Entry (V : Type) : Type := {
  e_expire : Z;
  e_timerDue : Z;
  e_value : V
}.

Arguments e_expire {V} _.
Arguments e_timerDue {V} _.
Arguments e_value {V} _.

(** The longest delay [setTimeout] takes. *)
Definition TIMEOUT_MAX : Z := 2147483647.

(** The delay [setTimeout(callback, time)] arms: a delay below one
    millisecond or above [TIMEOUT_MAX] is replaced by one
    millisecond. *)
Definition timerDelay (time : Z) : Z :=
  if (1 <=? time)%Z && (time <=? TIMEOUT_MAX)%Z then time else 1%Z.

(** The process-wide memory-cache. *)
Abbreviation Store := (gmap string (Entry (list jsval))).

(** A read or a write of the store. *)
Inductive CacheOp : Type :=
| CacheGet (key : string)
| CachePut (key : string).

(** [cache.get(key)] of the memory-cache package: the value, or [null]
    when the key is unbound or its record has expired, in which case the
    record is dropped.  The timer of a dropped record stays armed; it is
    due by then, as no timer is due later than its record expires, and
    has had its turn when the fetch the caller awaits next is back. *)
Definition cacheGet (now : Z) (key : string) (store : Store)
  : option (list jsval) * Store :=
  match store !! key with
  | Some entry =>
      if (now <=? e_expire entry)%Z then (Some (e_value entry), store)
      else (None, delete key store)
  | None => (None, store)
  end.

(** [cache.put(key, value, time)] of the memory-cache package for a
    positive [time], which is all the callers pass: the record replaces
    the one of the key, whose timer is cleared, expires at [now + time],
    and a timer is armed with [setTimeout(..., time)] that deletes it. *)
Definition cachePut (now : Z) (key : string) (value : list jsval) (time : Z)
    (store : Store) : Store :=
  <[key := {| e_expire := (now + time)%Z;
              e_timerDue := (now + timerDelay time)%Z;
              e_value := value |}]> store.

(** What the timers do between two calls: the timers of the keys [ran]
    get their turn at time [now], and each that is due deletes its
    record.  A timer never runs before it is due; how long after, the
    event loop decides. *)
Definition runTimers {V : Type} (ran : list string) (now : Z)
    (store : gmap string (Entry V)) : gmap string (Entry V) :=
  fold_right (fun key s =>
                match s !! key with
                | Some entry =>
                    if (e_timerDue entry <=? now)%Z then delete key s else s
                | None => s
                end)
             store ran.

(** [getAuthorActivities] of Utils/SnoowrapUtils: the live listing. *)
Class ActivitySource : Type :=
  fetchAuthorActivities : jsval -> list (string * jsval) -> result (list jsval).

Section WithCollaborators.
Context `{ObjectHash} `{ActivitySource}.

(** The outcome of one call: what it returned, the store it left, and
    the store operations it made. *)
Record Outcome : Type := {
  returned : result (list jsval);
  storeAfter : Store;
  cacheOps : list CacheOp
}.

(** The key computed in the [useCache] branch.  [hashObj] is built, and
    extended with the subreddit name for a per-subreddit cache, but the
    digest is taken of a second spread of the options and user name. *)
Definition authorActivitiesHash (this : SubredditResources) (user : jsval)
    (options : list (string * jsval)) : string :=
  let userName := prop "name" user in
  let hashObj := setField "userName" userName options in
  let hashObj := if useSubredditAuthorCache this
                 then setField "subreddit" (JStr (name this)) hashObj
                 else hashObj in
  sha1 (JObj (setField "userName" userName options)).

(** [SubredditResources.getAuthorActivities(user, options)] at time
    [now], on the store [store]. *)
Definition getAuthorActivities (this : SubredditResources) (now : Z)
    (user : jsval) (options : list (string * jsval)) (store : Store) : Outcome :=
  let useCache := enabled this && (0 <? authorTTL this)%Z in
  if useCache then
    let hash := authorActivitiesHash this user options in
    let (cacheVal, store1) := cacheGet now hash store in
    match cacheVal with
    | Some v =>
        {| returned := Ok v; storeAfter := store1; cacheOps := [CacheGet hash] |}
    | None =>
        match fetchAuthorActivities user options with
        | Ok items =>
            {| returned := Ok items;
               storeAfter := cachePut now hash items (authorTTL this) store1;
               cacheOps := [CacheGet hash; CachePut hash] |}
        | Throw e =>
            {| returned := Throw e; storeAfter := store1;
               cacheOps := [CacheGet hash] |}
        end
    end
  else
    {| returned := fetchAuthorActivities user options;
       storeAfter := store; cacheOps := [] |}.

End WithCollaborators.

End Resources.

(** ** Action premises (ActionPremise) *)

Module Premise.
Import Js Exn Hashing.

(** [ActionPremiseOptions] *)
Record ActionPremiseOptions : Type := {
  kind : string;
  config : RuleEngine.ObjectPremise;
  active : option bool;
  manager : jsval;
  name : option string
}.

Record ActionPremise : Type := {
  ap_name : option string;
  ap_kind : string;
  ap_config : jsval;
  ap_configHash : string;
  ap_active : bool;
  ap_manager : jsval;
  itemIsConfig : option jsval;
  itemIsConfigHash : option string;
  authorIsConfig : option jsval;
  authorIsConfigHash : option string
}.

(** A destructuring default: [x = d] takes [d] when [x] is
    [undefined]. *)
Definition orDefault (d v : jsval) : jsval :=
  match v with
  | JUndefined => d
  | _ => v
  end.

(** [v.length], compared with zero: zero where there is no length. *)
Definition jsLength (v : jsval) : nat :=
  match v with
  | JArr items => List.length items
  | JStr s => String.length s
  | _ => 0%nat
  end.

Section WithHash.
Context `{ObjectHash}.

(** The author configuration the constructor stores: only [include] when
    it is non-empty, otherwise [excludeCondition] and [exclude]; nothing
    when both lists are empty. *)
Definition authorConfigOf (premise : RuleEngine.ObjectPremise) : option jsval :=
  let authorIs := orDefault (JObj []) (RuleEngine.p_authorIs premise) in
  let include := orDefault (JArr []) (prop "include" authorIs) in
  let exclude := orDefault (JArr []) (prop "exclude" authorIs) in
  if (0 <? jsLength include)%nat || (0 <? jsLength exclude)%nat then
    if (0 <? jsLength include)%nat
    then Some (JObj [("include", include)])
    else Some (JObj [("excludeCondition",
                       prop "excludeCondition" (RuleEngine.p_authorIs premise));
                     ("exclude", exclude)])
  else None.

(** [new ActionPremise(data)] for defined [data]. *)
Definition newActionPremise (data : ActionPremiseOptions) : ActionPremise :=
  let itemIs := orDefault (JArr []) (RuleEngine.p_itemIs (config data)) in
  let authorIsConfig := authorConfigOf (config data) in
  {| ap_name := name data;
     ap_kind := kind data;
     ap_config := RuleEngine.p_config (config data);
     ap_configHash := sha1 (RuleEngine.premiseToJs (config data));
     ap_active := default true (active data);
     ap_manager := manager data;
     itemIsConfig := if (0 <? jsLength itemIs)%nat then Some itemIs else None;
     itemIsConfigHash := if (0 <? jsLength itemIs)%nat then Some (sha1 itemIs) else None;
     authorIsConfig := authorIsConfig;
     authorIsConfigHash := sha1 <$> authorIsConfig |}.

End WithHash.

End Premise.

(** ** Named actions and the resolution of names (ConfigBuilder) *)

Module NamedEntities.
Import Js Exn Config Filters.
Local Open Scope js_scope.

(** [const {name: n, ...rest} = a]: the action without its name. *)
Definition actionNoName (a : ActionJson) : jsval :=
  JObj (("kind", JStr (a_kind a)) :: filtersToJs (a_filters a) ++ a_config a).

Definition actionConflictMessage (name : string) : string :=
  "Actions names must be unique (case-insensitive). Conflicting name: " ++ name.

(** The body of [for (const a of actions)] in [extractNamedActions]:
    names are skipped, and so are actions without a name. *)
Definition registerAction (namedActions : JsMap ActionJson) (a : ActionData)
  : result (JsMap ActionJson) :=
  match a with
  | ActionRef _ => Ok namedActions
  | ActionObj action =>
      match a_name action with
      | None => Ok namedActions
      | Some name =>
          let normalName := toLowerCase name in
          if mapHas normalName namedActions then
            match mapGet normalName namedActions with
            | Some existing =>
                if negb (deepEqual (actionNoName existing) (actionNoName action))
                then Throw (Error (actionConflictMessage name))
                else Ok namedActions
            | None => Ok namedActions
            end
          else Ok (mapSet normalName action namedActions)
      end
  end.

(** [extractNamedActions(actions, namedActions)] *)
Definition extractNamedActions (actions : list ActionData)
    (namedActions : JsMap ActionJson) : result (JsMap ActionJson) :=
  forOf registerAction actions namedActions.

(** [ActionConfigObject]: an action whose filter fields are composed. *)
Record ActionConfigObject : Type := {
  ao_name : option string;
  ao_kind : string;
  ao_filters : StructuredRunnableBase;
  ao_config : list (string * jsval)
}.

(** [{...a, ...namedFilters(a)}] *)
Definition strongAction (nf : NamedFilters) (a : ActionJson) : result ActionConfigObject :=
  filters <- insertNameFilters nf (a_filters a) ;;
  Ok {| ao_name := a_name a; ao_kind := a_kind a;
        ao_filters := filters; ao_config := a_config a |}.

Definition missingActionMessage (ref : string) : string :=
  "No named Action with the name " ++ ref ++ " was found".

(** The body of [for (const a of actions)] in [insertNamedActions]. *)
Definition resolveAction (namedActions : JsMap ActionJson) (nf : NamedFilters)
    (a : ActionData) : result ActionConfigObject :=
  match a with
  | ActionRef ref =>
      match mapGet (toLowerCase ref) namedActions with
      | None => Throw (Error (missingActionMessage ref))
      | Some foundAction => strongAction nf foundAction
      end
  | ActionObj action => strongAction nf action
  end.

(** [insertNamedActions(actions, namedActions, namedAuthorFilters,
    namedItemFilters)] *)
Definition insertNamedActions (actions : list ActionData)
    (namedActions : JsMap ActionJson) (nf : NamedFilters)
  : result (list ActionConfigObject) :=
  forOf (fun strongActions a =>
           strong <- resolveAction namedActions nf a ;;
           Ok (strongActions ++ [strong]))
        actions [].

(** *** Rules *)

(** [buildFilter] (util), which compiles the composed author filter of
    an author rule into its [include] and [exclude]. *)
Class FilterBuilder : Type := buildFilter : option Filter -> jsval * jsval.

(** A raw criteria entry as the typed value the filter functions read:
    a string is a name, an object with [criteria] is named criteria
    (what [asNamedCriteria] accepts), anything else is anonymous. *)
Definition criteriaOfJs (v : jsval) : MaybeAnonymousOrStringCriteria :=
  match v with
  | JStr ref => CritRef ref
  | JObj fields =>
      if hasField "criteria" fields
      then CritNamed {| nc_name := match getField "name" fields with
                                   | JStr n => Some n
                                   | _ => None
                                   end;
                        nc_criteria := getField "criteria" fields |}
      else CritAnon v
  | _ => CritAnon v
  end.

(** [include.map(x => getNamedAuthorOrReturn(x))] on the raw [include]
    of an author rule, as [insertNameFilters] runs it for the object
    [{include, exclude}]: nothing when the list is [undefined], a type
    error when it is no array. *)
Definition composeRawList (namedFilters : gmap string NamedCriteria)
    (filterName : string) (v : jsval)
  : result (option (list (option NamedCriteria))) :=
  match v with
  | JUndefined => Ok None
  | JArr items =>
      l <- mapM (getNamedOrReturn namedFilters filterName)
             (List.map criteriaOfJs items) ;;
      Ok (Some l)
  | _ => Throw (TypeError "map is not a function")
  end.

(** [RuleConfigObject]: a rule whose filter fields are composed. *)
Record RuleConfigObject : Type := {
  ro_name : option string;
  ro_kind : string;
  ro_filters : StructuredRunnableBase;
  ro_config : list (string * jsval)
}.

(** An element of the structured rules: a rule, or a rule set of
    structured rules. *)
Inductive StrongRuleData : Type :=
| StrongRule (rule : RuleConfigObject)
| StrongSet (condition : option string) (rules : list StrongRuleData).

Definition missingRuleMessage (ref : string) : string :=
  "No named Rule with the name " ++ ref ++ " was found".

Section WithBuilder.
Context `{FilterBuilder}.

(** [{...r, ...namedFilters(r)}], followed for a rule of kind [author]
    by the composition and compilation of its own [include] and
    [exclude]. *)
Definition strongRule (nf : NamedFilters) (r : RuleJson) : result RuleConfigObject :=
  filters <- insertNameFilters nf (r_filters r) ;;
  if String.eqb (r_kind r) "author" then
    include <- composeRawList (namedAuthorFilters nf) "authorIs"
                 (getField "include" (r_config r)) ;;
    exclude <- composeRawList (namedAuthorFilters nf) "authorIs"
                 (getField "exclude" (r_config r)) ;;
    let builtFilter := buildFilter (Some (FullObj include exclude)) in
    Ok {| ro_name := r_name r; ro_kind := r_kind r; ro_filters := filters;
          ro_config := setField "exclude" (snd builtFilter)
                         (setField "include" (fst builtFilter) (r_config r)) |}
  else
    Ok {| ro_name := r_name r; ro_kind := r_kind r; ro_filters := filters;
          ro_config := r_config r |}.

(** The loop [for (const r of rules)] of [insertNamedRules], given how
    one element is resolved. *)
Definition insertLoop (resolve : RuleData -> result StrongRuleData)
  : list RuleData -> result (list StrongRuleData) :=
  fix loop (rules : list RuleData) {struct rules} :=
    match rules with
    | [] => Ok []
    | r :: rest =>
        strong <- resolve r ;;
        strongRest <- loop rest ;;
        Ok (strong :: strongRest)
    end.

(** One element of [insertNamedRules]: a name is looked up under its
    lower-cased form, a rule set has its own rules resolved by
    [insertNamedRules], a rule is taken as it is. *)
Fixpoint resolveRule (namedRules : JsMap RuleJson) (nf : NamedFilters)
    (r : RuleData) : result StrongRuleData :=
  match r with
  | RuleRef ref =>
      match mapGet (toLowerCase ref) namedRules with
      | None => Throw (Error (missingRuleMessage ref))
      | Some foundRule => rule <- strongRule nf foundRule ;; Ok (StrongRule rule)
      end
  | RuleSetObj condition setRules =>
      strongSetRules <- insertLoop (resolveRule namedRules nf) setRules ;;
      Ok (StrongSet condition strongSetRules)
  | RuleObj rule => strong <- strongRule nf rule ;; Ok (StrongRule strong)
  end.

(** [insertNamedRules(rules, namedRules, namedAuthorFilters,
    namedItemFilters)] *)
Definition insertNamedRules (rules : list RuleData) (namedRules : JsMap RuleJson)
    (nf : NamedFilters) : result (list StrongRuleData) :=
  insertLoop (resolveRule namedRules nf) rules.

End WithBuilder.

End NamedEntities.

(** ** Lists from environment variables (ConfigBuilder.parseListFromEnv) *)

Module EnvList.
Import Js.

(** Strings are UTF-8: a character outside the ASCII range is the
    sequence of its bytes.

    The characters [String.prototype.trim] removes are the white space
    and the line terminators of ECMAScript, told apart here by the
    number of their bytes:
    - one byte: U+0009 to U+000D and U+0020;
    - two bytes: U+00A0 (C2 A0);
    - three bytes: U+1680 (E1 9A 80), U+2000 to U+200A (E2 80 80 to
      E2 80 8A), U+2028 and U+2029 (E2 80 A8, E2 80 A9), U+202F
      (E2 80 AF), U+205F (E2 81 9F), U+3000 (E3 80 80) and U+FEFF
      (EF BB BF). *)
Definition oneByteSpace (c : ascii) : bool :=
  let n := nat_of_ascii c in
  ((9 <=? n)%nat && (n <=? 13)%nat) || (n =? 32)%nat.

Definition twoByteSpace (c1 c2 : ascii) : bool :=
  (nat_of_ascii c1 =? 194)%nat && (nat_of_ascii c2 =? 160)%nat.

Definition threeByteSpace (c1 c2 c3 : ascii) : bool :=
  let a := nat_of_ascii c1 in
  let b := nat_of_ascii c2 in
  let c := nat_of_ascii c3 in
  ((a =? 225)%nat && (b =? 154)%nat && (c =? 128)%nat)
  || ((a =? 226)%nat && (b =? 128)%nat
      && (((128 <=? c)%nat && (c <=? 138)%nat)
          || (c =? 168)%nat || (c =? 169)%nat || (c =? 175)%nat))
  || ((a =? 226)%nat && (b =? 129)%nat && (c =? 159)%nat)
  || ((a =? 227)%nat && (b =? 128)%nat && (c =? 128)%nat)
  || ((a =? 239)%nat && (b =? 187)%nat && (c =? 191)%nat).

(** The number of bytes of the white space character the string starts
    with; zero when it starts with none. *)
Definition spaceWidth (s : string) : nat :=
  match s with
  | String c1 r1 =>
      if oneByteSpace c1 then 1%nat
      else match r1 with
           | String c2 r2 =>
               if twoByteSpace c1 c2 then 2%nat
               else match r2 with
                    | String c3 _ => if threeByteSpace c1 c2 c3 then 3%nat else 0%nat
                    | EmptyString => 0%nat
                    end
           | EmptyString => 0%nat
           end
  | EmptyString => 0%nat
  end.

(** The string without the white space characters it starts with. *)
Fixpoint trimStart (s : string) : string :=
  match s with
  | String c1 r1 =>
      if oneByteSpace c1 then trimStart r1
      else match r1 with
           | String c2 r2 =>
               if twoByteSpace c1 c2 then trimStart r2
               else match r2 with
                    | String c3 r3 =>
                        if threeByteSpace c1 c2 c3 then trimStart r3 else s
                    | EmptyString => s
                    end
           | EmptyString => s
           end
  | EmptyString => EmptyString
  end.

(** The string is white space from its first to its last character. *)
Definition allSpace (s : string) : bool := String.eqb (trimStart s) EmptyString.

(** The string without the white space characters it ends with: it is
    cut where what follows is white space to the end. *)
Fixpoint trimEnd (s : string) : string :=
  match s with
  | EmptyString => EmptyString
  | String c rest => if allSpace s then EmptyString else String c (trimEnd rest)
  end.

(** [s.trim()] *)
Definition trim (s : string) : string := trimEnd (trimStart s).

(** [s.includes(c)] for a single character [c]. *)
Fixpoint includesChar (c : ascii) (s : string) : bool :=
  match s with
  | EmptyString => false
  | String d rest => Ascii.eqb d c || includesChar c rest
  end.

(** [s.split(c)] for a single character [c]: the pieces between the
    occurrences of [c]; the empty string gives one empty piece. *)
Fixpoint split (c : ascii) (s : string) : list string :=
  match s with
  | EmptyString => [EmptyString]
  | String d rest =>
      if Ascii.eqb d c then EmptyString :: split c rest
      else match split c rest with
           | piece :: pieces => String d piece :: pieces
           | [] => [String d EmptyString]
           end
  end.

Definition comma : ascii := ascii_of_nat 44.
Definition space : ascii := ascii_of_nat 32.

Definition nonEmpty (x : string) : bool := negb (String.eqb x EmptyString).

(** [parseListFromEnv(val)]; [None] is [undefined]. *)
Definition parseListFromEnv (val : option string) : option (list string) :=
  match val with
  | None => None
  | Some v =>
      let trimmedVal := trim v in
      let listVals :=
        if includesChar comma trimmedVal
        then List.filter nonEmpty (List.map trim (split comma trimmedVal))
        else List.filter (fun x => negb (String.eqb x " ") && nonEmpty x)
                         (split space trimmedVal) in
      if (List.length listVals =? 0)%nat then None else Some listVals
  end.

End EnvList.

(** ** SubredditResources.getContent *)

Module WikiContent.
Import Js Exn Resources.

(** The process-wide memory-cache with the values [getContent] and its
    siblings put there; its records are those of [Resources.Entry],
    with the time they expire at and the time their timer is due. *)
Abbreviation SharedStore := (gmap string (Entry jsval)).

(** [cache.get(key)] of the memory-cache package: the value, or [null]
    when the key is unbound or its record has expired, in which case the
    record is dropped. *)
Definition get (now : Z) (key : string) (store : SharedStore) : jsval * SharedStore :=
  match store !! key with
  | Some entry =>
      if (now <=? e_expire entry)%Z then (e_value entry, store)
      else (JNull, delete key store)
  | None => (JNull, store)
  end.

(** [cache.put(key, value, time)] of the memory-cache package for a
    positive [time], which is all the callers pass: the record replaces
    the one of the key, whose timer is cleared, expires at [now + time],
    and a timer is armed with [setTimeout(..., time)] that deletes it. *)
Definition put (now : Z) (key : string) (value : jsval) (time : Z)
    (store : SharedStore) : SharedStore :=
  <[key := {| e_expire := (now + time)%Z;
              e_timerDue := (now + timerDelay time)%Z;
              e_value := value |}]> store.

Definition WIKI_DESCRIM : string := "wiki:".

(** [s.substring(n)] *)
Fixpoint substringFrom (n : nat) (s : string) : string :=
  match n, s with
  | O, _ => s
  | S n', EmptyString => EmptyString
  | S n', String _ rest => substringFrom n' rest
  end.

(** What [getContent] reads of a snoowrap [Subreddit]. *)
Record Subreddit : Type := {
  display_name : string;
  display_name_prefixed : string
}.

(** [await subreddit.getWikiPage(wikiPath).content_md] *)
Class WikiSource : Type :=
  content_md : Subreddit -> string -> result string.

Record ContentOutcome : Type := {
  content : result jsval;
  contentStore : SharedStore
}.

Definition hasWiki (val : string) : bool :=
  String.eqb (String.substring 0 (String.length WIKI_DESCRIM) (EnvList.trim val))
             WIKI_DESCRIM.

Definition wikiPathOf (val : string) : string :=
  substringFrom (String.length WIKI_DESCRIM) (EnvList.trim val).

(** [`${subreddit.display_name}-${wikiPath}`] *)
Definition contentKey (subreddit : Subreddit) (wikiPath : string) : string :=
  (display_name subreddit ++ "-" ++ wikiPath)%string.

Definition unreadableMessage (subreddit : Subreddit) (wikiPath : string) : string :=
  ("Could not read wiki page. Please ensure the page 'https://reddit.com"
     ++ display_name_prefixed subreddit ++ "wiki/" ++ wikiPath
     ++ "' exists and is readable")%string.

Section WithSource.
Context `{WikiSource}.

(** [SubredditResources.getContent(val, subreddit)] at time [now], on
    the store [store]. *)
Definition getContent (this : SubredditResources) (now : Z) (val : string)
    (subreddit : Subreddit) (store : SharedStore) : ContentOutcome :=
  if negb (hasWiki val) then
    {| content := Ok (JStr val); contentStore := store |}
  else
    let useCache := enabled this && (0 <? wikiTTL this)%Z in
    let wikiPath := wikiPathOf val in
    let hash := contentKey subreddit wikiPath in
    let looked := if useCache then get now (contentKey subreddit wikiPath) store
                  else (JNull, store) in
    match fst looked with
    | JNull =>
        match content_md subreddit wikiPath with
        | Ok wikiContent =>
            {| content := Ok (JStr wikiContent);
               contentStore := if useCache
                               then put now hash (JStr wikiContent) (wikiTTL this)
                                        (snd looked)
                               else snd looked |}
        | Throw err =>
            {| content := Throw (LoggedError (unreadableMessage subreddit wikiPath));
               contentStore := snd looked |}
        end
    | cachedContent =>
        {| content := Ok cachedContent; contentStore := snd looked |}
    end.

End WithSource.

End WikiContent.

(** ** The registry of names (ConfigBuilder.parseToStructured) *)

Module Structured.
Import Js Exn Config NamedRules NamedEntities.
Local Open Scope js_scope.

(** The body of [for (const c of r.checks)] in the first loop of
    [parseToStructured]: the named rules and the named actions of the
    check are added to the two registries. *)
Definition collectCheck (st : JsMap RuleJson * JsMap ActionJson) (c : CheckData)
  : result (JsMap RuleJson * JsMap ActionJson) :=
  namedRules <- extractNamedRules (default [] (c_rules c)) (fst st) ;;
  namedActions <- extractNamedActions (default [] (c_actions c)) (snd st) ;;
  Ok (namedRules, namedActions).

(** The first loop of [parseToStructured], over the hydrated runs: the
    registries start empty and go through every check of every run
    before any name is resolved. *)
Definition collectNamed (realRuns : list RunData)
  : result (JsMap RuleJson * JsMap ActionJson) :=
  forOf (fun st r => forOf collectCheck (run_checks r) st) realRuns ([], []).

End Structured.

(** ** The restart loop (App.runManagers) *)

Module App.
Import Js Exn.
Import QArith.
Local Open Scope js_scope.

(** The counters of the loop and the time of the last error, in
    milliseconds. *)
Record RunState : Type := {
  timeoutCount : nat;
  otherRetryCount : nat;
  lastErrorAt : option Z
}.

Definition initial : RunState :=
  {| timeoutCount := 0; otherRetryCount := 0; lastErrorAt := None |}.

Definition maxTimeoutCount : nat := 4.

Definition maxOtherCount : nat := 0.

(** Whether [needle] occurs in [hay]. *)
Fixpoint occurs (needle hay : string) : bool :=
  String.prefix needle hay
  || match hay with
     | EmptyString => false
     | String _ rest => occurs needle rest
     end.

(** [v.includes(needle)]: a substring test on a string, a membership
    test on an array; any other value has no such method, and
    [undefined] and [null] have no properties at all. *)
Definition includes (needle : string) (v : jsval) : result bool :=
  match v with
  | JStr s => Ok (occurs needle s)
  | JArr items =>
      Ok (existsb (fun x => match x with
                            | JStr s => String.eqb s needle
                            | _ => false
                            end) items)
  | JUndefined | JNull =>
      Throw (TypeError "Cannot read properties of undefined (reading 'includes')")
  | _ => Throw (TypeError "includes is not a function")
  end.

(** [v.key]: reading a property of [undefined] or [null] throws. *)
Definition member (key : string) (v : jsval) : result jsval :=
  match v with
  | JUndefined | JNull => Throw (TypeError "Cannot read properties of undefined")
  | _ => Ok (prop key v)
  end.

(** [err.message.includes('ETIMEDOUT') || (err.code !== undefined &&
    err.code.includes('ETIMEDOUT'))] *)
Definition isTimeout (err : jsval) : result bool :=
  message <- member "message" err ;;
  inMessage <- includes "ETIMEDOUT" message ;;
  if inMessage then Ok true
  else
    code <- member "code" err ;;
    match code with
    | JUndefined => Ok false
    | _ => includes "ETIMEDOUT" code
    end.

(** What the [catch] block does with an error: it sleeps and lets the
    loop go on, it throws the error again, or it throws itself. *)
Inductive Handled : Type :=
| Waits (ms : Q) (st : RunState)
| Rethrows
| Crashes (e : exn).

(** [dayjs().diff(lastErrorAt, 'minute') >= 5]: whole minutes, rounded
    towards zero. *)
Definition longAgo (now last : Z) : bool := (5 <=? Z.quot (now - last) 60000)%Z.

(** The [catch] block at time [now], where [random] is the draw of
    [Math.random()].  Waits are exact rationals. *)
Definition onError (now : Z) (random : Q) (err : jsval) (st : RunState) : Handled :=
  let clear := match lastErrorAt st with
               | Some last => longAgo now last
               | None => false
               end in
  let timeoutCount := if clear then 0%nat else timeoutCount st in
  let otherRetryCount := if clear then 0%nat else otherRetryCount st in
  match isTimeout err with
  | Throw e => Crashes e
  | Ok true =>
      let timeoutCount := S timeoutCount in
      if (maxTimeoutCount <? timeoutCount)%nat then Rethrows
      else
        Waits ((inject_Z (2 ^ (Z.of_nat timeoutCount - 1)) + (random - (3 # 10)))
               * 1000)%Q
              {| timeoutCount := timeoutCount; otherRetryCount := otherRetryCount;
                 lastErrorAt := Some now |}
  | Ok false =>
      let otherRetryCount := S otherRetryCount in
      if (otherRetryCount <? maxOtherCount)%nat then Rethrows
      else
        Waits (3 * 1000 * inject_Z (Z.of_nat otherRetryCount))%Q
              {| timeoutCount := timeoutCount; otherRetryCount := otherRetryCount;
                 lastErrorAt := Some now |}
  end.

(** One turn of [while (keepRunning)]: the body ends, or it throws
    [err] at time [caughtAt]. *)
Inductive Turn : Type :=
| Ended
| Failed (caughtAt : Z) (random : Q) (err : jsval).

(** How the loop stands after the turns: still looping, returned, or
    left by an error. *)
Inductive LoopEnd : Type :=
| Looping (st : RunState)
| Returned
| Thrown (err : jsval)
| Crashed (e : exn).

(** [App.runManagers] over the turns the managers give it: the waits it
    made, in order, and how it stands. *)
Fixpoint runManagers (turns : list Turn) (st : RunState) : list Q * LoopEnd :=
  match turns with
  | [] => ([], Looping st)
  | Ended :: _ => ([], Returned)
  | Failed now random err :: rest =>
      match onError now random err st with
      | Waits ms st' =>
          let (waits, stands) := runManagers rest st' in (ms :: waits, stands)
      | Rethrows => ([], Thrown err)
      | Crashes e => ([], Crashed e)
      end
  end.

End App.

(** ** Error predicates (Utils/Errors) *)

Module Errors.
Import Js Exn.
Local Open Scope js_scope.

(** [typeof v === 'object'] *)
Definition isObjectType (v : jsval) : bool :=
  match v with
  | JNull | JArr _ | JObj _ => true
  | _ => false
  end.

(** [isRequestError(err)]: reading [response] of [null] throws. *)
Definition isRequestError (err : jsval) : result bool :=
  if isObjectType err then
    response <- App.member "response" err ;;
    Ok (match response with
        | JUndefined | JNull => false
        | _ => isObjectType response
        end)
  else Ok false.

(** [err.name === name] *)
Definition named (name : string) (err : jsval) : bool :=
  match prop "name" err with
  | JStr s => String.eqb s name
  | _ => false
  end.

(** [isStatusError(err)] *)
Definition isStatusError (err : jsval) : result bool :=
  request <- isRequestError err ;;
  Ok (request && named "StatusCodeError" err).

(** [isRateLimitError(err)] *)
Definition isRateLimitError (err : jsval) : result bool :=
  request <- isRequestError err ;;
  Ok (request && named "RateLimitError" err).

(** [err.response.headers['www-authenticate']] *)
Definition authenticateHeader (err : jsval) : result jsval :=
  response <- App.member "response" err ;;
  headers <- App.member "headers" response ;;
  App.member "www-authenticate" headers.

(** [isScopeError(err)] *)
Definition isScopeError (err : jsval) : result bool :=
  status <- isStatusError err ;;
  if status then
    authHeader <- authenticateHeader err ;;
    match authHeader with
    | JUndefined => Ok false
    | _ => App.includes "insufficient_scope" authHeader
    end
  else Ok false.

(** [getScopeError(err)] *)
Definition getScopeError (err : jsval) : result jsval :=
  scope <- isScopeError err ;;
  if scope then authenticateHeader err else Ok JUndefined.

End Errors.

(** ** The comment action (Action/CommentAction) *)

Module CommentAction.
Import Js Exn.

(** [CommentActionOptions], with [dryRun] of the base class. *)
Record CommentActionOptions : Type := {
  o_content : string;
  o_lock : option bool;
  o_sticky : option bool;
  o_distinguish : option bool;
  o_dryRun : bool
}.

Record CommentAction : Type := {
  content : string;
  lock : bool;
  sticky : bool;
  distinguish : bool;
  dryRun : bool
}.

(** [new CommentAction(options)] *)
Definition newCommentAction (options : CommentActionOptions) : CommentAction :=
  {| content := o_content options;
     lock := default false (o_lock options);
     sticky := default false (o_sticky options);
     distinguish := default false (o_distinguish options);
     dryRun := o_dryRun options |}.

(** What [process] asks of the resources, of the utilities and of the
    platform, with the object each call is made on. *)
Inductive Call : Type :=
| GetContent (val : string) (subreddit : jsval)
| RenderContent (content : string) (item : jsval)
| GenerateFooter (item : jsval)
| Reply (item : jsval) (text : string)
| Lock (target : jsval)
| Distinguish (target : jsval) (sticky : bool).

(** The answers to those calls. *)
Class Platform : Type := {
  getContent : string -> jsval -> result string;
  renderContent : string -> jsval -> list jsval -> result string;
  generateFooter : jsval -> result string;
  reply : jsval -> string -> result jsval;
  lockItem : jsval -> result unit;
  distinguishReply : jsval -> bool -> result unit
}.

(** A computation that records the calls it makes and returns or
    throws. *)
Definition Traced (A : Type) : Type := (list Call * result A)%type.

Definition ret {A : Type} (a : A) : Traced A := ([], Ok a).

Definition call {A : Type} (c : Call) (r : result A) : Traced A := ([c], r).

Definition tbind {A B : Type} (m : Traced A) (k : A -> Traced B) : Traced B :=
  match m with
  | (t, Ok a) => let (t', r) := k a in (t ++ t', r)
  | (t, Throw e) => (t, Throw e)
  end.

(** [if (v)] *)
Definition truthy (v : jsval) : bool :=
  match v with
  | JUndefined | JNull => false
  | JBool b => b
  | JNum n => negb (n =? 0)%Z
  | JStr s => negb (String.eqb s EmptyString)
  | JArr _ | JObj _ => true
  end.

Section WithPlatform.
Context `{Platform}.

(** [CommentAction.process(item, ruleResults)] *)
Definition process (this : CommentAction) (item : jsval) (ruleResults : list jsval)
  : Traced unit :=
  tbind (call (GetContent (content this) (prop "subreddit" item))
              (getContent (content this) (prop "subreddit" item))) (fun content =>
  tbind (call (RenderContent content item)
              (renderContent content item ruleResults)) (fun renderedContent =>
  if truthy (prop "archived" item) then ret tt
  else
    tbind (call (GenerateFooter item) (generateFooter item)) (fun footer =>
    tbind (call (Reply item (renderedContent ++ footer)%string)
                (reply item (renderedContent ++ footer)%string)) (fun theReply =>
    tbind (if lock this
           then if negb (dryRun this)
                then call (Lock item) (lockItem item)
                else ret tt
           else ret tt) (fun _ =>
    if distinguish this && negb (dryRun this)
    then call (Distinguish theReply (sticky this))
              (distinguishReply theReply (sticky this))
    else ret tt))))).

End WithPlatform.

End CommentAction.

(** ** Concrete collaborators and inputs used in the examples *)

Module Demo.
Import Js Exn Hashing.

(** A digest that prints the value: distinct printed forms give distinct
    digests, and key order is not normalized. *)
Fixpoint render (v : jsval) : string :=
  match v with
  | JUndefined => "undefined"
  | JNull => "null"
  | JBool true => "true"
  | JBool false => "false"
  | JNum n => NilZero.string_of_int (Z.to_int n)
  | JStr s => ("'" ++ s ++ "'")%string
  | JArr items =>
      ("[" ++ (fix go (l : list jsval) : string :=
                 match l with
                 | [] => EmptyString
                 | x :: l' => (render x ++ "," ++ go l')%string
                 end) items ++ "]")%string
  | JObj fields =>
      ("{" ++ (fix go (l : list (string * jsval)) : string :=
                 match l with
                 | [] => EmptyString
                 | (k, x) :: l' => (k ++ ":" ++ render x ++ "," ++ go l')%string
                 end) fields ++ "}")%string
  end.

Definition printedHash : ObjectHash := render.

(** Whether [needle] occurs in [hay]. *)
Fixpoint occursIn (needle hay : string) : bool :=
  String.prefix needle hay
  || match hay with
     | EmptyString => false
     | String _ rest => occursIn needle rest
     end.

End Demo.

(** * Properties *)

(** ** Loops that may throw *)

Module ExnFacts.
Import Exn.

Lemma bind_Ok {A B : Type} (a : A) (k : A -> result B) : bind (Ok a) k = k a.
Proof. reflexivity. Qed.

Lemma bind_Throw {A B : Type} (e : exn) (k : A -> result B) :
  bind (Throw e) k = Throw e.
Proof. reflexivity. Qed.

(** A sequence that ends normally went through each of its steps. *)
Lemma bind_Ok_inv {A B : Type} (r : result A) (k : A -> result B) (b : B) :
  bind r k = Ok b -> exists a, r = Ok a /\ k a = Ok b.
Proof. destruct r as [a | e]; simpl; [eauto | discriminate]. Qed.

(** Splits a hypothesis [bind r k = Ok b] into its steps, repeatedly. *)
Ltac bind_steps :=
  repeat match goal with
         | Hb : bind _ _ = Ok _ |- _ =>
             let a := fresh "a" in
             let Ha := fresh "Hstep" in
             apply bind_Ok_inv in Hb; destruct Hb as [a [Ha Hb]]
         | Hb : Ok _ = Ok _ |- _ => injection Hb as <-
         end.

(** A loop over a concatenation runs the first part, then the second
    from the state the first part left; an error in the first part ends
    the loop. *)
Lemma forOf_app {A S : Type} (body : S -> A -> result S) (xs ys : list A) (s : S) :
  forOf body (xs ++ ys) s = bind (forOf body xs s) (forOf body ys).
Proof.
  revert s. induction xs as [| x xs IH]; intros s; simpl.
  - reflexivity.
  - destruct (body s x) as [s' | e]; simpl; [apply IH | reflexivity].
Qed.

(** A property of the loop state that every iteration preserves holds
    when the loop ends normally. *)
Lemma forOf_invariant {A S : Type} (P : S -> Prop) (body : S -> A -> result S)
    (xs : list A) :
  (forall s x s', P s -> body s x = Ok s' -> P s') ->
  forall s s', P s -> forOf body xs s = Ok s' -> P s'.
Proof.
  intros Hstep. induction xs as [| x xs IH]; intros s s' Hs Hrun; simpl in Hrun.
  - congruence.
  - destruct (body s x) as [s1 | e] eqn:Hb; simpl in Hrun; [| discriminate].
    eapply IH; [eapply Hstep; eauto | exact Hrun].
Qed.

End ExnFacts.

(** ** Action premises *)

Module PremiseFacts.
Import Js Exn Hashing RuleEngine Premise.

Section WithHash.
Context `{ObjectHash}.

Lemma authorConfigOf_include (p : ObjectPremise) (inc : list jsval) :
  inc <> [] ->
  prop "include" (p_authorIs p) = JArr inc ->
  authorConfigOf p = Some (JObj [("include", JArr inc)]).
Proof.
  intros Hne Hinc. unfold authorConfigOf.
  destruct (p_authorIs p) as [| | b | n | s | items | fields] eqn:Ha;
    simpl in Hinc; try discriminate.
  simpl. rewrite Hinc. simpl.
  destruct inc as [| x inc']; [congruence | reflexivity].
Qed.

(** C10: when the author filter of an action has a non-empty include
    list, the stored author configuration is exactly that include list,
    without exclude entries or exclude condition, and so is what gets
    hashed; two configurations with the same non-empty include list have
    equal author configuration hashes whatever their exclude lists. *)
Theorem action_premise_author_config_is_include_only
    (d1 d2 : ActionPremiseOptions) (inc : list jsval) :
  inc <> [] ->
  prop "include" (p_authorIs (config d1)) = JArr inc ->
  prop "include" (p_authorIs (config d2)) = JArr inc ->
  authorIsConfig (newActionPremise d1) = Some (JObj [("include", JArr inc)])
  /\ authorIsConfigHash (newActionPremise d1)
     = Some (sha1 (JObj [("include", JArr inc)]))
  /\ authorIsConfigHash (newActionPremise d1)
     = authorIsConfigHash (newActionPremise d2).
Proof.
  intros Hne H1 H2. unfold newActionPremise. simpl.
  rewrite (authorConfigOf_include _ inc Hne H1).
  rewrite (authorConfigOf_include _ inc Hne H2).
  repeat split.
Qed.

End WithHash.

(** Two comment actions whose author filters share the include list and
    differ in the exclude list and exclude condition. *)
Definition modsOnly : jsval := JObj [("isMod", JBool true)].
Definition newAccounts : jsval := JObj [("age", JStr "< 1 day")].
Definition lowKarma : jsval := JObj [("commentKarma", JStr "< 5")].

Definition commentPremise (authorIs : jsval) : ActionPremiseOptions :=
  {| kind := "comment";
     config := {| p_kind := "comment";
                  p_config := JObj [("content", JStr "Please read the rules")];
                  p_authorIs := authorIs;
                  p_itemIs := JUndefined |};
     active := None;
     manager := JObj [("name", JStr "testSub")];
     name := Some "remind" |}.

Definition premiseA : ActionPremiseOptions :=
  commentPremise (JObj [("include", JArr [modsOnly]);
                        ("excludeCondition", JStr "OR");
                        ("exclude", JArr [newAccounts])]).

Definition premiseB : ActionPremiseOptions :=
  commentPremise (JObj [("include", JArr [modsOnly]);
                        ("exclude", JArr [lowKarma])]).

Lemma action_premise_author_config_is_include_only_witness :
  authorIsConfig (newActionPremise (H := Demo.printedHash) premiseA)
    = Some (JObj [("include", JArr [modsOnly])])
  /\ authorIsConfigHash (newActionPremise (H := Demo.printedHash) premiseA)
     = Some (sha1 (ObjectHash := Demo.printedHash) (JObj [("include", JArr [modsOnly])]))
  /\ authorIsConfigHash (newActionPremise (H := Demo.printedHash) premiseA)
     = authorIsConfigHash (newActionPremise (H := Demo.printedHash) premiseB).
Proof.
  apply (action_premise_author_config_is_include_only
           (H := Demo.printedHash) premiseA premiseB [modsOnly]).
  - discriminate.
  - reflexivity.
  - reflexivity.
Defined.

(** With an empty include list the exclude side is what is stored. *)
Example exclude_kept_without_include :
  authorIsConfig (newActionPremise (H := Demo.printedHash)
                    (commentPremise (JObj [("exclude", JArr [lowKarma])])))
  = Some (JObj [("excludeCondition", JUndefined); ("exclude", JArr [lowKarma])]).
Proof. reflexivity. Qed.

End PremiseFacts.

(** ** Author activity memoization *)

Module ResourcesFacts.
Import Js Exn Hashing Resources.

(** A timer that is not yet due leaves its record alone, whichever
    timers get their turn. *)
Lemma runTimers_not_due {V : Type} (ran : list string) (now : Z)
    (store : gmap string (Entry V)) (key : string) (entry : Entry V) :
  store !! key = Some entry ->
  (now < e_timerDue entry)%Z ->
  runTimers ran now store !! key = Some entry.
Proof.
  intros Hkey Hdue. induction ran as [| k ran IH]; [exact Hkey |].
  cbn [runTimers fold_right]. fold (runTimers ran now store).
  destruct (runTimers ran now store !! k) as [other |] eqn:Hk; [| exact IH].
  destruct (e_timerDue other <=? now)%Z eqn:Hother; [| exact IH].
  destruct (decide (k = key)) as [-> | Hne].
  - rewrite IH in Hk. injection Hk as <-. apply Z.leb_le in Hother. lia.
  - rewrite lookup_delete_ne by exact Hne. exact IH.
Qed.

(** The timer of a time to live that [setTimeout] takes as it is comes
    due when the record expires. *)
Lemma timerDelay_in_range (time : Z) :
  (0 < time)%Z -> (time <= TIMEOUT_MAX)%Z -> timerDelay time = time.
Proof.
  intros Hpos Hmax. unfold timerDelay.
  replace (1 <=? time)%Z with true by (symmetry; apply Z.leb_le; lia).
  replace (time <=? TIMEOUT_MAX)%Z with true by (symmetry; apply Z.leb_le; lia).
  reflexivity.
Qed.

(** The timer of one key leaves the records of the other keys alone:
    stores that differ at one key only still do once timers ran. *)
Lemma runTimers_agree {V : Type} (ran : list string) (now : Z)
    (s1 s2 : gmap string (Entry V)) (other : string) :
  (forall k, k <> other -> s1 !! k = s2 !! k) ->
  forall k, k <> other -> runTimers ran now s1 !! k = runTimers ran now s2 !! k.
Proof.
  intros Hsame. induction ran as [| r ran IH]; [exact Hsame |].
  cbn [runTimers fold_right]. fold (runTimers ran now s1). fold (runTimers ran now s2).
  intros k Hk. destruct (decide (r = other)) as [-> | Hr].
  - assert (Hdrop : forall s : gmap string (Entry V),
              match s !! other with
              | Some entry => if (e_timerDue entry <=? now)%Z then delete other s else s
              | None => s
              end !! k = s !! k).
    { intros s0. destruct (s0 !! other) as [entry |]; [| reflexivity].
      destruct (e_timerDue entry <=? now)%Z; [| reflexivity].
      apply lookup_delete_ne. congruence. }
    rewrite !Hdrop. exact (IH k Hk).
  - rewrite (IH r Hr).
    destruct (runTimers ran now s2 !! r) as [entry |]; [| exact (IH k Hk)].
    destruct (e_timerDue entry <=? now)%Z; [| exact (IH k Hk)].
    destruct (decide (r = k)) as [-> | Hrk].
    + rewrite !lookup_delete_eq. reflexivity.
    + rewrite !lookup_delete_ne by exact Hrk. exact (IH k Hk).
Qed.

(** Options that give an instance its own author cache. *)
Definition perSubreddit : SubredditCacheOptions :=
  {| o_enabled := None; o_authorTTL := Some 10000%Z; o_wikiTTL := None |}.

Section WithCollaborators.
Context `{ObjectHash} `{ActivitySource}.

(** The key never depends on the instance that computes it. *)
Lemma authorActivitiesHash_instance_free (this other : SubredditResources)
    (user : jsval) (options : list (string * jsval)) :
  authorActivitiesHash this user options = authorActivitiesHash other user options.
Proof. unfold authorActivitiesHash. destruct (useSubredditAuthorCache this),
  (useSubredditAuthorCache other); reflexivity. Qed.

(** Without caching the listing is fetched live and the store is neither
    read nor written. *)
Lemma getAuthorActivities_disabled (this : SubredditResources) (now : Z)
    (user : jsval) (options : list (string * jsval)) (store : Store) :
  enabled this && (0 <? authorTTL this)%Z = false ->
  getAuthorActivities this now user options store
  = {| returned := fetchAuthorActivities user options;
       storeAfter := store; cacheOps := [] |}.
Proof. intros Hoff. unfold getAuthorActivities. rewrite Hoff. reflexivity. Qed.

(** A miss fetches live and stores the listing under the key. *)
Lemma getAuthorActivities_miss (this : SubredditResources) (now : Z)
    (user : jsval) (options : list (string * jsval)) (store : Store)
    (items : list jsval) :
  enabled this && (0 <? authorTTL this)%Z = true ->
  store !! authorActivitiesHash this user options = None ->
  fetchAuthorActivities user options = Ok items ->
  getAuthorActivities this now user options store
  = {| returned := Ok items;
       storeAfter := cachePut now (authorActivitiesHash this user options)
                       items (authorTTL this) store;
       cacheOps := [CacheGet (authorActivitiesHash this user options);
                    CachePut (authorActivitiesHash this user options)] |}.
Proof.
  intros Hon Hnone Hfetch. unfold getAuthorActivities, cacheGet.
  rewrite Hon, Hnone, Hfetch. reflexivity.
Qed.

(** C8, at two instances with their own author caches for different
    subreddits: both compute the same key for one user and one set of
    options, and the second instance is served the entry the first one
    stored, without a live fetch. *)
Theorem author_cache_entry_shared_between_subreddits
    (user : jsval) (options : list (string * jsval)) (now : Z)
    (items : list jsval) (store : Store) :
  let subA := newSubredditResources manager "subA" perSubreddit in
  let subB := newSubredditResources manager "subB" perSubreddit in
  let stored := cachePut now (authorActivitiesHash subA user options) items
                  (authorTTL subA) store in
  useSubredditAuthorCache subA = true
  /\ useSubredditAuthorCache subB = true
  /\ authorActivitiesHash subA user options = authorActivitiesHash subB user options
  /\ getAuthorActivities subB now user options stored
     = {| returned := Ok items; storeAfter := stored;
          cacheOps := [CacheGet (authorActivitiesHash subB user options)] |}.
Proof.
  intros subA subB stored. repeat split.
  unfold getAuthorActivities, cacheGet. simpl.
  rewrite (authorActivitiesHash_instance_free subB subA).
  unfold stored, cachePut. rewrite lookup_insert_eq. cbn [e_expire e_value].
  replace (now <=? now + authorTTL subA)%Z with true; [reflexivity |].
  symmetry. apply Z.leb_le. simpl. lia.
Qed.

End WithCollaborators.

End ResourcesFacts.

(** ** Named filters *)

Module FilterFacts.
Import Js Exn Config Filters.
Local Open Scope js_scope.

Definition modsCriteria : NamedCriteria :=
  {| nc_name := Some "mods"; nc_criteria := JObj [("isMod", JBool true)] |}.

(** A registry holding one author criteria under the key [mods]. *)
Definition modsRegistry : NamedFilters :=
  {| namedAuthorFilters := {["mods" := modsCriteria]}; namedItemFilters := ∅ |}.

(** *** Composition *)

(** A reference whose lower-cased form is not registered is refused with
    a message that quotes the reference as written. *)
Lemma getNamedOrReturn_unregistered (m : gmap string NamedCriteria)
    (filterName ref : string) :
  m !! toLocaleLowerCase ref = None ->
  getNamedOrReturn m filterName (CritRef ref)
  = Throw (Error (missingMessage filterName ref)).
Proof. intros Hm. unfold getNamedOrReturn. rewrite Hm. reflexivity. Qed.

(** A registered reference is looked up under its spelling as written,
    not under the lower-cased key that was tested. *)
Lemma getNamedOrReturn_registered (m : gmap string NamedCriteria)
    (filterName ref : string) (nc : NamedCriteria) :
  m !! toLocaleLowerCase ref = Some nc ->
  getNamedOrReturn m filterName (CritRef ref) = Ok (m !! ref).
Proof. intros Hm. unfold getNamedOrReturn. rewrite Hm. reflexivity. Qed.

(** Inline criteria come back as they are: named ones unchanged,
    anonymous ones wrapped as nameless criteria. *)
Lemma getNamedOrReturn_inline (m : gmap string NamedCriteria)
    (filterName : string) (nc : NamedCriteria) (c : jsval) :
  getNamedOrReturn m filterName (CritNamed nc) = Ok (Some nc)
  /\ getNamedOrReturn m filterName (CritAnon c)
     = Ok (Some {| nc_name := None; nc_criteria := c |}).
Proof. split; reflexivity. Qed.

(** A reference whose lower-cased form is registered, but which is not
    itself a key of the registry, passes the registration test and is
    replaced by [undefined]. *)
Lemma reference_not_a_key_becomes_undefined (nf : NamedFilters)
    (ref : string) (nc : NamedCriteria) :
  namedAuthorFilters nf !! toLocaleLowerCase ref = Some nc ->
  namedAuthorFilters nf !! ref = None ->
  insertNameFilters nf {| authorIs := Some (FilterArr [CritRef ref]); itemIs := None |}
  = Ok {| s_authorIs := Some (FullArr [None]); s_itemIs := None |}.
Proof.
  intros Hlower Hexact. unfold insertNameFilters, insertField. cbn [authorIs itemIs mapM].
  rewrite (getNamedOrReturn_registered _ "authorIs" ref nc Hlower), Hexact.
  reflexivity.
Qed.

(** The same reference written in lower case is replaced by the
    registered criteria, and an unregistered one is refused by name. *)
Example exact_reference_resolves :
  insertNameFilters modsRegistry
    {| authorIs := Some (FilterArr [CritRef "mods"]); itemIs := None |}
  = Ok {| s_authorIs := Some (FullArr [Some modsCriteria]); s_itemIs := None |}
  /\ insertNameFilters modsRegistry
       {| authorIs := Some (FilterObj (Some [CritRef "admins"]) None []); itemIs := None |}
     = Throw (Error (missingMessage "authorIs" "admins")).
Proof. split; vm_compute; reflexivity. Qed.

(** *** Extraction *)

(** Whether a criteria entry registers a name. *)
Definition registersName (c : MaybeAnonymousOrStringCriteria) : bool :=
  match c with
  | CritNamed nc => match nc_name nc with Some _ => true | None => false end
  | _ => false
  end.

(** The entries of a filter in the order they are parsed. *)
Definition filterItems (f : FilterJson) : list MaybeAnonymousOrStringCriteria :=
  match f with
  | FilterArr items => items
  | FilterObj include exclude _ => default [] include ++ default [] exclude
  end.

(** Every named entry of [items] is bound in [m] under its lower-cased
    name. *)
Definition allRegistered (items : list MaybeAnonymousOrStringCriteria)
    (m : gmap string NamedCriteria) : Prop :=
  forall nc n, In (CritNamed nc) items -> nc_name nc = Some n ->
               is_Some (m !! toLocaleLowerCase n).

(** A name that is bound already is refused whatever criteria come with
    it, also the very criteria it is bound to. *)
Lemma addToNamedFilter_repeated_name (fn name : string)
    (m : gmap string NamedCriteria) (nc existing : NamedCriteria) :
  nc_name nc = Some name ->
  m !! toLocaleLowerCase name = Some existing ->
  addToNamedFilter fn m (CritNamed nc) = Throw (Error (duplicateMessage fn name)).
Proof. intros Hname Hbound. unfold addToNamedFilter. rewrite Hname, Hbound. reflexivity. Qed.

Lemma parseFilterJson_items (fn : string) (f : FilterJson)
    (m : gmap string NamedCriteria) :
  parseFilterJson (addToNamedFilter fn) (Some f) m
  = forOf (addToNamedFilter fn) (filterItems f) m.
Proof.
  destruct f as [items | include exclude others]; simpl; [reflexivity |].
  symmetry. apply ExnFacts.forOf_app.
Qed.

Lemma addToNamedFilter_grows (fn : string) (m m' : gmap string NamedCriteria)
    (c : MaybeAnonymousOrStringCriteria) (k : string) :
  addToNamedFilter fn m c = Ok m' -> is_Some (m !! k) -> is_Some (m' !! k).
Proof.
  unfold addToNamedFilter.
  destruct c as [ref | nc | v]; try (intros [= <-]; tauto).
  destruct (nc_name nc) as [n |]; [| intros [= <-]; tauto].
  destruct (m !! toLocaleLowerCase n) eqn:Hl; [discriminate |].
  intros [= <-] Hk.
  destruct (decide (toLocaleLowerCase n = k)) as [-> | Hne].
  - rewrite lookup_insert_eq. eauto.
  - rewrite lookup_insert_ne; assumption.
Qed.

(** After a pass over [items] that ends normally, all their names are
    registered, and nothing registered before is lost. *)
Lemma forOf_add_registers (fn : string) (items : list MaybeAnonymousOrStringCriteria) :
  forall m m',
    forOf (addToNamedFilter fn) items m = Ok m' ->
    allRegistered items m' /\ (forall k, is_Some (m !! k) -> is_Some (m' !! k)).
Proof.
  induction items as [| c items IH]; intros m m' Hrun; simpl in Hrun.
  - injection Hrun as <-. split; [intros nc n [] | tauto].
  - destruct (addToNamedFilter fn m c) as [m1 |] eqn:Hadd; simpl in Hrun;
      [| discriminate].
    destruct (IH _ _ Hrun) as [Hall Hmono]. split.
    + intros nc n [-> | Hin] Hname; [| eapply Hall; eauto].
      apply Hmono. unfold addToNamedFilter in Hadd. rewrite Hname in Hadd.
      destruct (m !! toLocaleLowerCase n); [discriminate |].
      injection Hadd as <-. rewrite lookup_insert_eq. eauto.
    + intros k Hk. apply Hmono. eapply addToNamedFilter_grows; eauto.
Qed.

(** A pass over [items] whose names are all registered already throws as
    soon as it meets one. *)
Lemma forOf_add_throws (fn : string) (items : list MaybeAnonymousOrStringCriteria) :
  forall m,
    allRegistered items m ->
    existsb registersName items = true ->
    exists e, forOf (addToNamedFilter fn) items m = Throw e.
Proof.
  induction items as [| c items IH]; intros m Hall Hex; simpl in Hex.
  - discriminate.
  - assert (Htail : allRegistered items m).
    { intros nc n Hin. apply Hall. right. exact Hin. }
    simpl. destruct c as [ref | nc | v]; simpl in *; try (apply IH; assumption).
    destruct (nc_name nc) as [n |] eqn:Hname; [| apply IH; assumption].
    destruct (Hall nc n (or_introl eq_refl) Hname) as [old Hold].
    rewrite Hold. simpl. eauto.
Qed.

Lemma parseAuthorIs_items (f : FilterJson) (nf : NamedFilters) :
  parseAuthorIs (Some f) nf
  = bind (forOf (addToNamedFilter "authorIs") (filterItems f) (namedAuthorFilters nf))
         (fun m => Ok {| namedAuthorFilters := m;
                         namedItemFilters := namedItemFilters nf |}).
Proof. unfold parseAuthorIs. rewrite parseFilterJson_items. reflexivity. Qed.

(** C4, where it fails: the document defaults are parsed once before the
    runs and once more at the start of every run, and a name that is
    met again is refused without comparing the criteria; so with a
    named author criteria in the defaults and at least one run,
    extraction always throws. *)
Theorem extractNamedFilters_defaults_parsed_twice
    (config : SubredditConfigHydratedData) (d : RunnableBaseJson) (f : FilterJson)
    (r : RunData) (rs : list RunData) (nf : NamedFilters) :
  filterCriteriaDefaults config = Some d ->
  authorIs d = Some f ->
  existsb registersName (filterItems f) = true ->
  runs config = Some (r :: rs) ->
  exists e, extractNamedFilters config nf = Throw e.
Proof.
  intros Hd Hf Hnamed Hruns. unfold extractNamedFilters.
  rewrite Hd, Hruns.
  change (authorIsOf (Some d)) with (authorIs d).
  change (itemIsOf (Some d)) with (itemIs d).
  rewrite Hf, parseAuthorIs_items.
  destruct (forOf (addToNamedFilter "authorIs") (filterItems f)
              (namedAuthorFilters nf)) as [m1 |] eqn:Hfirst;
    [| rewrite !ExnFacts.bind_Throw; eauto].
  destruct (forOf_add_registers _ _ _ _ Hfirst) as [Hall _].
  rewrite !ExnFacts.bind_Ok.
  destruct (parseItemIs (itemIs d) _) as [nf2 |] eqn:Hitems;
    [| rewrite ExnFacts.bind_Throw; eauto].
  rewrite ExnFacts.bind_Ok.
  assert (Hsame : namedAuthorFilters nf2 = m1).
  { unfold parseItemIs in Hitems.
    destruct (parseFilterJson _ _ _); simpl in Hitems; [| discriminate].
    injection Hitems as <-. reflexivity. }
  change (default [] (Some (r :: rs))) with (r :: rs).
  cbn [forOf]. unfold filtersOfRun.
  change (authorIsOf (Some d)) with (authorIs d).
  rewrite Hf, parseAuthorIs_items, Hsame.
  destruct (forOf_add_throws "authorIs" _ m1 Hall Hnamed) as [e He].
  rewrite He. rewrite !ExnFacts.bind_Throw. eauto.
Qed.

(** *** The keys of the registries *)

Lemma lowerAscii_idempotent (c : ascii) : lowerAscii (lowerAscii c) = lowerAscii c.
Proof. destruct c as [[] [] [] [] [] [] [] []]; reflexivity. Qed.

Lemma toLowerCase_idempotent (s : string) : toLowerCase (toLowerCase s) = toLowerCase s.
Proof.
  induction s as [| c s IH]; simpl; [reflexivity |].
  rewrite lowerAscii_idempotent, IH. reflexivity.
Qed.

(** Every key of the registry is in lower case. *)
Definition lowerKeyed (m : gmap string NamedCriteria) : Prop :=
  forall k v, m !! k = Some v -> toLocaleLowerCase k = k.

Definition lowerKeyedBoth (nf : NamedFilters) : Prop :=
  lowerKeyed (namedAuthorFilters nf) /\ lowerKeyed (namedItemFilters nf).

Lemma addToNamedFilter_lowerKeyed (fn : string) (m m' : gmap string NamedCriteria)
    (c : MaybeAnonymousOrStringCriteria) :
  lowerKeyed m -> addToNamedFilter fn m c = Ok m' -> lowerKeyed m'.
Proof.
  intros Hm. unfold addToNamedFilter.
  destruct c as [ref | nc | v]; try (intros [= <-]; exact Hm).
  destruct (nc_name nc) as [n |]; [| intros [= <-]; exact Hm].
  destruct (m !! toLocaleLowerCase n); [discriminate |].
  intros [= <-] k v. rewrite lookup_insert.
  destruct (decide (toLocaleLowerCase n = k)) as [<- | Hne].
  - intros _. apply toLowerCase_idempotent.
  - apply Hm.
Qed.

Lemma parseFilterJson_lowerKeyed (fn : string) (val : option FilterJson)
    (m m' : gmap string NamedCriteria) :
  lowerKeyed m -> parseFilterJson (addToNamedFilter fn) val m = Ok m' -> lowerKeyed m'.
Proof.
  intros Hm. destruct val as [f |]; [| intros [= <-]; exact Hm].
  rewrite parseFilterJson_items.
  apply (ExnFacts.forOf_invariant lowerKeyed); [| exact Hm].
  intros s x s'. apply addToNamedFilter_lowerKeyed.
Qed.

Lemma parseAuthorIs_lowerKeyed (val : option FilterJson) (nf nf' : NamedFilters) :
  lowerKeyedBoth nf -> parseAuthorIs val nf = Ok nf' -> lowerKeyedBoth nf'.
Proof.
  intros [Ha Hi] Hrun. unfold parseAuthorIs in Hrun. ExnFacts.bind_steps.
  split; [| exact Hi]. exact (parseFilterJson_lowerKeyed _ _ _ _ Ha Hstep).
Qed.

Lemma parseItemIs_lowerKeyed (val : option FilterJson) (nf nf' : NamedFilters) :
  lowerKeyedBoth nf -> parseItemIs val nf = Ok nf' -> lowerKeyedBoth nf'.
Proof.
  intros [Ha Hi] Hrun. unfold parseItemIs in Hrun. ExnFacts.bind_steps.
  split; [exact Ha |]. exact (parseFilterJson_lowerKeyed _ _ _ _ Hi Hstep).
Qed.

(** Both parsers keep the keys in lower case; so does every sequence of
    them. *)
Ltac keep_lower :=
  repeat match goal with
         | Hp : parseAuthorIs _ ?nf = Ok _, Hl : lowerKeyedBoth ?nf |- _ =>
             apply (parseAuthorIs_lowerKeyed _ _ _ Hl) in Hp
         | Hp : parseItemIs _ ?nf = Ok _, Hl : lowerKeyedBoth ?nf |- _ =>
             apply (parseItemIs_lowerKeyed _ _ _ Hl) in Hp
         end.

Lemma filtersOfRule_lowerKeyed (c : CheckData) (nf nf' : NamedFilters) (ru : RuleData) :
  lowerKeyedBoth nf -> filtersOfRule c nf ru = Ok nf' -> lowerKeyedBoth nf'.
Proof.
  intros Hnf. destruct ru as [ref | rule | condition setRules]; simpl.
  - intros [= <-]. exact Hnf.
  - intros Hrun. ExnFacts.bind_steps. keep_lower. assumption.
  - apply (ExnFacts.forOf_invariant lowerKeyedBoth); [| exact Hnf].
    intros s rr s' Hs. destruct rr; try (intros [= <-]; exact Hs);
      intros Hrun; ExnFacts.bind_steps; keep_lower; assumption.
Qed.

Lemma filtersOfAction_lowerKeyed (c : CheckData) (nf nf' : NamedFilters)
    (a : ActionData) :
  lowerKeyedBoth nf -> filtersOfAction c nf a = Ok nf' -> lowerKeyedBoth nf'.
Proof.
  intros Hnf. destruct a as [ref | action]; simpl.
  - intros [= <-]. exact Hnf.
  - intros Hrun. ExnFacts.bind_steps. keep_lower. assumption.
Qed.

Lemma filtersOfCheck_lowerKeyed (nf nf' : NamedFilters) (c : CheckData) :
  lowerKeyedBoth nf -> filtersOfCheck nf c = Ok nf' -> lowerKeyedBoth nf'.
Proof.
  intros Hnf Hrun. unfold filtersOfCheck in Hrun. ExnFacts.bind_steps. keep_lower.
  eapply (ExnFacts.forOf_invariant lowerKeyedBoth); [| | exact Hrun].
  - intros s x s'. apply filtersOfAction_lowerKeyed.
  - eapply (ExnFacts.forOf_invariant lowerKeyedBoth); [| | eassumption].
    + intros s x s'. apply filtersOfRule_lowerKeyed.
    + assumption.
Qed.

Lemma filtersOfRun_lowerKeyed (d : option RunnableBaseJson) (nf nf' : NamedFilters)
    (r : RunData) :
  lowerKeyedBoth nf -> filtersOfRun d nf r = Ok nf' -> lowerKeyedBoth nf'.
Proof.
  intros Hnf Hrun. unfold filtersOfRun in Hrun. ExnFacts.bind_steps. keep_lower.
  eapply (ExnFacts.forOf_invariant lowerKeyedBoth); [| | exact Hrun].
  - intros s x s'. apply filtersOfCheck_lowerKeyed.
  - assumption.
Qed.

(** The registries extracted from a document, starting from empty ones,
    have lower-case keys only. *)
Lemma extractNamedFilters_lowerKeyed (config : SubredditConfigHydratedData)
    (nf : NamedFilters) :
  extractNamedFilters config noFilters = Ok nf -> lowerKeyedBoth nf.
Proof.
  intros Hrun. unfold extractNamedFilters in Hrun. ExnFacts.bind_steps.
  assert (Hstart : lowerKeyedBoth noFilters).
  { split; intros k v; simpl; rewrite lookup_empty; discriminate. }
  keep_lower.
  eapply (ExnFacts.forOf_invariant lowerKeyedBoth); [| | exact Hrun].
  - intros s x s'. apply filtersOfRun_lowerKeyed.
  - assumption.
Qed.

(** A document whose defaults name an author criteria, with one run
    that has no checks. *)
Definition defaultsAndOneRun : SubredditConfigHydratedData :=
  {| filterCriteriaDefaults :=
       Some {| authorIs := Some (FilterArr [CritNamed modsCriteria]);
               itemIs := None |};
     runs := Some [ {| run_name := "Run1";
                       run_filterCriteriaDefaults := None;
                       run_filters := {| authorIs := None; itemIs := None |};
                       run_checks := [] |} ] |}.

(** The same document without runs. *)
Definition defaultsOnly : SubredditConfigHydratedData :=
  {| filterCriteriaDefaults := filterCriteriaDefaults defaultsAndOneRun;
     runs := Some [] |}.

Lemma extractNamedFilters_defaults_parsed_twice_witness :
  exists e, extractNamedFilters defaultsAndOneRun noFilters = Throw e.
Proof.
  apply (extractNamedFilters_defaults_parsed_twice defaultsAndOneRun
           {| authorIs := Some (FilterArr [CritNamed modsCriteria]); itemIs := None |}
           (FilterArr [CritNamed modsCriteria])
           {| run_name := "Run1"; run_filterCriteriaDefaults := None;
              run_filters := {| authorIs := None; itemIs := None |};
              run_checks := [] |}
           [] noFilters); reflexivity.
Defined.

(** The error is the duplicate name error for [mods], although the name
    occurs once in the document; without the run the same defaults are
    registered. *)
Example defaults_with_a_run_raise_duplicate_name :
  extractNamedFilters defaultsAndOneRun noFilters
  = Throw (Error "names for authorIs filters must be unique (case-insensitive). Conflicting name mods")
  /\ extractNamedFilters defaultsOnly noFilters = Ok modsRegistry.
Proof. split; vm_compute; reflexivity. Qed.

(** C5, where it fails: with the registries extracted from a document,
    a reference to a registered author criteria that is written with an
    upper-case letter passes the registration test and is replaced by
    [undefined] instead of the registered criteria. *)
Theorem other_case_reference_becomes_undefined
    (config : SubredditConfigHydratedData) (nf : NamedFilters)
    (ref : string) (nc : NamedCriteria) :
  extractNamedFilters config noFilters = Ok nf ->
  namedAuthorFilters nf !! toLocaleLowerCase ref = Some nc ->
  toLocaleLowerCase ref <> ref ->
  insertNameFilters nf {| authorIs := Some (FilterArr [CritRef ref]); itemIs := None |}
  = Ok {| s_authorIs := Some (FullArr [None]); s_itemIs := None |}.
Proof.
  intros Hextract Hlower Hcase.
  apply (reference_not_a_key_becomes_undefined nf ref nc Hlower).
  destruct (extractNamedFilters_lowerKeyed config nf Hextract) as [Hkeys _].
  destruct (namedAuthorFilters nf !! ref) as [v |] eqn:Hexact; [| reflexivity].
  destruct Hcase. exact (Hkeys ref v Hexact).
Qed.

Lemma other_case_reference_becomes_undefined_witness :
  insertNameFilters modsRegistry
    {| authorIs := Some (FilterArr [CritRef "Mods"]); itemIs := None |}
  = Ok {| s_authorIs := Some (FullArr [None]); s_itemIs := None |}.
Proof.
  apply (other_case_reference_becomes_undefined defaultsOnly modsRegistry
           "Mods" modsCriteria).
  - vm_compute. reflexivity.
  - vm_compute. reflexivity.
  - discriminate.
Defined.

End FilterFacts.

(** ** Named rules *)

Module NamedRulesFacts.
Import Js Exn Config NamedRules.
Local Open Scope js_scope.

Lemma mapGet_mapSet {V : Type} (k k' : string) (v : V) (m : JsMap V) :
  mapGet k (mapSet k' v m) = if String.eqb k' k then Some v else mapGet k m.
Proof.
  induction m as [| [k0 w] m IH]; simpl.
  - reflexivity.
  - destruct (String.eqb k0 k') eqn:E0; simpl.
    + apply String.eqb_eq in E0. subst k0.
      destruct (String.eqb k' k); reflexivity.
    + destruct (String.eqb k0 k) eqn:E1; [| exact IH].
      apply String.eqb_eq in E1. subst k0. rewrite String.eqb_sym, E0.
      reflexivity.
Qed.







Lemma extractNamedRules_one (rule : RuleJson) (name : string) (m : JsMap RuleJson) :
  r_name rule = Some name ->
  extractNamedRules [RuleObj rule] m = registerRule m rule.
Proof.
  intros Hname. unfold extractNamedRules. simpl. rewrite Hname. simpl.
  destruct (registerRule m rule); reflexivity.
Qed.

(** A named rule inside a rule set is put forward for registration just
    as the same rule listed directly. *)
Lemma rulesToAddOf_in_set (condition : option string) (rule : RuleJson)
    (name : string) :
  r_name rule = Some name ->
  rulesToAddOf (RuleSetObj condition [RuleObj rule]) = rulesToAddOf (RuleObj rule).
Proof.
  intros Hname. simpl. rewrite Hname. simpl.
  unfold registerRule, mapHas. rewrite Hname. reflexivity.
Qed.











(** Deep equality does not depend on the order of an object's keys. *)
Example deepEqual_ignores_key_order :
  deepEqual (JObj [("threshold", JStr "> 3"); ("window", JNum 10)])
            (JObj [("window", JNum 10); ("threshold", JStr "> 3")]) = true.
Proof. reflexivity. Qed.

End NamedRulesFacts.

(** ** Hydration *)

Module HydrateFacts.
Import Js Exn Hydrate.
Local Open Scope js_scope.

(** A source that knows one wiki page of rules; every other fetch fails.
    Every schema accepts. *)
Definition wikiRules : jsval :=
  JArr [JObj [("kind", JStr "regex"); ("name", JStr "swear")]].

Definition onePage : ConfigSource :=
  {| parseUrlContext := fun s => String.prefix "url:" s || String.prefix "wiki:" s;
     fetchFragment := fun includes =>
       match prop "path" includes with
       | JStr "wiki:botconfig/rules" => Ok wikiRules
       | _ => Throw (External "Not Found")
       end;
     schemaValid := fun _ _ => true |}.

(** A validator that refuses whatever it is shown. *)
Definition rejectAll : ConfigFragmentValidationFunc :=
  fun _ _ => Throw (Error "schema violation").

Lemma getField_setField (key : string) (v : jsval) (fields : list (string * jsval)) :
  getField key (setField key v fields) = v.
Proof.
  induction fields as [| [k w] fields IH]; simpl.
  - rewrite String.eqb_refl. reflexivity.
  - destruct (String.eqb k key) eqn:E; simpl; rewrite E; [reflexivity | exact IH].
Qed.

Section WithSource.
Context `{ConfigSource}.

(** *** Literal fragments *)

(** A value that is not an includes reference is returned without
    looking at the validator. *)
Lemma hydrateConfigFragment_literal (val : jsval)
    (validateFunc : option ConfigFragmentValidationFunc) :
  detectIncludes val = Ok None ->
  hydrateConfigFragment val validateFunc = Ok (asList val).
Proof. intros Hnone. unfold hydrateConfigFragment. rewrite Hnone. reflexivity. Qed.

Lemma detectIncludes_object (fields : list (string * jsval)) :
  hasField "path" fields = false -> detectIncludes (JObj fields) = Ok None.
Proof. intros Hp. unfold detectIncludes, asIncludesData. rewrite Hp. reflexivity. Qed.

Lemma detectIncludes_array (items : list jsval) :
  detectIncludes (JArr items) = Ok None.
Proof. reflexivity. Qed.

(** The validator is consulted for [val] when some validator changes
    what the call returns; a validator that raises on what it is shown
    does so whenever it is invoked. *)
Definition validatorConsulted (val : jsval) : Prop :=
  exists validate,
    hydrateConfigFragment val (Some validate) <> hydrateConfigFragment val None.

Lemma literal_not_consulted (val : jsval) :
  detectIncludes val = Ok None -> ~ validatorConsulted val.
Proof.
  intros Hnone [validate Hdiff]. apply Hdiff.
  rewrite !hydrateConfigFragment_literal by exact Hnone. reflexivity.
Qed.

(** C6, as the code has it: a value that is no includes reference is
    returned as it is, an array as the list of its elements and anything
    else as a singleton, whatever the validator and whatever the source;
    a reference is fetched, and the fetched data is shown to the
    validator with the fetched flag true before it is returned. *)
Theorem fragment_validated_only_when_fetched (val : jsval)
    (validate : ConfigFragmentValidationFunc) (included : option jsval) :
  detectIncludes val = Ok included ->
  match included with
  | None => hydrateConfigFragment val (Some validate) = Ok (asList val)
  | Some inc =>
      hydrateConfigFragment val (Some validate)
      = (data <- fetchFragment inc ;;
         _ <- validate data true ;;
         Ok (asList data))
  end.
Proof.
  intros Hinc. unfold hydrateConfigFragment, getConfigFragment. rewrite Hinc.
  destruct included as [inc |]; [| reflexivity].
  cbn [bind]. destruct (fetchFragment inc) as [data |]; [| reflexivity].
  cbn [bind]. destruct (validate data true); reflexivity.
Qed.

(** *** The top level of the document *)

Lemma hydrateConfig_both_levels (config : SubredditConfigData) :
  default [] (checks config) <> [] ->
  default [] (runs config) <> [] ->
  hydrateConfig config = Throw (Error bothLevelsMessage).
Proof.
  intros Hc Hr. unfold hydrateConfig.
  destruct (default [] (checks config)); [congruence |].
  destruct (default [] (runs config)); [congruence |].
  reflexivity.
Qed.

(** The run that wraps top-level checks. *)
Definition run1 (cs : list jsval) : jsval :=
  JObj [("name", JStr "Run1"); ("checks", JArr cs)].

Lemma runStep_run1 (cs : list jsval) :
  runStep ([], 1%nat) (run1 cs)
  = bind (forOf (checkStep 1) cs ([], 1%nat))
         (fun st => Ok ([run1 (fst st)], 2%nat)).
Proof.
  unfold runStep, run1.
  rewrite hydrateConfigFragment_literal by reflexivity.
  unfold pushRun.
  cbn [asList rethrow bind forOf fst snd hydrateRun ownProps omitField getField
       String.eqb Ascii.eqb Bool.eqb iter].
  destruct (forOf (checkStep 1) cs ([], 1%nat)) as [st |]; reflexivity.
Qed.

(** C7: for a document with a non-empty top-level checks list,
    hydration fails with the document-shape error whenever the runs
    list is non-empty too, whatever the source would answer.  When there
    are no runs, the checks are walked as the checks of the single run
    named Run1: hydration is the hydration of those checks as the checks
    of run number 1, put into one run named Run1 and validated; it is
    the hydration of the document that lists that run itself; and the
    only run of any hydrated result is Run1 with the hydrated checks. *)
Theorem top_level_checks_conflict_or_become_run1
    (config : SubredditConfigData) (cs : list jsval) :
  checks config = Some cs ->
  cs <> [] ->
  (default [] (runs config) <> [] ->
   hydrateConfig config
   = Throw (Error "Subreddit configuration cannot contain both 'checks' and 'runs' at top-level."))
  /\ (default [] (runs config) = [] ->
      realRuns config = [JObj [("name", JStr "Run1"); ("checks", JArr cs)]]
      /\ hydrateConfig config
         = bind (forOf (checkStep 1) cs ([], 1%nat))
             (fun st =>
                validateJson
                  (JObj (setField "runs"
                           (JArr [JObj [("name", JStr "Run1");
                                        ("checks", JArr (fst st))]])
                           (restConfig config)))
                  AppSchema)
      /\ hydrateConfig config
         = hydrateConfig
             {| runs := Some [JObj [("name", JStr "Run1"); ("checks", JArr cs)]];
                checks := None;
                restConfig := restConfig config |}
      /\ forall out, hydrateConfig config = Ok out ->
           exists hydratedChecks n,
             forOf (checkStep 1) cs ([], 1%nat) = Ok (hydratedChecks, n)
             /\ prop "runs" out
                = JArr [JObj [("name", JStr "Run1"); ("checks", JArr hydratedChecks)]]).
Proof.
  intros Hchecks Hne. split.
  - intros Hruns. apply hydrateConfig_both_levels; [| exact Hruns].
    rewrite Hchecks. exact Hne.
  - intros Hruns.
    assert (Hreal : realRuns config = [run1 cs]).
    { unfold realRuns. rewrite Hruns, Hchecks. simpl.
      destruct cs; [congruence | reflexivity]. }
    assert (Heq : hydrateConfig config
                  = bind (forOf (checkStep 1) cs ([], 1%nat))
                      (fun st =>
                         validateJson
                           (JObj (setField "runs" (JArr [run1 (fst st)])
                                    (restConfig config)))
                           AppSchema)).
    { unfold hydrateConfig. rewrite Hreal, Hruns, Hchecks.
      replace ((0 <? length (default [] (Some cs)))%nat && (0 <? length [])%nat)
        with false by (simpl; destruct (0 <? length cs)%nat; reflexivity).
      cbn [forOf]. rewrite runStep_run1.
      destruct (forOf (checkStep 1) cs ([], 1%nat)) as [st |]; reflexivity. }
    split; [exact Hreal |]. split; [exact Heq |]. split.
    + rewrite Heq. unfold hydrateConfig, realRuns.
      cbn [runs checks restConfig default length Nat.ltb Nat.leb andb].
      change (id [JObj [("name", JStr "Run1"); ("checks", JArr cs)]]) with [run1 cs].
      cbn [forOf]. rewrite runStep_run1.
      destruct (forOf (checkStep 1) cs ([], 1%nat)) as [st |]; reflexivity.
    + intros out. rewrite Heq.
      destruct (forOf (checkStep 1) cs ([], 1%nat)) as [[hydratedChecks n] |];
        [| discriminate].
      cbn [bind fst]. unfold validateJson.
      destruct (schemaValid AppSchema _); [| discriminate].
      intros [= <-]. exists hydratedChecks, n. split; [reflexivity |].
      simpl. apply getField_setField.
Qed.

(** *** Positional errors of rule fragments *)

(** The counter of each loop is one more than the number of elements
    hydrated so far. *)
Definition counts (st : list jsval * nat) : Prop := snd st = S (length (fst st)).

Lemma counts_start : counts ([], 1%nat).
Proof. reflexivity. Qed.

Lemma counts_push (st st' : list jsval * nat) (r : result jsval) :
  counts st ->
  (item <- r ;; Ok (fst st ++ [item], S (snd st))) = Ok st' ->
  counts st'.
Proof.
  intros Hst. destruct r as [item |]; simpl; [| discriminate].
  intros [= <-]. unfold counts in *. simpl. rewrite length_app. simpl. lia.
Qed.

Lemma pushRule_counts (arr : list jsval) :
  forall st st', counts st -> forOf pushRule arr st = Ok st' -> counts st'.
Proof.
  apply ExnFacts.forOf_invariant. intros st x st' Hst. apply counts_push, Hst.
Qed.

Lemma pushCheck_counts (runIndex : nat) (arr : list jsval) :
  forall st st', counts st -> forOf (pushCheck runIndex) arr st = Ok st' -> counts st'.
Proof.
  apply ExnFacts.forOf_invariant. intros st x st' Hst. apply counts_push, Hst.
Qed.

Lemma pushRun_counts (arr : list jsval) :
  forall st st', counts st -> forOf pushRun arr st = Ok st' -> counts st'.
Proof.
  apply ExnFacts.forOf_invariant. intros st x st' Hst. apply counts_push, Hst.
Qed.

Lemma ruleStep_counts (checkIndex : nat) (rules : list jsval) :
  forall st st', counts st -> forOf (ruleStep checkIndex) rules st = Ok st' -> counts st'.
Proof.
  apply ExnFacts.forOf_invariant. intros st r st' Hst. unfold ruleStep.
  destruct (hydrateConfigFragment r None) as [arr |]; simpl; [| discriminate].
  apply pushRule_counts, Hst.
Qed.

Lemma checkStep_counts (runIndex : nat) (cs : list jsval) :
  forall st st', counts st -> forOf (checkStep runIndex) cs st = Ok st' -> counts st'.
Proof.
  apply ExnFacts.forOf_invariant. intros st c st' Hst. unfold checkStep.
  destruct (hydrateConfigFragment c _) as [arr |]; simpl; [| discriminate].
  apply pushCheck_counts, Hst.
Qed.

Lemma runStep_counts (rs : list jsval) :
  forall st st', counts st -> forOf runStep rs st = Ok st' -> counts st'.
Proof.
  apply ExnFacts.forOf_invariant. intros st r st' Hst. unfold runStep.
  destruct (hydrateConfigFragment r _) as [arr |]; simpl; [| discriminate].
  apply pushRun_counts, Hst.
Qed.

(** A rule fragment that cannot be resolved ends the loop over the rules
    with an error that wraps the cause and gives the rule counter and
    the check number. *)
Lemma hydrateRules_fragment_failure (checkIndex ruleNo : nat)
    (preRules postRules hydratedRules : list jsval) (r : jsval) (cause : exn) :
  forOf (ruleStep checkIndex) preRules ([], 1%nat) = Ok (hydratedRules, ruleNo) ->
  hydrateConfigFragment r None = Throw cause ->
  hydrateRules (preRules ++ r :: postRules) checkIndex
  = Throw (CMError (ruleFetchMessage ruleNo checkIndex) cause).
Proof.
  intros Hpre Hfrag. unfold hydrateRules.
  rewrite ExnFacts.forOf_app, Hpre, ExnFacts.bind_Ok.
  cbn [forOf]. unfold ruleStep at 1. rewrite Hfrag. reflexivity.
Qed.

(** An error of the rules of a check object is the error of the
    check. *)
Lemma hydrateCheck_rules_failure (runIndex checkIndex : nat)
    (checkFields : list (string * jsval)) (rules : list jsval) (e : exn) :
  getField "rules" checkFields = JArr rules ->
  hydrateRules rules checkIndex = Throw e ->
  hydrateCheck runIndex checkIndex (JObj checkFields) = Throw e.
Proof.
  intros Hrules Hfail. unfold hydrateCheck.
  cbn [ownProps]. rewrite ExnFacts.bind_Ok. rewrite Hrules.
  cbn [iter]. rewrite ExnFacts.bind_Ok, Hfail. reflexivity.
Qed.

(** An error of a check ends the loop over the checks: the check may be
    one of several that its fragment resolved to, after checks and
    fragments that hydrated. *)
Lemma checkStep_check_failure (runIndex checkNo : nat)
    (preChecks postChecks preVals postVals hydratedChecks : list jsval)
    (fragment checkVal : jsval) (st : list jsval * nat) (e : exn) :
  forOf (checkStep runIndex) preChecks ([], 1%nat) = Ok st ->
  hydrateConfigFragment fragment (Some (fragmentValidator CheckSchema))
    = Ok (preVals ++ checkVal :: postVals) ->
  forOf (pushCheck runIndex) preVals st = Ok (hydratedChecks, checkNo) ->
  hydrateCheck runIndex checkNo checkVal = Throw e ->
  forOf (checkStep runIndex) (preChecks ++ fragment :: postChecks) ([], 1%nat)
  = Throw e.
Proof.
  intros Hpre Hfrag Hvals Hfail.
  rewrite ExnFacts.forOf_app, Hpre, ExnFacts.bind_Ok.
  cbn [forOf]. unfold checkStep at 1. rewrite Hfrag.
  cbn [rethrow bind]. rewrite ExnFacts.forOf_app, Hvals, ExnFacts.bind_Ok.
  cbn [forOf]. unfold pushCheck at 1. cbn [snd]. rewrite Hfail. reflexivity.
Qed.

(** An error of the checks of a run object is the error of the run. *)
Lemma hydrateRun_checks_failure (runIndex : nat)
    (runFields : list (string * jsval)) (cs : list jsval) (e : exn) :
  getField "checks" runFields = JArr cs ->
  forOf (checkStep runIndex) cs ([], 1%nat) = Throw e ->
  hydrateRun runIndex (JObj runFields) = Throw e.
Proof.
  intros Hchecks Hfail. unfold hydrateRun.
  cbn [ownProps]. rewrite ExnFacts.bind_Ok, Hchecks.
  cbn [iter]. rewrite ExnFacts.bind_Ok, Hfail. reflexivity.
Qed.

(** An error of a run ends the hydration of the document. *)
Lemma hydrateConfig_run_failure (config : SubredditConfigData) (runNo : nat)
    (preRuns postRuns preVals postVals hydratedRuns : list jsval)
    (fragment runVal : jsval) (st : list jsval * nat) (e : exn) :
  default [] (checks config) = [] \/ default [] (runs config) = [] ->
  realRuns config = preRuns ++ fragment :: postRuns ->
  forOf runStep preRuns ([], 1%nat) = Ok st ->
  hydrateConfigFragment fragment (Some (fragmentValidator RunSchema))
    = Ok (preVals ++ runVal :: postVals) ->
  forOf pushRun preVals st = Ok (hydratedRuns, runNo) ->
  hydrateRun runNo runVal = Throw e ->
  hydrateConfig config = Throw e.
Proof.
  intros Hshape Hreal Hpre Hfrag Hvals Hfail. unfold hydrateConfig.
  replace ((0 <? length (default [] (checks config)))%nat
           && (0 <? length (default [] (runs config)))%nat) with false
    by (destruct Hshape as [-> | ->]; simpl;
        [reflexivity | rewrite andb_false_r; reflexivity]).
  rewrite Hreal, ExnFacts.forOf_app, Hpre, ExnFacts.bind_Ok.
  cbn [forOf]. unfold runStep at 1. rewrite Hfrag.
  cbn [rethrow bind]. rewrite ExnFacts.forOf_app, Hvals, ExnFacts.bind_Ok.
  cbn [forOf]. unfold pushRun at 1. cbn [snd]. rewrite Hfail. reflexivity.
Qed.

(** Where a rule fragment sits in a document: the fragments and values
    before it at each level hydrate to [hydratedRuns], [hydratedChecks]
    and [hydratedRules], its run and its check are objects, and
    [runNo], [checkNo] and [ruleNo] are the counters the three loops
    have reached when the fragment is met. *)
Inductive RulePosition (config : SubredditConfigData) (r : jsval)
    (hydratedRuns hydratedChecks hydratedRules : list jsval)
    (runNo checkNo ruleNo : nat) : Prop :=
| rule_at
    (preRuns : list jsval) (runFragment : jsval) (postRuns : list jsval)
    (runsBefore : list jsval * nat)
    (preRunVals : list jsval) (runFields : list (string * jsval))
    (postRunVals : list jsval)
    (preChecks : list jsval) (checkFragment : jsval) (postChecks : list jsval)
    (checksBefore : list jsval * nat)
    (preCheckVals : list jsval) (checkFields : list (string * jsval))
    (postCheckVals : list jsval)
    (preRules postRules : list jsval)
    (pos_shape : default [] (checks config) = [] \/ default [] (runs config) = [])
    (pos_runs : realRuns config = preRuns ++ runFragment :: postRuns)
    (pos_runsBefore : forOf runStep preRuns ([], 1%nat) = Ok runsBefore)
    (pos_runFragment :
       hydrateConfigFragment runFragment (Some (fragmentValidator RunSchema))
       = Ok (preRunVals ++ JObj runFields :: postRunVals))
    (pos_runVals : forOf pushRun preRunVals runsBefore = Ok (hydratedRuns, runNo))
    (pos_checks :
       getField "checks" runFields = JArr (preChecks ++ checkFragment :: postChecks))
    (pos_checksBefore :
       forOf (checkStep runNo) preChecks ([], 1%nat) = Ok checksBefore)
    (pos_checkFragment :
       hydrateConfigFragment checkFragment (Some (fragmentValidator CheckSchema))
       = Ok (preCheckVals ++ JObj checkFields :: postCheckVals))
    (pos_checkVals :
       forOf (pushCheck runNo) preCheckVals checksBefore
       = Ok (hydratedChecks, checkNo))
    (pos_rules : getField "rules" checkFields = JArr (preRules ++ r :: postRules))
    (pos_rulesBefore :
       forOf (ruleStep checkNo) preRules ([], 1%nat) = Ok (hydratedRules, ruleNo)).

(** The three counters at a rule's position are its 1-based numbers:
    each is one more than the number of elements hydrated before it at
    its level. *)
Lemma position_numbers (config : SubredditConfigData) (r : jsval)
    (hydratedRuns hydratedChecks hydratedRules : list jsval)
    (runNo checkNo ruleNo : nat) :
  RulePosition config r hydratedRuns hydratedChecks hydratedRules
               runNo checkNo ruleNo ->
  runNo = S (length hydratedRuns)
  /\ checkNo = S (length hydratedChecks)
  /\ ruleNo = S (length hydratedRules).
Proof.
  intros []. repeat split.
  - eapply (pushRun_counts _ _ (_, _)); [| eassumption].
    eapply runStep_counts; [apply counts_start | eassumption].
  - eapply (pushCheck_counts _ _ _ (_, _)); [| eassumption].
    eapply checkStep_counts; [apply counts_start | eassumption].
  - eapply (ruleStep_counts _ _ _ (_, _)); [apply counts_start | eassumption].
Qed.

(** C9, as the code has it: when a fragment listed in the rules of a
    check cannot be fetched or parsed, the whole hydration ends with an
    error that wraps the cause and whose message gives the 1-based
    number of the rule and the 1-based number of the check that
    contains it, each one more than the number of rules and of checks
    hydrated before it; the message does not give the number of the
    run. *)
Theorem rule_fragment_failure_reports_rule_and_check
    (config : SubredditConfigData) (r : jsval)
    (hydratedRuns hydratedChecks hydratedRules : list jsval)
    (runNo checkNo ruleNo : nat) (cause : exn) :
  RulePosition config r hydratedRuns hydratedChecks hydratedRules
               runNo checkNo ruleNo ->
  hydrateConfigFragment r None = Throw cause ->
  hydrateConfig config
  = Throw (CMError ("Rule Config Fragment #" ++ showNat ruleNo ++ " in Check #"
                      ++ showNat checkNo ++ " could not be fetched") cause)
  /\ ruleNo = S (length hydratedRules)
  /\ checkNo = S (length hydratedChecks)
  /\ runNo = S (length hydratedRuns).
Proof.
  intros pos Hfrag.
  destruct (position_numbers _ _ _ _ _ _ _ _ pos) as [Hrun [Hcheck Hrule]].
  split; [| auto].
  destruct pos.
  eapply hydrateConfig_run_failure; eauto.
  eapply hydrateRun_checks_failure; eauto.
  eapply checkStep_check_failure; eauto.
  eapply hydrateCheck_rules_failure; eauto.
  eapply hydrateRules_fragment_failure; eauto.
Qed.

End WithSource.

(** A document with one top-level check, and the same with a run
    beside it. *)
Definition oneCheck : jsval :=
  JObj [("name", JStr "c1"); ("kind", JStr "submission");
        ("rules", JArr [JStr "Repeat1"])].

Definition checksOnly : SubredditConfigData :=
  {| runs := None; checks := Some [oneCheck]; restConfig := [] |}.

Definition checksAndRuns : SubredditConfigData :=
  {| runs := Some [JObj [("name", JStr "mine"); ("checks", JArr [])]];
     checks := Some [oneCheck]; restConfig := [] |}.

(** A second check, whose rules are on the wiki page the source
    knows. *)
Definition wikiCheck : jsval :=
  JObj [("name", JStr "c2"); ("kind", JStr "comment");
        ("rules", JArr [JStr "wiki:botconfig/rules"])].

Definition twoChecksOnly : SubredditConfigData :=
  {| runs := None; checks := Some [oneCheck; wikiCheck];
     restConfig := [("polling", JArr [JStr "newComm"])] |}.

Lemma top_level_checks_conflict_or_become_run1_witness :
  hydrateConfig (H := onePage) checksAndRuns
    = Throw (Error "Subreddit configuration cannot contain both 'checks' and 'runs' at top-level.")
  /\ hydrateConfig (H := onePage) twoChecksOnly
     = Ok (JObj [("polling", JArr [JStr "newComm"]);
                 ("runs",
                  JArr [JObj [("name", JStr "Run1");
                              ("checks",
                               JArr [oneCheck;
                                     JObj [("name", JStr "c2"); ("kind", JStr "comment");
                                           ("rules",
                                            JArr [JObj [("kind", JStr "regex");
                                                        ("name", JStr "swear")]])]])]])]).
Proof.
  split.
  - apply (top_level_checks_conflict_or_become_run1 (H := onePage)
             checksAndRuns [oneCheck]); [reflexivity | discriminate | discriminate].
  - destruct (top_level_checks_conflict_or_become_run1 (H := onePage)
                twoChecksOnly [oneCheck; wikiCheck] eq_refl
                (fun Hnil => eq_ind [oneCheck; wikiCheck]
                               (fun l => match l with [] => False | _ => True end)
                               I [] Hnil))
      as [_ Honly].
    destruct (Honly eq_refl) as (_ & Heq & _).
    rewrite Heq. reflexivity.
Defined.

Example checksOnly_hydrated :
  hydrateConfig (H := onePage) checksOnly
  = Ok (JObj [("runs", JArr [JObj [("name", JStr "Run1");
                                   ("checks", JArr [oneCheck])]])]).
Proof. reflexivity. Qed.


(** An inline rule and an inline list of rules. *)
Definition inlineRule : jsval := JObj [("kind", JStr "regex"); ("name", JStr "swear")].
Definition inlineRules : jsval := JArr [JStr "swear"; JObj [("kind", JStr "repost")]].

(** C6 fails for literals: handed over with a validator that raises on
    every value, the inline rule and the inline list come back, so the
    validator was not invoked on them, and no validator changes what
    the call returns for them. *)
Lemma literal_fragment_validator_not_invoked :
  hydrateConfigFragment (H := onePage) inlineRule (Some rejectAll) = Ok [inlineRule]
  /\ hydrateConfigFragment (H := onePage) inlineRules (Some rejectAll)
     = Ok [JStr "swear"; JObj [("kind", JStr "repost")]]
  /\ ~ validatorConsulted (H := onePage) inlineRule
  /\ ~ validatorConsulted (H := onePage) inlineRules.
Proof.
  repeat split; try reflexivity; apply literal_not_consulted; reflexivity.
Qed.

Lemma fragment_validated_only_when_fetched_witness :
  hydrateConfigFragment (H := onePage) inlineRule (Some rejectAll) = Ok [inlineRule]
  /\ hydrateConfigFragment (H := onePage) (JStr "wiki:botconfig/rules") (Some rejectAll)
     = Throw (Error "schema violation").
Proof.
  split.
  - apply (fragment_validated_only_when_fetched (H := onePage)
             inlineRule rejectAll None). reflexivity.
  - apply (fragment_validated_only_when_fetched (H := onePage)
             (JStr "wiki:botconfig/rules") rejectAll
             (Some (JObj [("path", JStr "wiki:botconfig/rules")]))). reflexivity.
Defined.

(** Without a validator the fetched page is returned as the list of its
    elements. *)
Example fetched_fragment_listed :
  hydrateConfigFragment (H := onePage) (JStr "wiki:botconfig/rules") None
  = Ok [JObj [("kind", JStr "regex"); ("name", JStr "swear")]].
Proof. reflexivity. Qed.

(** The message of an error followed by the messages of its causes. *)
Fixpoint fullMessage (e : exn) : string :=
  match e with
  | CMError m cause => m ++ ": " ++ fullMessage cause
  | _ => message e
  end.

(** What carrying the full position would show in the text of an error:
    the numbers of the rule, of the check and of the run, each after the
    name of its level. *)
Definition carriesPosition (runNo checkNo ruleNo : nat) (e : exn) : Prop :=
  Demo.occursIn ("Rule Config Fragment #" ++ showNat ruleNo) (fullMessage e) = true
  /\ Demo.occursIn ("Check #" ++ showNat checkNo) (fullMessage e) = true
  /\ Demo.occursIn ("Run #" ++ showNat runNo) (fullMessage e) = true.

(** A rule that points to a wiki page the source does not have. *)
Definition missingPage : jsval := JStr "wiki:botconfig/missing".

Definition submissionCheck (name : string) (rules : list jsval) : jsval :=
  JObj [("name", JStr name); ("kind", JStr "submission"); ("rules", JArr rules)].

(** Two runs; the first rule of the first check of the second run
    cannot be fetched. *)
Definition missingRuleInSecondRun : SubredditConfigData :=
  {| runs := Some [JObj [("name", JStr "first"); ("checks", JArr [])];
                   JObj [("name", JStr "second");
                         ("checks", JArr [submissionCheck "c1" [missingPage]])]];
     checks := None;
     restConfig := [] |}.

(** C9 fails for the rule in the second run: hydration ends with the
    error of Rule #1 in Check #1, and neither its message nor that of
    its cause gives the number of the run. *)
Lemma rule_fragment_error_lacks_run_number :
  hydrateConfig (H := onePage) missingRuleInSecondRun
    = Throw (CMError "Rule Config Fragment #1 in Check #1 could not be fetched"
                     (External "Not Found"))
  /\ ~ carriesPosition 2 1 1
        (CMError "Rule Config Fragment #1 in Check #1 could not be fetched"
                 (External "Not Found")).
Proof.
  split; [reflexivity |].
  intros [_ [_ Hrun]]. vm_compute in Hrun. discriminate.
Qed.

(** One run; in its second check the third rule cannot be fetched, after
    a name and an inline rule that hydrate. *)
Definition firstCheckFields : list (string * jsval) :=
  [("name", JStr "c1"); ("kind", JStr "submission"); ("rules", JArr [JStr "Repeat1"])].

Definition secondCheckFields : list (string * jsval) :=
  [("name", JStr "c2"); ("kind", JStr "comment");
   ("rules", JArr [JStr "Repeat1"; inlineRule; missingPage; JStr "Repeat2"])].

Definition onlyRunFields : list (string * jsval) :=
  [("name", JStr "only");
   ("checks", JArr [JObj firstCheckFields; JObj secondCheckFields])].

Definition missingThirdRule : SubredditConfigData :=
  {| runs := Some [JObj onlyRunFields]; checks := None; restConfig := [] |}.

(** Where the third rule sits: first run, second check, third rule. *)
Lemma missingThirdRule_position :
  RulePosition (H := onePage) missingThirdRule missingPage
    [] [JObj firstCheckFields] [JStr "Repeat1"; inlineRule] 1 2 3.
Proof.
  apply (rule_at (H := onePage) missingThirdRule missingPage
           [] [JObj firstCheckFields] [JStr "Repeat1"; inlineRule] 1 2 3
           [] (JObj onlyRunFields) [] ([], 1%nat)
           [] onlyRunFields []
           [JObj firstCheckFields] (JObj secondCheckFields) []
           ([JObj firstCheckFields], 2%nat)
           [] secondCheckFields []
           [JStr "Repeat1"; inlineRule] [JStr "Repeat2"]);
    try reflexivity.
  left. reflexivity.
Defined.

Lemma rule_fragment_failure_reports_rule_and_check_witness :
  hydrateConfig (H := onePage) missingThirdRule
  = Throw (CMError "Rule Config Fragment #3 in Check #2 could not be fetched"
                   (External "Not Found")).
Proof.
  apply (rule_fragment_failure_reports_rule_and_check (H := onePage)
           missingThirdRule missingPage
           [] [JObj firstCheckFields] [JStr "Repeat1"; inlineRule] 1 2 3
           (External "Not Found") missingThirdRule_position).
  reflexivity.
Defined.

End HydrateFacts.

(** ** Rule evaluation *)

Module RuleFacts.
Import Js Exn Hashing RuleEngine.
Local Open Scope traced_scope.

(** Filter checks under which every activity passes, and filter checks
    under which no activity passes the item filter. *)
Definition passing : FilterOutcome :=
  {| passed := true; filterType := None; filterResults := JUndefined |}.

Definition failing : FilterOutcome :=
  {| passed := false; filterType := Some "include"; filterResults := JUndefined |}.

Definition allPass : FilterChecks :=
  {| checkItemFilter := fun _ _ => Ok passing;
     checkAuthorFilter := fun _ _ => Ok passing |}.

Definition itemFails : FilterChecks :=
  {| checkItemFilter := fun _ _ => Ok failing;
     checkAuthorFilter := fun _ _ => Ok passing |}.

(** A regex rule that triggers on every activity; two declarations of it
    differ in their names only. *)
Definition matched : IRuleResult :=
  {| ir_result := Some "matched"; ir_data := None |}.

Definition swearRule (name : string) : RuleOptions :=
  {| name := Some name;
     getKind := "regex";
     getSpecificPremise := JObj [("criteria", JArr [JObj [("regex", JStr "/fr[aeiou]ck/")]])];
     authorIs := JObj [];
     itemIs := JArr [JObj [("removed", JBool false)]];
     process := fun _ => Ok (true, matched) |}.

Definition someComment : jsval :=
  JObj [("id", JStr "t1_abc"); ("body", JStr "oh frick")].

(** The claim that the cache is consulted behind the filter gates, as a
    property of the calls one evaluation makes: whenever the lookup
    occurs, both filter checks occur before it. *)
Definition lookupBehindFilters (trace : list Event) : Prop :=
  forall before after,
    trace = before ++ CacheLookup :: after ->
    In ItemFilter before /\ In AuthorFilter before.

Section WithCollaborators.
Context `{ObjectHash} `{FilterChecks}.

(** The calls an evaluation makes after a missed lookup: the item
    filter; the author filter if the item filter passed; [process] if
    both passed. *)
Definition callsAfterMiss (rule : Rule) (item : jsval) : list Event :=
  ItemFilter ::
  match checkItemFilter item (itemIs (options rule)) with
  | Ok itemCheck =>
      if passed itemCheck then
        AuthorFilter ::
        match checkAuthorFilter item (authorIs (options rule)) with
        | Ok authCheck => if passed authCheck then [Process] else []
        | Throw _ => []
        end
      else []
  | Throw _ => []
  end.

(** A hit returns the stored result as it is, after the lookup alone. *)
Lemma run_hit (rule : Rule) (item : jsval) (existingResults : list RuleResultEntity)
    (stored : RuleResultEntity) :
  findResultByPremise (rulePremiseEntity rule) existingResults = Some stored ->
  run rule item existingResults = ([CacheLookup], Ok (triggered stored, stored)).
Proof. intros Hfind. unfold run, call, tbind. rewrite Hfind. reflexivity. Qed.

Lemma run_miss_trace (rule : Rule) (item : jsval)
    (existingResults : list RuleResultEntity) :
  findResultByPremise (rulePremiseEntity rule) existingResults = None ->
  fst (run rule item existingResults) = CacheLookup :: callsAfterMiss rule item.
Proof.
  intros Hfind. unfold run, callsAfterMiss, call, tbind, ret. rewrite Hfind.
  destruct (checkItemFilter item _) as [itemCheck |]; [| reflexivity].
  destruct (passed itemCheck); [| reflexivity]. cbn [negb].
  destruct (checkAuthorFilter item _) as [authCheck |]; [| reflexivity].
  destruct (passed authCheck); [| reflexivity]. cbn [negb].
  destruct (process (options rule) item); reflexivity.
Qed.

(** After a miss with both filters passed, the result of [process] is
    stored with [fromCache] set to false. *)
Lemma run_processed (rule : Rule) (item : jsval)
    (existingResults : list RuleResultEntity)
    (itemCheck authCheck : FilterOutcome) (t : bool) (plain : IRuleResult) :
  findResultByPremise (rulePremiseEntity rule) existingResults = None ->
  checkItemFilter item (itemIs (options rule)) = Ok itemCheck ->
  passed itemCheck = true ->
  checkAuthorFilter item (authorIs (options rule)) = Ok authCheck ->
  passed authCheck = true ->
  process (options rule) item = Ok (t, plain) ->
  exists res,
    run rule item existingResults
    = ([CacheLookup; ItemFilter; AuthorFilter; Process], Ok (Some t, res))
    /\ premise res = rulePremiseEntity rule
    /\ triggered res = Some t
    /\ fromCache res = Some false.
Proof.
  intros Hfind Hitem Hip Hauth Hap Hproc.
  unfold run, call, tbind, ret.
  rewrite Hfind, Hitem, Hip, Hauth, Hap, Hproc. cbn [negb fst snd app].
  eexists. split; [reflexivity |].
  destruct (nonEmptyArray _), (filterType authCheck); repeat split.
Qed.

(** Rules with one premise have one premise hash, whatever their
    names. *)
Lemma same_premise_same_hash (o1 o2 : RuleOptions) :
  getPremise o1 = getPremise o2 ->
  rp_configHash (rulePremiseEntity (initialize o1))
  = rp_configHash (rulePremiseEntity (initialize o2)).
Proof. intros Heq. simpl. rewrite Heq. reflexivity. Qed.

(** A result stored for the premise hash of a rule is what a later
    lookup for a rule with the same hash finds, when nothing earlier
    matches. *)
Lemma findResultByPremise_appended (p : RulePremise)
    (existingResults : list RuleResultEntity) (stored : RuleResultEntity) :
  findResultByPremise p existingResults = None ->
  rp_configHash (premise stored) = rp_configHash p ->
  findResultByPremise p (existingResults ++ [stored]) = Some stored.
Proof.
  unfold findResultByPremise. intros Hnone Hhash.
  induction existingResults as [| x xs IH]; simpl in *.
  - rewrite Hhash, String.eqb_refl. reflexivity.
  - destruct (String.eqb (rp_configHash (premise x)) (rp_configHash p));
      [discriminate | apply IH; exact Hnone].
Qed.

(** C1, where it fails: two rules with one premise, evaluated one after
    the other against one activity that passes the filters, call
    [process] once, and the second evaluation returns the result of the
    first unchanged, with [fromCache] false as the first evaluation left
    it; nothing marks the second result as served from the cache. *)
Theorem second_rule_served_from_first (o1 o2 : RuleOptions) (item : jsval)
    (existingResults : list RuleResultEntity)
    (itemCheck authCheck : FilterOutcome) (t : bool) (plain : IRuleResult) :
  getPremise o1 = getPremise o2 ->
  findResultByPremise (rulePremiseEntity (initialize o1)) existingResults = None ->
  checkItemFilter item (itemIs o1) = Ok itemCheck ->
  passed itemCheck = true ->
  checkAuthorFilter item (authorIs o1) = Ok authCheck ->
  passed authCheck = true ->
  process o1 item = Ok (t, plain) ->
  exists res,
    runRules [initialize o1; initialize o2] item existingResults
    = ([CacheLookup; ItemFilter; AuthorFilter; Process; CacheLookup],
       Ok [(Some t, res); (Some t, res)])
    /\ fromCache res = Some false.
Proof.
  intros Hprem Hfind Hitem Hip Hauth Hap Hproc.
  destruct (run_processed (initialize o1) item existingResults itemCheck authCheck
              t plain Hfind Hitem Hip Hauth Hap Hproc)
    as [res [Hrun [Hpremise [Htrig Hcache]]]].
  exists res. split; [| exact Hcache].
  cbn [runRules]. rewrite Hrun. cbn [tbind snd].
  rewrite (run_hit (initialize o2) item (existingResults ++ [res]) res).
  - rewrite Htrig. reflexivity.
  - apply findResultByPremise_appended.
    + rewrite <- Hfind. unfold findResultByPremise.
      rewrite (same_premise_same_hash o1 o2 Hprem). reflexivity.
    + rewrite Hpremise. apply same_premise_same_hash. exact Hprem.
Qed.

(** C2, as the code has it: the cache lookup is the first call of every
    evaluation and the only lookup; on a hit the stored result is
    returned and neither filter is checked; on a miss the item filter is
    checked, the author filter only after the item filter passed, and
    [process] is called only after both passed. *)
Theorem cache_lookup_precedes_filter_gates (rule : Rule) (item : jsval)
    (existingResults : list RuleResultEntity) :
  exists rest,
    fst (run rule item existingResults) = CacheLookup :: rest
    /\ ~ In CacheLookup rest
    /\ match findResultByPremise (rulePremiseEntity rule) existingResults with
       | Some stored =>
           run rule item existingResults
           = ([CacheLookup], Ok (triggered stored, stored))
       | None => rest = callsAfterMiss rule item
       end.
Proof.
  destruct (findResultByPremise (rulePremiseEntity rule) existingResults)
    as [stored |] eqn:Hfind.
  - exists []. rewrite (run_hit rule item existingResults stored Hfind).
    repeat split. intros [].
  - exists (callsAfterMiss rule item).
    rewrite (run_miss_trace rule item existingResults Hfind).
    repeat split. unfold callsAfterMiss.
    destruct (checkItemFilter item _) as [ic |]; [destruct (passed ic) |];
      try (destruct (checkAuthorFilter item _) as [ac |]; [destruct (passed ac) |]);
      simpl; intuition discriminate.
Qed.

End WithCollaborators.

Section WithHash.
Context `{ObjectHash}.

(** Two declarations of one regex rule under the names [swearA] and
    [swearB], evaluated in one pass against a comment that passes the
    filters. *)
Example second_evaluation_is_not_marked_cached :
  let first := initialize (swearRule "swearA") in
  let second := initialize (swearRule "swearB") in
  let stored := withProcessed true matched
                  (withItemIs JUndefined (newRuleResultEntity (rulePremiseEntity first))) in
  runRules (H0 := allPass) [first; second] someComment []
  = ([CacheLookup; ItemFilter; AuthorFilter; Process; CacheLookup],
     Ok [(Some true, stored); (Some true, stored)])
  /\ fromCache stored = Some false.
Proof.
  intros first second stored. split; [| reflexivity].
  cbn [runRules]. unfold run at 1. cbn.
  rewrite String.eqb_refl. reflexivity.
Qed.

End WithHash.

Lemma second_rule_served_from_first_witness :
  exists res,
    runRules (H0 := allPass)
      [initialize (H := Demo.printedHash) (swearRule "swearA");
       initialize (H := Demo.printedHash) (swearRule "swearB")] someComment []
    = ([CacheLookup; ItemFilter; AuthorFilter; Process; CacheLookup],
       Ok [(Some true, res); (Some true, res)])
    /\ fromCache res = Some false.
Proof.
  apply (second_rule_served_from_first (H := Demo.printedHash) (H0 := allPass)
           (swearRule "swearA") (swearRule "swearB") someComment []
           passing passing true matched); reflexivity.
Defined.

(** C2 fails where no activity passes the item filter: the lookup is the
    first call of the first evaluation, before any filter check, and the
    second evaluation, of a rule with the same premise, returns the
    stored result of the first without checking either filter. *)
Lemma cached_result_returned_without_filter_checks :
  let first := initialize (H := Demo.printedHash) (swearRule "swearA") in
  let second := initialize (H := Demo.printedHash) (swearRule "swearB") in
  let skipped := withResult "Item did not pass 'itemIs' test"
                   (withItemIs JUndefined (newRuleResultEntity (rulePremiseEntity first))) in
  ~ lookupBehindFilters (fst (run (H0 := itemFails) first someComment []))
  /\ run (H0 := itemFails) first someComment []
     = ([CacheLookup; ItemFilter], Ok (None, skipped))
  /\ run (H0 := itemFails) second someComment [skipped]
     = ([CacheLookup], Ok (None, skipped)).
Proof.
  intros first second skipped. split; [| split].
  - intros Hclaim. destruct (Hclaim [] [ItemFilter] eq_refl) as [[] _].
  - reflexivity.
  - vm_compute. reflexivity.
Qed.

End RuleFacts.

(** * Further properties *)

(** ** Named actions and the resolution of names *)

Module NamedEntitiesFacts.
Import Js Exn Config Filters NamedEntities.
Local Open Scope js_scope.

(** *** Extraction of named actions *)

Lemma mapHas_mapGet {V : Type} (k : string) (m : JsMap V) :
  mapHas k m = match mapGet k m with Some _ => true | None => false end.
Proof. reflexivity. Qed.

(** An entry of the registry is never replaced or removed. *)
Lemma registerAction_keeps (m m' : JsMap ActionJson) (x : ActionData)
    (k : string) (v : ActionJson) :
  registerAction m x = Ok m' -> mapGet k m = Some v -> mapGet k m' = Some v.
Proof.
  unfold registerAction. destruct x as [ref | action]; [intros [= <-]; tauto |].
  destruct (a_name action) as [name |]; [| intros [= <-]; tauto].
  rewrite mapHas_mapGet.
  destruct (mapGet (toLowerCase name) m) as [existing |] eqn:Hget.
  - destruct (negb _); [discriminate | intros [= <-]; tauto].
  - intros [= <-] Hk. rewrite NamedRulesFacts.mapGet_mapSet.
    destruct (String.eqb (toLowerCase name) k) eqn:E; [| exact Hk].
    apply String.eqb_eq in E. congruence.
Qed.

Lemma extractNamedActions_keeps (actions : list ActionData) (k : string)
    (v : ActionJson) :
  forall m m', extractNamedActions actions m = Ok m' ->
               mapGet k m = Some v -> mapGet k m' = Some v.
Proof.
  intros m m' Hrun Hk. revert Hk Hrun.
  apply (ExnFacts.forOf_invariant (fun s => mapGet k s = Some v)).
  intros s x s' Hs Hstep. eapply registerAction_keeps; eauto.
Qed.

(** A named action that was let through is bound under its lower-cased
    name, to itself or to an action that agrees with it apart from the
    name. *)
Lemma registerAction_binds (m m' : JsMap ActionJson) (a : ActionJson) (name : string) :
  a_name a = Some name ->
  registerAction m (ActionObj a) = Ok m' ->
  exists registered,
    mapGet (toLowerCase name) m' = Some registered
    /\ (registered = a \/ deepEqual (actionNoName registered) (actionNoName a) = true).
Proof.
  intros Hname. unfold registerAction. rewrite Hname, mapHas_mapGet.
  destruct (mapGet (toLowerCase name) m) as [existing |] eqn:Hget.
  - destruct (deepEqual (actionNoName existing) (actionNoName a)) eqn:Heq; simpl;
      [| discriminate].
    intros [= <-]. exists existing. auto.
  - intros [= <-]. exists a. rewrite NamedRulesFacts.mapGet_mapSet, String.eqb_refl. auto.
Qed.

Lemma extractNamedActions_binds (actions : list ActionData) (a : ActionJson)
    (name : string) :
  forall m m',
    extractNamedActions actions m = Ok m' ->
    In (ActionObj a) actions ->
    a_name a = Some name ->
    exists registered,
      mapGet (toLowerCase name) m' = Some registered
      /\ (registered = a \/ deepEqual (actionNoName registered) (actionNoName a) = true).
Proof.
  unfold extractNamedActions.
  induction actions as [| x actions IH]; intros m m' Hrun Hin Hname; [destruct Hin |].
  simpl in Hrun. destruct (registerAction m x) as [m1 |] eqn:Hstep; simpl in Hrun;
    [| discriminate].
  destruct Hin as [-> | Hin].
  - destruct (registerAction_binds m m1 a name Hname Hstep) as [r [Hr Hsame]].
    exists r. split; [| exact Hsame].
    exact (extractNamedActions_keeps actions _ r m1 m' Hrun Hr).
  - exact (IH m1 m' Hrun Hin Hname).
Qed.

(** *** Resolution of action names *)

Lemma insertNamedActions_acc (m : JsMap ActionJson) (nf : NamedFilters)
    (actions : list ActionData) :
  forall acc,
    forOf (fun strongActions a =>
             strong <- resolveAction m nf a ;; Ok (strongActions ++ [strong]))
          actions acc
    = (out <- mapM (resolveAction m nf) actions ;; Ok (acc ++ out)).
Proof.
  induction actions as [| a actions IH]; intros acc; simpl.
  - rewrite app_nil_r. reflexivity.
  - destruct (resolveAction m nf a) as [strong |]; simpl; [| reflexivity].
    rewrite IH. destruct (mapM (resolveAction m nf) actions); simpl; [| reflexivity].
    rewrite <- app_assoc. reflexivity.
Qed.

(** Resolution is element by element, in order. *)
Lemma insertNamedActions_mapM (actions : list ActionData) (m : JsMap ActionJson)
    (nf : NamedFilters) :
  insertNamedActions actions m nf = mapM (resolveAction m nf) actions.
Proof.
  unfold insertNamedActions. rewrite insertNamedActions_acc.
  destruct (mapM (resolveAction m nf) actions); reflexivity.
Qed.

Lemma mapM_app {A B : Type} (f : A -> result B) (xs ys : list A) :
  mapM f (xs ++ ys) = (l <- mapM f xs ;; r <- mapM f ys ;; Ok (l ++ r)).
Proof.
  induction xs as [| x xs IH]; simpl.
  - destruct (mapM f ys); reflexivity.
  - destruct (f x) as [y |]; simpl; [| reflexivity].
    rewrite IH. destruct (mapM f xs); simpl; [| reflexivity].
    destruct (mapM f ys); reflexivity.
Qed.

(** X1: after the named actions of a list were extracted, a reference
    to the name of any action of the list, written in any letter case,
    resolves to the registered action, which is that action or agrees
    with it apart from the name; it never ends in the missing name
    error. *)
Theorem declared_action_resolves_in_any_case
    (actions : list ActionData) (m : JsMap ActionJson) (a : ActionJson)
    (name ref : string) (nf : NamedFilters) :
  extractNamedActions actions [] = Ok m ->
  In (ActionObj a) actions ->
  a_name a = Some name ->
  toLowerCase ref = toLowerCase name ->
  exists registered,
    (registered = a \/ deepEqual (actionNoName registered) (actionNoName a) = true)
    /\ insertNamedActions [ActionRef ref] m nf
       = (strong <- strongAction nf registered ;; Ok [strong]).
Proof.
  intros Hextract Hin Hname Hcase.
  destruct (extractNamedActions_binds actions a name [] m Hextract Hin Hname)
    as [registered [Hget Hsame]].
  exists registered. split; [exact Hsame |].
  rewrite insertNamedActions_mapM. cbn [mapM resolveAction].
  rewrite Hcase, Hget.
  destruct (strongAction nf registered); reflexivity.
Qed.

(** X2: the first reference to an action name that is not registered
    ends the resolution with the error that gives the name as it was
    written, whatever follows it. *)
Theorem unregistered_action_reference_is_refused
    (before after : list ActionData) (ref : string) (m : JsMap ActionJson)
    (nf : NamedFilters) (resolved : list ActionConfigObject) :
  insertNamedActions before m nf = Ok resolved ->
  mapGet (toLowerCase ref) m = None ->
  insertNamedActions (before ++ ActionRef ref :: after) m nf
  = Throw (Error ("No named Action with the name " ++ ref ++ " was found")).
Proof.
  intros Hbefore Hmiss. rewrite insertNamedActions_mapM in *.
  rewrite mapM_app, Hbefore. cbn [bind mapM resolveAction]. rewrite Hmiss.
  reflexivity.
Qed.

(** What resolution leaves of one action: the action itself when it was
    given inline, the registered action when it was given by name, with
    name, kind and configuration unchanged. *)
Definition resolvedFrom (m : JsMap ActionJson) (a : ActionData)
    (o : ActionConfigObject) : Prop :=
  exists source,
    match a with
    | ActionObj action => source = action
    | ActionRef ref => mapGet (toLowerCase ref) m = Some source
    end
    /\ ao_name o = a_name source
    /\ ao_kind o = a_kind source
    /\ ao_config o = a_config source.

Lemma resolveAction_resolvedFrom (m : JsMap ActionJson) (nf : NamedFilters)
    (a : ActionData) (o : ActionConfigObject) :
  resolveAction m nf a = Ok o -> resolvedFrom m a o.
Proof.
  unfold resolveAction, resolvedFrom.
  destruct a as [ref | action].
  - destruct (mapGet (toLowerCase ref) m) as [found |]; [| discriminate].
    unfold strongAction. intros Hrun. ExnFacts.bind_steps.
    exists found. repeat split.
  - unfold strongAction. intros Hrun. ExnFacts.bind_steps.
    exists action. repeat split.
Qed.

(** X3: a resolution that goes through yields one action per element
    of the list, in order, each with the name, kind and configuration
    of the inline action or of the registered action it names; only the
    filter fields are rewritten. *)
Theorem insertNamedActions_elementwise
    (actions : list ActionData) (m : JsMap ActionJson) (nf : NamedFilters)
    (out : list ActionConfigObject) :
  insertNamedActions actions m nf = Ok out ->
  Forall2 (resolvedFrom m) actions out.
Proof.
  rewrite insertNamedActions_mapM. revert out.
  induction actions as [| a actions IH]; intros out Hrun; simpl in Hrun.
  - injection Hrun as <-. constructor.
  - ExnFacts.bind_steps. constructor.
    + apply (resolveAction_resolvedFrom m nf). assumption.
    + apply IH. assumption.
Qed.

(** Two comment actions of one name in different letter case and with
    one configuration, and a reference to them. *)
Definition remind (name : string) : ActionJson :=
  {| a_name := Some name; a_kind := "comment";
     a_filters := {| authorIs := None; itemIs := None |};
     a_config := [("content", JStr "Please read the rules")] |}.

Lemma declared_action_resolves_in_any_case_witness :
  exists registered,
    (registered = remind "Remind"
     \/ deepEqual (actionNoName registered) (actionNoName (remind "Remind")) = true)
    /\ insertNamedActions [ActionRef "REMIND"] [("remind", remind "remind")] noFilters
       = (strong <- strongAction noFilters registered ;; Ok [strong]).
Proof.
  apply (declared_action_resolves_in_any_case
           [ActionObj (remind "remind"); ActionRef "other"; ActionObj (remind "Remind")]
           [("remind", remind "remind")] (remind "Remind") "Remind" "REMIND" noFilters).
  - reflexivity.
  - right. right. left. reflexivity.
  - reflexivity.
  - reflexivity.
Defined.

Lemma unregistered_action_reference_is_refused_witness :
  insertNamedActions ([ActionObj (remind "remind")] ++ ActionRef "Ban" :: [ActionRef "x"])
    [("remind", remind "remind")] noFilters
  = Throw (Error "No named Action with the name Ban was found").
Proof.
  apply (unregistered_action_reference_is_refused
           [ActionObj (remind "remind")] [ActionRef "x"] "Ban"
           [("remind", remind "remind")] noFilters
           [{| ao_name := Some "remind"; ao_kind := "comment";
               ao_filters := {| s_authorIs := None; s_itemIs := None |};
               ao_config := [("content", JStr "Please read the rules")] |}]);
    reflexivity.
Defined.

Lemma insertNamedActions_elementwise_witness :
  Forall2 (resolvedFrom [("remind", remind "remind")])
    [ActionRef "Remind"; ActionObj (remind "again")]
    [{| ao_name := Some "remind"; ao_kind := "comment";
        ao_filters := {| s_authorIs := None; s_itemIs := None |};
        ao_config := [("content", JStr "Please read the rules")] |};
     {| ao_name := Some "again"; ao_kind := "comment";
        ao_filters := {| s_authorIs := None; s_itemIs := None |};
        ao_config := [("content", JStr "Please read the rules")] |}].
Proof.
  apply (insertNamedActions_elementwise
           [ActionRef "Remind"; ActionObj (remind "again")]
           [("remind", remind "remind")] noFilters).
  reflexivity.
Defined.

End NamedEntitiesFacts.

(** ** The resolution of rule names *)

Module RuleResolutionFacts.
Import Js Exn Config Filters NamedEntities.
Local Open Scope js_scope.

(** Induction over rules that reaches the rules inside rule sets. *)
Section NestedInduction.
Variable P : RuleData -> Prop.
Hypothesis Href : forall ref, P (RuleRef ref).
Hypothesis Hobj : forall rule, P (RuleObj rule).
Hypothesis Hset : forall condition rules, Forall P rules -> P (RuleSetObj condition rules).

Fixpoint RuleData_nested_ind (r : RuleData) : P r :=
  match r with
  | RuleRef ref => Href ref
  | RuleObj rule => Hobj rule
  | RuleSetObj condition rules =>
      Hset condition rules
        ((fix all (l : list RuleData) : Forall P l :=
            match l with
            | [] => @List.Forall_nil _ P
            | x :: l' => @List.Forall_cons _ P x l' (RuleData_nested_ind x) (all l')
            end) rules)
  end.
End NestedInduction.

(** What composition leaves of a rule: its name and kind, and its
    configuration unless the kind is [author]. *)
Definition keeps (r : RuleJson) (rule : RuleConfigObject) : Prop :=
  ro_name rule = r_name r
  /\ ro_kind rule = r_kind r
  /\ (String.eqb (r_kind r) "author" = false -> ro_config rule = r_config r).

(** What resolution leaves of a rule: a name becomes the registered rule
    it names, an inline rule stays a rule, and a rule set stays a rule
    set with the same condition whose rules are resolved one by one. *)
Inductive resolvedAs (m : JsMap RuleJson) : RuleData -> StrongRuleData -> Prop :=
| resolved_ref (ref : string) (found : RuleJson) (rule : RuleConfigObject) :
    mapGet (toLowerCase ref) m = Some found ->
    keeps found rule ->
    resolvedAs m (RuleRef ref) (StrongRule rule)
| resolved_rule (r : RuleJson) (rule : RuleConfigObject) :
    keeps r rule ->
    resolvedAs m (RuleObj r) (StrongRule rule)
| resolved_set (condition : option string) (rules : list RuleData)
    (strong : list StrongRuleData) :
    Forall2 (resolvedAs m) rules strong ->
    resolvedAs m (RuleSetObj condition rules) (StrongSet condition strong).

Section WithBuilder.
Context `{FilterBuilder}.

Lemma strongRule_keeps (nf : NamedFilters) (r : RuleJson) (rule : RuleConfigObject) :
  strongRule nf r = Ok rule -> keeps r rule.
Proof.
  unfold strongRule. intros Hrun. ExnFacts.bind_steps.
  destruct (String.eqb (r_kind r) "author") eqn:Hkind.
  - ExnFacts.bind_steps.
    split; [reflexivity | split; [reflexivity | intros Hother; congruence]].
  - ExnFacts.bind_steps.
    split; [reflexivity | split; [reflexivity | intros _; reflexivity]].
Qed.

Lemma insertLoop_Forall2 (m : JsMap RuleJson) (nf : NamedFilters)
    (rules : list RuleData) :
  Forall (fun r => forall o, resolveRule m nf r = Ok o -> resolvedAs m r o) rules ->
  forall out,
    insertLoop (resolveRule m nf) rules = Ok out -> Forall2 (resolvedAs m) rules out.
Proof.
  induction 1 as [| r rules Hr _ IH]; intros out Hrun; simpl in Hrun.
  - injection Hrun as <-. constructor.
  - ExnFacts.bind_steps. constructor; [apply Hr | apply IH]; assumption.
Qed.

Lemma resolveRule_resolvedAs (m : JsMap RuleJson) (nf : NamedFilters) (r : RuleData) :
  forall o, resolveRule m nf r = Ok o -> resolvedAs m r o.
Proof.
  induction r as [ref | rule | condition rules IH] using RuleData_nested_ind;
    intros o Hrun; simpl in Hrun.
  - destruct (mapGet (toLowerCase ref) m) as [found |] eqn:Hget; [| discriminate].
    ExnFacts.bind_steps. eapply resolved_ref; [exact Hget |].
    eapply strongRule_keeps; eassumption.
  - ExnFacts.bind_steps. apply resolved_rule. eapply strongRule_keeps; eassumption.
  - ExnFacts.bind_steps. apply resolved_set.
    apply (insertLoop_Forall2 m nf rules IH). assumption.
Qed.

(** X4: a resolution of rules that goes through keeps the shape of the
    list: one element per element in order, a rule set stays a rule set
    with its condition and its rules resolved in the same way, every
    name is replaced by the rule registered under its lower-cased form,
    and name and kind of every rule, and the configuration of every
    rule that is not of kind author, are unchanged. *)
Theorem insertNamedRules_keeps_shape (rules : list RuleData) (m : JsMap RuleJson)
    (nf : NamedFilters) (out : list StrongRuleData) :
  insertNamedRules rules m nf = Ok out ->
  Forall2 (resolvedAs m) rules out.
Proof.
  apply insertLoop_Forall2. apply Forall_forall. intros r _.
  apply resolveRule_resolvedAs.
Qed.

(** The first element that cannot be resolved ends the loop with its
    error. *)
Lemma insertLoop_first_failure (resolve : RuleData -> result StrongRuleData)
    (before after : list RuleData) (r : RuleData) (resolved : list StrongRuleData)
    (e : exn) :
  insertLoop resolve before = Ok resolved ->
  resolve r = Throw e ->
  insertLoop resolve (before ++ r :: after) = Throw e.
Proof.
  revert resolved. induction before as [| x before IH]; intros resolved Hbefore Hfail.
  - simpl. rewrite Hfail. reflexivity.
  - simpl in *. destruct (resolve x) as [sx |]; simpl in *; [| discriminate].
    destruct (insertLoop resolve before) as [sb |] eqn:Hb; simpl in *; [| discriminate].
    rewrite (IH sb eq_refl Hfail). reflexivity.
Qed.

(** X5: a name inside a rule set that is not registered ends the whole
    resolution with the error that gives the name as written, when the
    rules before the set and the rules before the name in the set
    resolve. *)
Theorem unregistered_rule_in_set_is_refused
    (before after inBefore inAfter : list RuleData) (condition : option string)
    (ref : string) (m : JsMap RuleJson) (nf : NamedFilters)
    (resolved inResolved : list StrongRuleData) :
  insertNamedRules before m nf = Ok resolved ->
  insertNamedRules inBefore m nf = Ok inResolved ->
  mapGet (toLowerCase ref) m = None ->
  insertNamedRules
    (before ++ RuleSetObj condition (inBefore ++ RuleRef ref :: inAfter) :: after) m nf
  = Throw (Error ("No named Rule with the name " ++ ref ++ " was found")).
Proof.
  intros Hbefore Hin Hmiss. unfold insertNamedRules in *.
  apply (insertLoop_first_failure _ before after _ resolved); [exact Hbefore |].
  cbn [resolveRule].
  rewrite (insertLoop_first_failure _ inBefore inAfter (RuleRef ref) inResolved
             (Error (missingRuleMessage ref)) Hin).
  - reflexivity.
  - simpl. rewrite Hmiss. reflexivity.
Qed.

End WithBuilder.

(** A builder that hands back the composed lists as their number of
    entries. *)
Definition countingBuilder : FilterBuilder :=
  fun f =>
    match f with
    | Some (FullObj include exclude) =>
        (JNum (Z.of_nat (length (default [] include))),
         JNum (Z.of_nat (length (default [] exclude))))
    | _ => (JUndefined, JUndefined)
    end.

Definition regexRule (name : string) : RuleJson :=
  {| r_name := Some name; r_kind := "regex";
     r_filters := {| authorIs := None; itemIs := None |};
     r_config := [("criteria", JArr [JObj [("regex", JStr "/spam/")]])] |}.

Definition strongRegex (name : string) : StrongRuleData :=
  StrongRule {| ro_name := Some name; ro_kind := "regex";
                ro_filters := {| s_authorIs := None; s_itemIs := None |};
                ro_config := [("criteria", JArr [JObj [("regex", JStr "/spam/")]])] |}.

Lemma insertNamedRules_keeps_shape_witness :
  Forall2 (resolvedAs [("spam", regexRule "Spam")])
    [RuleRef "SPAM"; RuleSetObj (Some "OR") [RuleObj (regexRule "inline"); RuleRef "spam"]]
    [strongRegex "Spam";
     StrongSet (Some "OR") [strongRegex "inline"; strongRegex "Spam"]].
Proof.
  apply (insertNamedRules_keeps_shape (H := countingBuilder)
           [RuleRef "SPAM";
            RuleSetObj (Some "OR") [RuleObj (regexRule "inline"); RuleRef "spam"]]
           [("spam", regexRule "Spam")] noFilters).
  reflexivity.
Defined.

Lemma unregistered_rule_in_set_is_refused_witness :
  insertNamedRules (H := countingBuilder)
    ([RuleObj (regexRule "first")]
       ++ RuleSetObj None ([RuleRef "spam"] ++ RuleRef "Repeat1" :: []) :: [])
    [("spam", regexRule "Spam")] noFilters
  = Throw (Error "No named Rule with the name Repeat1 was found").
Proof.
  apply (unregistered_rule_in_set_is_refused (H := countingBuilder)
           [RuleObj (regexRule "first")] [] [RuleRef "spam"] [] None "Repeat1"
           [("spam", regexRule "Spam")] noFilters
           [strongRegex "first"] [strongRegex "Spam"]); reflexivity.
Defined.

(** The example of a check whose only rule is an undefined name. *)
Example undefined_rule_name :
  insertNamedRules (H := countingBuilder) [RuleRef "Repeat1"] [] noFilters
  = Throw (Error "No named Rule with the name Repeat1 was found").
Proof. reflexivity. Qed.

End RuleResolutionFacts.

(** ** Lists from environment variables *)

Module EnvListFacts.
Import Js EnvList.

(** *** Pieces of a split *)

Lemma split_not_nil (c : ascii) (s : string) : split c s <> [].
Proof.
  destruct s as [| d rest]; simpl; [discriminate |].
  destruct (Ascii.eqb d c); [discriminate |].
  destruct (split c rest); discriminate.
Qed.

Lemma split_pieces_free (c : ascii) (s : string) :
  Forall (fun x => includesChar c x = false) (split c s).
Proof.
  induction s as [| d rest IH]; simpl.
  - repeat constructor.
  - destruct (Ascii.eqb d c) eqn:E.
    + constructor; [reflexivity | exact IH].
    + destruct (split c rest) as [| piece pieces].
      * repeat constructor. simpl. rewrite E. reflexivity.
      * inversion IH as [| ? ? Hpiece Hpieces]; subst.
        constructor; [| exact Hpieces]. simpl. rewrite E, Hpiece. reflexivity.
Qed.

Lemma split_free (c : ascii) (x : string) :
  includesChar c x = false -> split c x = [x].
Proof.
  induction x as [| d rest IH]; simpl; [reflexivity |].
  destruct (Ascii.eqb d c); simpl; [discriminate |].
  intros Hrest. rewrite (IH Hrest). reflexivity.
Qed.

Lemma split_piece_then (c : ascii) (x rest : string) :
  includesChar c x = false ->
  split c (x ++ String c rest) = x :: split c rest.
Proof.
  induction x as [| d x IH]; simpl.
  - rewrite Ascii.eqb_refl. reflexivity.
  - destruct (Ascii.eqb d c); simpl; [discriminate |].
    intros Hx. rewrite (IH Hx). reflexivity.
Qed.

Lemma includesChar_app (c : ascii) (a b : string) :
  includesChar c (a ++ b) = includesChar c a || includesChar c b.
Proof.
  induction a as [| d a IH]; simpl; [reflexivity |].
  rewrite IH. apply orb_assoc.
Qed.

(** *** Trimming *)

(** A byte of the ASCII range: it is a character of its own and never a
    byte of a longer one. *)
Definition low (d : ascii) : Prop := (nat_of_ascii d < 128)%nat.

(** The string without its first [n] bytes. *)
Fixpoint skip (n : nat) (s : string) : string :=
  match n, s with
  | O, _ => s
  | S _, EmptyString => EmptyString
  | S n', String _ rest => skip n' rest
  end.

Lemma eqb_low (d : ascii) (k : nat) :
  low d -> (128 <= k)%nat -> (nat_of_ascii d =? k)%nat = false.
Proof. unfold low. intros Hd Hk. apply Nat.eqb_neq. lia. Qed.

Lemma twoByteSpace_low_first (d c : ascii) : low d -> twoByteSpace d c = false.
Proof. intros Hd. unfold twoByteSpace. rewrite (eqb_low d 194 Hd) by lia. reflexivity. Qed.

Lemma twoByteSpace_low_second (c d : ascii) : low d -> twoByteSpace c d = false.
Proof.
  intros Hd. unfold twoByteSpace. rewrite (eqb_low d 160 Hd) by lia.
  apply andb_false_r.
Qed.

Lemma threeByteSpace_low_first (d c2 c3 : ascii) : low d -> threeByteSpace d c2 c3 = false.
Proof.
  intros Hd. unfold threeByteSpace. cbv zeta.
  rewrite (eqb_low d 225 Hd), (eqb_low d 226 Hd), (eqb_low d 227 Hd),
    (eqb_low d 239 Hd) by lia.
  reflexivity.
Qed.

Lemma threeByteSpace_low_second (c1 d c3 : ascii) : low d -> threeByteSpace c1 d c3 = false.
Proof.
  intros Hd. unfold threeByteSpace. cbv zeta.
  rewrite (eqb_low d 154 Hd), (eqb_low d 128 Hd), (eqb_low d 129 Hd),
    (eqb_low d 187 Hd) by lia.
  rewrite ?andb_false_r. reflexivity.
Qed.

Lemma threeByteSpace_low_third (c1 c2 d : ascii) : low d -> threeByteSpace c1 c2 d = false.
Proof.
  intros Hd. unfold threeByteSpace. cbv zeta.
  rewrite (eqb_low d 128 Hd), (eqb_low d 168 Hd), (eqb_low d 169 Hd),
    (eqb_low d 175 Hd), (eqb_low d 159 Hd), (eqb_low d 191 Hd) by lia.
  replace (128 <=? nat_of_ascii d)%nat with false
    by (symmetry; apply Nat.leb_gt; exact Hd).
  rewrite ?andb_false_r. reflexivity.
Qed.

Lemma append_cons (c : ascii) (a b : string) :
  String.append (String c a) b = String c (String.append a b).
Proof. reflexivity. Qed.

Lemma append_nil (b : string) : String.append EmptyString b = b.
Proof. reflexivity. Qed.

(** The white space a string starts with is that of every string it
    starts. *)
Lemma spaceWidth_app (p q : string) :
  spaceWidth p <> 0%nat -> spaceWidth (p ++ q) = spaceWidth p.
Proof.
  destruct p as [| c1 [| c2 [| c3 r]]]; rewrite ?append_cons, ?append_nil;
    cbn [spaceWidth]; try congruence.
  - destruct (oneByteSpace c1); [| congruence]. reflexivity.
  - destruct (oneByteSpace c1); [reflexivity |].
    destruct (twoByteSpace c1 c2); [| congruence]. reflexivity.
Qed.

Lemma skip_app (p q : string) :
  spaceWidth p <> 0%nat -> skip (spaceWidth p) (p ++ q) = (skip (spaceWidth p) p ++ q)%string.
Proof.
  destruct p as [| c1 [| c2 [| c3 r]]]; rewrite ?append_cons, ?append_nil;
    cbn [spaceWidth]; try congruence.
  - destruct (oneByteSpace c1); [| congruence]. reflexivity.
  - destruct (oneByteSpace c1); [reflexivity |].
    destruct (twoByteSpace c1 c2); [| congruence]. reflexivity.
  - destruct (oneByteSpace c1); [reflexivity |].
    destruct (twoByteSpace c1 c2); [reflexivity |].
    destruct (threeByteSpace c1 c2 c3); [| congruence]. reflexivity.
Qed.

Lemma skip_shorter (s : string) :
  spaceWidth s <> 0%nat ->
  (String.length (skip (spaceWidth s) s) < String.length s)%nat.
Proof.
  destruct s as [| c1 [| c2 [| c3 r]]]; cbn [spaceWidth]; try congruence.
  - destruct (oneByteSpace c1); [| congruence]. simpl. lia.
  - destruct (oneByteSpace c1); [simpl; lia |].
    destruct (twoByteSpace c1 c2); [| congruence]. simpl. lia.
  - destruct (oneByteSpace c1); [simpl; lia |].
    destruct (twoByteSpace c1 c2); [simpl; lia |].
    destruct (threeByteSpace c1 c2 c3); [| congruence]. simpl. lia.
Qed.

Lemma skip_suffix (n : nat) (s : string) : exists p, s = (p ++ skip n s)%string.
Proof.
  revert s. induction n as [| n IH]; intros s; [exists EmptyString; reflexivity |].
  destruct s as [| c rest]; [exists EmptyString; reflexivity |].
  destruct (IH rest) as [p Hp]. exists (String c p).
  cbn [skip]. rewrite append_cons, <- Hp. reflexivity.
Qed.

(** [trimStart] drops the white space character the string starts with
    and goes on, or stops where there is none. *)
Lemma trimStart_unfold (s : string) :
  trimStart s = match spaceWidth s with
                | O => s
                | w => trimStart (skip w s)
                end.
Proof.
  destruct s as [| c1 [| c2 [| c3 r]]]; cbn [spaceWidth trimStart skip];
    try reflexivity.
  - destruct (oneByteSpace c1); reflexivity.
  - destruct (oneByteSpace c1); [reflexivity |].
    destruct (twoByteSpace c1 c2); reflexivity.
  - destruct (oneByteSpace c1); [reflexivity |].
    destruct (twoByteSpace c1 c2); [reflexivity |].
    destruct (threeByteSpace c1 c2 c3); reflexivity.
Qed.

(** Induction along the white space characters a string starts with. *)
Lemma leading_space_ind (P : string -> Prop) :
  (forall s, spaceWidth s = 0%nat -> P s) ->
  (forall s, spaceWidth s <> 0%nat -> P (skip (spaceWidth s) s) -> P s) ->
  forall s, P s.
Proof.
  intros Hstop Hgo s.
  assert (Hall : forall n t, (String.length t <= n)%nat -> P t).
  { induction n as [| n IH]; intros t Hlen.
    - apply Hstop. destruct t; [reflexivity | simpl in Hlen; lia].
    - destruct (Nat.eq_dec (spaceWidth t) 0) as [Hz | Hnz]; [apply Hstop, Hz |].
      apply (Hgo t Hnz), IH. pose proof (skip_shorter t Hnz). lia. }
  apply (Hall (String.length s)). lia.
Qed.

Lemma trimStart_stop (s : string) : spaceWidth s = 0%nat -> trimStart s = s.
Proof. intros Hz. rewrite trimStart_unfold, Hz. reflexivity. Qed.

Lemma trimStart_go (s : string) :
  spaceWidth s <> 0%nat -> trimStart s = trimStart (skip (spaceWidth s) s).
Proof.
  intros Hnz. rewrite trimStart_unfold at 1.
  destruct (spaceWidth s); [congruence | reflexivity].
Qed.

(** The string is empty or starts with a character that is no white
    space. *)
Definition headClear (s : string) : Prop := spaceWidth s = 0%nat.

Lemma trimStart_headClear (s : string) : headClear (trimStart s).
Proof.
  unfold headClear. induction s as [s Hz | s Hnz IH] using leading_space_ind.
  - rewrite (trimStart_stop s Hz). exact Hz.
  - rewrite (trimStart_go s Hnz). exact IH.
Qed.

Lemma trimStart_fixed (s : string) : headClear s -> trimStart s = s.
Proof. apply trimStart_stop. Qed.

Lemma trimStart_suffix (s : string) : exists p, s = (p ++ trimStart s)%string.
Proof.
  induction s as [s Hz | s Hnz IH] using leading_space_ind.
  - exists EmptyString. rewrite (trimStart_stop s Hz). reflexivity.
  - rewrite (trimStart_go s Hnz). destruct IH as [p Hp].
    destruct (skip_suffix (spaceWidth s) s) as [p0 Hp0].
    exists (p0 ++ p)%string. rewrite Hp0 at 1. rewrite Hp at 1.
    clear. induction p0 as [| c p0 IH]; [reflexivity |].
    rewrite !append_cons, IH. reflexivity.
Qed.

(** White space from the first to the last character is dropped in
    front of whatever follows. *)
Lemma trimStart_through (a b : string) :
  trimStart a = EmptyString -> trimStart (a ++ b) = trimStart b.
Proof.
  induction a as [a Hz | a Hnz IH] using leading_space_ind.
  - rewrite (trimStart_stop a Hz). intros ->. reflexivity.
  - rewrite (trimStart_go a Hnz). intros Hall.
    rewrite (trimStart_go (a ++ b)) by (rewrite (spaceWidth_app a b Hnz); exact Hnz).
    rewrite (spaceWidth_app a b Hnz), (skip_app a b Hnz). exact (IH Hall).
Qed.

Lemma spaceWidth_low (d : ascii) (rest : string) :
  low d -> spaceWidth (String d rest) = if oneByteSpace d then 1%nat else 0%nat.
Proof.
  intros Hd. cbn [spaceWidth]. destruct (oneByteSpace d); [reflexivity |].
  destruct rest as [| c2 [| c3 r]]; [reflexivity | |];
    rewrite (twoByteSpace_low_first d c2 Hd); [reflexivity |].
  rewrite (threeByteSpace_low_first d c2 c3 Hd). reflexivity.
Qed.

(** A byte of the ASCII range after a string does not change the white
    space the string starts with. *)
Lemma spaceWidth_before_low (x : string) (d : ascii) (y : string) :
  x <> EmptyString -> low d -> spaceWidth (x ++ String d y) = spaceWidth x.
Proof.
  intros Hx Hd. destruct x as [| c1 [| c2 [| c3 r]]]; [congruence | | |];
    rewrite ?append_cons, ?append_nil; cbn [spaceWidth].
  - destruct (oneByteSpace c1); [reflexivity |].
    rewrite (twoByteSpace_low_second c1 d Hd).
    destruct y; [reflexivity |]. rewrite (threeByteSpace_low_second c1 d _ Hd).
    reflexivity.
  - destruct (oneByteSpace c1); [reflexivity |].
    destruct (twoByteSpace c1 c2); [reflexivity |].
    rewrite (threeByteSpace_low_third c1 c2 d Hd). reflexivity.
  - reflexivity.
Qed.

Lemma skip_before_low (x : string) (d : ascii) (y : string) :
  spaceWidth x <> 0%nat ->
  skip (spaceWidth x) (x ++ String d y) = (skip (spaceWidth x) x ++ String d y)%string.
Proof. apply skip_app. Qed.

(** When a string that holds a byte of the ASCII range is white space
    throughout, so is what follows the byte. *)
Lemma allSpace_after_low (x : string) (d : ascii) (y : string) :
  low d -> trimStart (x ++ String d y) = EmptyString -> trimStart y = EmptyString.
Proof.
  intros Hd. induction x as [x Hz | x Hnz IH] using leading_space_ind.
  - destruct x as [| c x'].
    + rewrite append_nil, trimStart_unfold, (spaceWidth_low d y Hd).
      destruct (oneByteSpace d); [tauto | discriminate].
    + rewrite trimStart_stop; [discriminate |].
      rewrite spaceWidth_before_low; [exact Hz | discriminate | exact Hd].
  - assert (Hx : x <> EmptyString) by (intros ->; apply Hnz; reflexivity).
    assert (Hw : spaceWidth (x ++ String d y) = spaceWidth x)
      by (apply spaceWidth_before_low; assumption).
    rewrite trimStart_go by (rewrite Hw; exact Hnz).
    rewrite Hw, (skip_app x _ Hnz). exact IH.
Qed.

Lemma trimEnd_step (c : ascii) (rest : string) :
  trimEnd (String c rest)
  = if allSpace (String c rest) then EmptyString else String c (trimEnd rest).
Proof. reflexivity. Qed.

Lemma allSpace_true (s : string) : allSpace s = true <-> trimStart s = EmptyString.
Proof. unfold allSpace. apply String.eqb_eq. Qed.

Lemma trimEnd_allSpace (s : string) : trimStart s = EmptyString -> trimEnd s = EmptyString.
Proof.
  intros Hall. destruct s as [| c rest]; [reflexivity |].
  rewrite trimEnd_step. apply allSpace_true in Hall. rewrite Hall. reflexivity.
Qed.

(** What [trimEnd] cuts off is white space throughout. *)
Lemma trimEnd_prefix (s : string) :
  exists q, s = (trimEnd s ++ q)%string /\ trimStart q = EmptyString.
Proof.
  induction s as [| c rest IH]; [exists EmptyString; split; reflexivity |].
  rewrite trimEnd_step. destruct (allSpace (String c rest)) eqn:Hall.
  - exists (String c rest). split; [reflexivity | apply allSpace_true, Hall].
  - destruct IH as [q [Hq Hspace]]. exists q. split; [| exact Hspace].
    rewrite append_cons, <- Hq. reflexivity.
Qed.

Lemma trimEnd_headClear (s : string) : headClear s -> headClear (trimEnd s).
Proof.
  unfold headClear. intros Hs. destruct (trimEnd_prefix s) as [q [Hq _]].
  destruct (Nat.eq_dec (spaceWidth (trimEnd s)) 0) as [Hz | Hnz]; [exact Hz |].
  rewrite Hq, (spaceWidth_app _ q Hnz) in Hs. congruence.
Qed.

Lemma trimEnd_idempotent (s : string) : trimEnd (trimEnd s) = trimEnd s.
Proof.
  induction s as [| c rest IH]; [reflexivity |].
  rewrite trimEnd_step. destruct (allSpace (String c rest)) eqn:Hall; [reflexivity |].
  rewrite trimEnd_step, IH.
  destruct (allSpace (String c (trimEnd rest))) eqn:Hcut; [| reflexivity].
  exfalso. destruct (trimEnd_prefix rest) as [q [Hq Hspace]].
  apply allSpace_true in Hcut.
  assert (Hwhole : trimStart (String c rest) = EmptyString).
  { rewrite Hq at 1. rewrite <- append_cons, (trimStart_through _ q Hcut).
    exact Hspace. }
  apply allSpace_true in Hwhole. congruence.
Qed.

Lemma trim_idempotent (s : string) : trim (trim s) = trim s.
Proof.
  unfold trim.
  rewrite (trimStart_fixed (trimEnd (trimStart s))).
  - apply trimEnd_idempotent.
  - apply trimEnd_headClear, trimStart_headClear.
Qed.

Lemma trimStart_chars (c : ascii) (s : string) :
  includesChar c s = false -> includesChar c (trimStart s) = false.
Proof.
  intros Hs. destruct (trimStart_suffix s) as [p Hp].
  rewrite Hp, includesChar_app in Hs. apply orb_false_elim in Hs. tauto.
Qed.

Lemma trimEnd_chars (c : ascii) (s : string) :
  includesChar c s = false -> includesChar c (trimEnd s) = false.
Proof.
  intros Hs. destruct (trimEnd_prefix s) as [q [Hq _]].
  rewrite Hq, includesChar_app in Hs. apply orb_false_elim in Hs. tauto.
Qed.

Lemma trim_chars (c : ascii) (s : string) :
  includesChar c s = false -> includesChar c (trim s) = false.
Proof. intros Hs. apply trimEnd_chars, trimStart_chars, Hs. Qed.

(** *** What the parser returns *)

(** X6: the parser returns undefined rather than an empty list, and no
    element of a list it returns is empty or contains a comma; when the
    trimmed value contains a comma every element is trimmed, and
    otherwise no element contains a space. *)
Theorem parseListFromEnv_elements (v : string) (l : list string) :
  parseListFromEnv (Some v) = Some l ->
  l <> []
  /\ Forall (fun x => x <> EmptyString /\ includesChar comma x = false) l
  /\ (includesChar comma (trim v) = true -> Forall (fun x => trim x = x) l)
  /\ (includesChar comma (trim v) = false ->
      Forall (fun x => includesChar space x = false) l).
Proof.
  unfold parseListFromEnv.
  destruct (includesChar comma (trim v)) eqn:Hmode.
  - set (pieces := List.map trim (split comma (trim v))).
    destruct (length (List.filter nonEmpty pieces) =? 0)%nat eqn:Hlen; [discriminate |].
    intros [= <-]. split; [| split; [| split]].
    + intros Hnil. rewrite Hnil in Hlen. discriminate.
    + apply List.Forall_forall. intros x Hx. apply List.filter_In in Hx.
      destruct Hx as [Hin Hne]. split.
      * intros ->. discriminate.
      * unfold pieces in Hin. apply List.in_map_iff in Hin.
        destruct Hin as [y [<- Hy]]. apply trim_chars.
        exact (proj1 (List.Forall_forall _ _) (split_pieces_free comma (trim v)) y Hy).
    + intros _. apply List.Forall_forall. intros x Hx. apply List.filter_In in Hx.
      destruct Hx as [Hin _]. unfold pieces in Hin. apply List.in_map_iff in Hin.
      destruct Hin as [y [<- _]]. apply trim_idempotent.
    + discriminate.
  - set (keep := fun x => negb (String.eqb x " ") && nonEmpty x).
    destruct (length (List.filter keep (split space (trim v))) =? 0)%nat eqn:Hlen;
      [discriminate |].
    intros [= <-]. split; [| split; [| split]].
    + intros Hnil. rewrite Hnil in Hlen. discriminate.
    + apply List.Forall_forall. intros x Hx. apply List.filter_In in Hx.
      destruct Hx as [Hin Hkeep]. unfold keep in Hkeep.
      apply andb_prop in Hkeep. destruct Hkeep as [_ Hne]. split.
      * intros ->. discriminate.
      * destruct (includesChar comma x) eqn:Hx; [| reflexivity].
        exfalso. clear Hlen Hne. revert x Hin Hx.
        assert (Hall : forall s, includesChar comma s = false ->
                  forall x, In x (split space s) -> includesChar comma x = true -> False).
        { induction s as [| d rest IH]; simpl.
          - intros _ x [<- | []]. discriminate.
          - intros Hs. apply orb_false_elim in Hs. destruct Hs as [Hd Hrest].
            destruct (Ascii.eqb d space).
            + intros x [<- | Hin]; [discriminate | exact (IH Hrest x Hin)].
            + pose proof (split_not_nil space rest) as Hnn.
              destruct (split space rest) as [| piece pieces]; [congruence |].
              intros x [<- | Hin].
              * simpl. rewrite Hd. simpl. apply (IH Hrest piece). left. reflexivity.
              * apply (IH Hrest x). right. exact Hin. }
        exact (Hall (trim v) Hmode).
    + discriminate.
    + intros _. apply List.Forall_forall. intros x Hx. apply List.filter_In in Hx.
      destruct Hx as [Hin _].
      exact (proj1 (List.Forall_forall _ _) (split_pieces_free space (trim v)) x Hin).
Qed.

Lemma parseListFromEnv_elements_witness :
  [ "foo"; "bar baz" ] <> []
  /\ Forall (fun x => x <> EmptyString /\ includesChar comma x = false) [ "foo"; "bar baz" ]
  /\ (includesChar comma (trim "  foo , bar baz,, ") = true ->
      Forall (fun x => trim x = x) [ "foo"; "bar baz" ])
  /\ (includesChar comma (trim "  foo , bar baz,, ") = false ->
      Forall (fun x => includesChar space x = false) [ "foo"; "bar baz" ]).
Proof.
  apply (parseListFromEnv_elements "  foo , bar baz,, " [ "foo"; "bar baz" ]).
  reflexivity.
Defined.

(** *** Joining and parsing back *)

(** A white space character of [trim] starts somewhere in the string:
    one of the ASCII range or one of two or three bytes. *)
Fixpoint hasSpace (s : string) : bool :=
  match s with
  | EmptyString => false
  | String c rest => negb (spaceWidth s =? 0)%nat || hasSpace rest
  end.

(** A token: not empty, without white space and without a comma. *)

Definition isToken (x : string) : bool :=
  nonEmpty x && negb (hasSpace x) && negb (includesChar comma x).

(** [l.join(c)] for a single character [c]. *)
Definition join (c : ascii) (l : list string) : string :=
  String.concat (String c EmptyString) l.

Lemma join_cons (c : ascii) (x y : string) (rest : list string) :
  join c (x :: y :: rest) = (x ++ String c (join c (y :: rest)))%string.
Proof. reflexivity. Qed.

Lemma hasSpace_step (c : ascii) (rest : string) :
  hasSpace (String c rest) = false ->
  spaceWidth (String c rest) = 0%nat /\ hasSpace rest = false.
Proof.
  cbn [hasSpace]. intros Hx. apply orb_false_elim in Hx. destruct Hx as [Hc Hrest].
  split; [| exact Hrest]. apply negb_false_iff, Nat.eqb_eq in Hc. exact Hc.
Qed.

Lemma hasSpace_headClear (x : string) : hasSpace x = false -> headClear x.
Proof.
  destruct x as [| c rest]; [reflexivity |]. intros Hx. apply (hasSpace_step c rest Hx).
Qed.

Lemma trimEnd_clear (x : string) : hasSpace x = false -> trimEnd x = x.
Proof.
  induction x as [| c rest IH]; [reflexivity |].
  intros Hx. destruct (hasSpace_step c rest Hx) as [Hc Hrest].
  rewrite trimEnd_step, (IH Hrest).
  destruct (allSpace (String c rest)) eqn:Hall; [| reflexivity].
  apply allSpace_true in Hall. rewrite (trimStart_stop _ Hc) in Hall. discriminate.
Qed.

Lemma trim_clear (x : string) : hasSpace x = false -> trim x = x.
Proof.
  intros Hx. unfold trim.
  rewrite trimStart_fixed; [apply trimEnd_clear, Hx | apply hasSpace_headClear, Hx].
Qed.

Lemma hasSpace_space (x : string) : hasSpace x = false -> includesChar space x = false.
Proof.
  induction x as [| c rest IH]; [reflexivity |].
  intros Hx. destruct (hasSpace_step c rest Hx) as [Hc Hrest].
  cbn [includesChar]. rewrite (IH Hrest), orb_false_r.
  destruct (Ascii.eqb c space) eqn:E; [| reflexivity].
  apply Ascii.eqb_eq in E. subst c. discriminate Hc.
Qed.

Lemma low_comma : low comma.
Proof. unfold low. vm_compute. lia. Qed.

Lemma low_space : low space.
Proof. unfold low. vm_compute. lia. Qed.

(** After a byte of the ASCII range, the end of the string is trimmed on
    its own when it is not white space throughout. *)
Lemma trimEnd_after_low (x : string) (d : ascii) (y : string) :
  low d -> trimEnd y <> EmptyString ->
  trimEnd (x ++ String d y) = (x ++ String d (trimEnd y))%string.
Proof.
  intros Hd Hy.
  assert (Hsome : forall x', allSpace (x' ++ String d y) = false).
  { intros x'. destruct (allSpace (x' ++ String d y)) eqn:Hall; [| reflexivity].
    exfalso. apply allSpace_true in Hall.
    apply Hy, trimEnd_allSpace, (allSpace_after_low x' d y Hd Hall). }
  induction x as [| c x IH].
  - pose proof (Hsome EmptyString) as Hhere. rewrite append_nil in Hhere.
    rewrite !append_nil, trimEnd_step, Hhere. reflexivity.
  - pose proof (Hsome (String c x)) as Hhere. rewrite append_cons in Hhere.
    rewrite !append_cons, trimEnd_step, IH, Hhere. reflexivity.
Qed.

Lemma isToken_parts (x : string) :
  isToken x = true ->
  x <> EmptyString /\ hasSpace x = false /\ includesChar comma x = false.
Proof.
  unfold isToken, nonEmpty. intros Hx.
  apply andb_prop in Hx. destruct Hx as [Hx Hcomma].
  apply andb_prop in Hx. destruct Hx as [Hne Hspace].
  repeat split.
  - intros ->. discriminate.
  - destruct (hasSpace x); [discriminate | reflexivity].
  - destruct (includesChar comma x); [discriminate | reflexivity].
Qed.

Lemma join_not_empty (c : ascii) (l : list string) :
  l <> [] -> Forall (fun x => isToken x = true) l -> join c l <> EmptyString.
Proof.
  intros Hl Htokens. destruct l as [| x [| y rest]]; [congruence | |].
  - inversion Htokens; subst. apply isToken_parts. assumption.
  - rewrite join_cons. inversion Htokens as [| ? ? Hx _]; subst.
    destruct (isToken_parts x Hx) as [Hne _]. destruct x; [congruence | discriminate].
Qed.

Lemma join_trimEnd (c : ascii) (l : list string) :
  low c -> Forall (fun x => isToken x = true) l -> trimEnd (join c l) = join c l.
Proof.
  intros Hc. induction l as [| x rest IH]; intros Htokens; [reflexivity |].
  inversion Htokens as [| ? ? Hx Hrest]; subst.
  destruct (isToken_parts x Hx) as [_ [Hspace _]].
  destruct rest as [| y rest'].
  - apply trimEnd_clear, Hspace.
  - rewrite join_cons.
    assert (Hy : join c (y :: rest') <> EmptyString)
      by (apply join_not_empty; [discriminate | exact Hrest]).
    rewrite (trimEnd_after_low x c _ Hc); rewrite (IH Hrest); [reflexivity | exact Hy].
Qed.

Lemma join_trim (c : ascii) (l : list string) :
  low c -> Forall (fun x => isToken x = true) l -> trim (join c l) = join c l.
Proof.
  intros Hc Htokens. unfold trim.
  rewrite trimStart_fixed; [apply join_trimEnd; assumption |].
  destruct l as [| x rest]; [reflexivity |].
  inversion Htokens as [| ? ? Hx _]; subst.
  destruct (isToken_parts x Hx) as [Hne [Hspace _]].
  pose proof (hasSpace_headClear x Hspace) as Hhead.
  destruct rest; [exact Hhead |].
  rewrite join_cons. unfold headClear.
  rewrite (spaceWidth_before_low x c _ Hne Hc). exact Hhead.
Qed.

(** Splitting what was joined gives the pieces back, when no piece
    contains the separator. *)
Lemma split_join (c : ascii) (l : list string) :
  l <> [] -> Forall (fun x => includesChar c x = false) l -> split c (join c l) = l.
Proof.
  induction l as [| x rest IH]; intros Hl Hfree; [congruence |].
  inversion Hfree as [| ? ? Hx Hrest]; subst.
  destruct rest as [| y rest'].
  - apply split_free, Hx.
  - rewrite join_cons, (split_piece_then c x _ Hx), IH; [reflexivity | discriminate | exact Hrest].
Qed.

Lemma includesChar_join (c d : ascii) (l : list string) :
  Ascii.eqb d c = false ->
  Forall (fun x => includesChar c x = false) l ->
  includesChar c (join d l) = false.
Proof.
  intros Hdc. induction l as [| x rest IH]; intros Hfree; [reflexivity |].
  inversion Hfree as [| ? ? Hx Hrest]; subst.
  destruct rest as [| y rest']; [exact Hx |].
  rewrite join_cons, includesChar_app, Hx. simpl. rewrite Hdc. exact (IH Hrest).
Qed.

Lemma tokens_free (l : list string) :
  Forall (fun x => isToken x = true) l ->
  Forall (fun x => includesChar comma x = false) l
  /\ Forall (fun x => includesChar space x = false) l.
Proof.
  intros Htokens. split; eapply List.Forall_impl; try exact Htokens; intros x Hx;
    destruct (isToken_parts x Hx) as [_ [Hspace Hcomma]];
    [exact Hcomma | apply hasSpace_space, Hspace].
Qed.

Lemma tokens_trimmed (l : list string) :
  Forall (fun x => isToken x = true) l -> List.map trim l = l.
Proof.
  induction 1 as [| x rest Hx _ IH]; simpl; [reflexivity |].
  destruct (isToken_parts x Hx) as [_ [Hspace _]].
  rewrite (trim_clear x Hspace), IH. reflexivity.
Qed.

Lemma tokens_kept (keep : string -> bool) (l : list string) :
  Forall (fun x => keep x = true) l -> List.filter keep l = l.
Proof.
  induction 1 as [| x rest Hx _ IH]; simpl; [reflexivity |].
  rewrite Hx, IH. reflexivity.
Qed.

Lemma token_kept_by_both (x : string) :
  isToken x = true ->
  nonEmpty x = true /\ negb (String.eqb x " ") && nonEmpty x = true.
Proof.
  intros Hx. destruct (isToken_parts x Hx) as [Hne [Hspace _]].
  assert (Hn : nonEmpty x = true).
  { unfold nonEmpty. destruct (String.eqb x EmptyString) eqn:E; [| reflexivity].
    apply String.eqb_eq in E. congruence. }
  split; [exact Hn |]. rewrite Hn, andb_true_r.
  destruct (String.eqb x " ") eqn:E; [| reflexivity].
  apply String.eqb_eq in E. subst x. discriminate.
Qed.

(** X7: a non-empty list of tokens (strings that are not empty and hold
    no comma and no white space character of [trim], the ones outside
    the ASCII range included), joined by commas or joined by spaces, is
    parsed back to the same list. *)
Theorem parseListFromEnv_join (l : list string) :
  l <> [] ->
  Forall (fun x => isToken x = true) l ->
  parseListFromEnv (Some (join comma l)) = Some l
  /\ parseListFromEnv (Some (join space l)) = Some l.
Proof.
  intros Hl Htokens.
  destruct (tokens_free l Htokens) as [Hcomma Hspace].
  assert (Hkeep1 : List.filter nonEmpty l = l).
  { apply tokens_kept. eapply List.Forall_impl; [| exact Htokens].
    intros x Hx. apply token_kept_by_both, Hx. }
  assert (Hkeep2 : List.filter (fun x => negb (String.eqb x " ") && nonEmpty x) l = l).
  { apply tokens_kept. eapply List.Forall_impl; [| exact Htokens].
    intros x Hx. apply (token_kept_by_both x Hx). }
  assert (Hlen : (length l =? 0)%nat = false) by (destruct l; [congruence | reflexivity]).
  split; unfold parseListFromEnv;
    [rewrite (join_trim comma l low_comma Htokens)
    | rewrite (join_trim space l low_space Htokens)].
  - destruct l as [| x [| y rest]]; [congruence | |].
    + change (join comma [x]) with x.
      inversion Hcomma as [| ? ? Hx _]; subst. rewrite Hx.
      inversion Hspace as [| ? ? Hsx _]; subst.
      rewrite (split_free space x Hsx), Hkeep2. reflexivity.
    + replace (includesChar comma (join comma (x :: y :: rest))) with true.
      * rewrite (split_join comma _ Hl Hcomma), (tokens_trimmed _ Htokens), Hkeep1, Hlen.
        reflexivity.
      * rewrite join_cons, includesChar_app. simpl.
        rewrite orb_true_r. reflexivity.
  - rewrite (includesChar_join comma space l eq_refl Hcomma).
    rewrite (split_join space l Hl Hspace), Hkeep2, Hlen. reflexivity.
Qed.

Lemma parseListFromEnv_join_witness :
  parseListFromEnv (Some "pics,aww,funny") = Some [ "pics"; "aww"; "funny" ]
  /\ parseListFromEnv (Some "pics aww funny") = Some [ "pics"; "aww"; "funny" ].
Proof.
  apply (parseListFromEnv_join [ "pics"; "aww"; "funny" ]).
  - discriminate.
  - repeat constructor.
Defined.

(** A no-break space (U+00A0, the bytes C2 A0) around a value. *)
Definition nbsp : string :=
  String (ascii_of_nat 194) (String (ascii_of_nat 160) EmptyString).

(** [trim] strips the no-break space like any white space, so a string
    that ends with one is no token and is not parsed back as it is. *)
Example no_break_space_is_trimmed :
  trim (nbsp +:+ " pics" +:+ nbsp) = "pics"
  /\ isToken ("a" +:+ nbsp) = false
  /\ parseListFromEnv (Some ("a" +:+ nbsp +:+ ",b")) = Some [ "a"; "b" ].
Proof. repeat split. Qed.

(** A value of whitespace and separators only gives undefined. *)
Example parseListFromEnv_blank :
  parseListFromEnv (Some "  ") = None /\ parseListFromEnv (Some " , ,, ") = None
  /\ parseListFromEnv None = None.
Proof. repeat split. Qed.

End EnvListFacts.

(** ** Hydration: the other positional errors and literal documents *)

Module HydrateMoreFacts.
Import Js Exn Hydrate.
Local Open Scope js_scope.

Lemma setField_same (key : string) (fields : list (string * jsval)) :
  hasField key fields = true ->
  setField key (getField key fields) fields = fields.
Proof.
  induction fields as [| [k w] fields IH]; simpl; [discriminate |].
  destruct (String.eqb k key) eqn:E; simpl.
  - intros _. reflexivity.
  - intros Hrest. rewrite (IH Hrest). reflexivity.
Qed.

Lemma getField_defined (key : string) (fields : list (string * jsval)) :
  getField key fields <> JUndefined -> hasField key fields = true.
Proof.
  induction fields as [| [k w] fields IH]; simpl; [congruence |].
  destruct (String.eqb k key); simpl; [reflexivity | exact IH].
Qed.

Section WithSource.
Context `{ConfigSource}.

(** *** The validators of runs and checks *)

Lemma validate_each (schema : Schema) (items : list jsval) :
  forOf (fun (_ : unit) item => _ <- validateJson item schema ;; Ok tt) items tt
  = if forallb (schemaValid schema) items then Ok tt
    else Throw (LoggedError "Config schema validity failure").
Proof.
  induction items as [| item items IH]; simpl; [reflexivity |].
  unfold validateJson at 1. destruct (schemaValid schema item); simpl; [exact IH | reflexivity].
Qed.

(** X8: the validator handed over for runs and for checks accepts
    literal data whatever it is, and accepts fetched data exactly when
    the schema accepts it, element by element for an array; otherwise it
    raises the schema failure. *)
Theorem fragmentValidator_decides (schema : Schema) (data : jsval) (fetched : bool) :
  fragmentValidator schema data fetched
  = if negb fetched || forallb (schemaValid schema) (asList data)
    then Ok true
    else Throw (LoggedError "Config schema validity failure").
Proof.
  unfold fragmentValidator. destruct fetched; [| reflexivity]. cbn [negb orb].
  assert (Hone : forall v, (_ <- validateJson v schema ;; Ok true)
                           = if forallb (schemaValid schema) [v] then Ok true
                             else Throw (LoggedError "Config schema validity failure")).
  { intros v. unfold validateJson. simpl. rewrite andb_true_r.
    destruct (schemaValid schema v); reflexivity. }
  destruct data; try apply Hone.
  cbn [asList]. rewrite validate_each.
  destruct (forallb (schemaValid schema) items); reflexivity.
Qed.

(** *** Positions *)

(** Where a run value sits in a document: the fragments and values
    before it hydrate to [hydratedRuns], and [runNo] is the counter the
    loop over the runs has reached when the value is met. *)
Inductive RunAt (config : SubredditConfigData) (runVal : jsval)
    (hydratedRuns : list jsval) (runNo : nat) : Prop :=
| run_at
    (preRuns : list jsval) (runFragment : jsval) (postRuns : list jsval)
    (runsBefore : list jsval * nat) (preRunVals postRunVals : list jsval)
    (at_shape : default [] (checks config) = [] \/ default [] (runs config) = [])
    (at_runs : realRuns config = preRuns ++ runFragment :: postRuns)
    (at_runsBefore : forOf runStep preRuns ([], 1%nat) = Ok runsBefore)
    (at_runFragment :
       hydrateConfigFragment runFragment (Some (fragmentValidator RunSchema))
       = Ok (preRunVals ++ runVal :: postRunVals))
    (at_runVals : forOf pushRun preRunVals runsBefore = Ok (hydratedRuns, runNo)).

(** Where a check value sits: in the [checks] of a run object at a run
    position, after fragments and values that hydrate to
    [hydratedChecks]. *)
Inductive CheckAt (config : SubredditConfigData) (checkVal : jsval)
    (hydratedRuns hydratedChecks : list jsval) (runNo checkNo : nat) : Prop :=
| check_at
    (runFields : list (string * jsval))
    (preChecks : list jsval) (checkFragment : jsval) (postChecks : list jsval)
    (checksBefore : list jsval * nat) (preCheckVals postCheckVals : list jsval)
    (at_run : RunAt config (JObj runFields) hydratedRuns runNo)
    (at_checks :
       getField "checks" runFields = JArr (preChecks ++ checkFragment :: postChecks))
    (at_checksBefore : forOf (checkStep runNo) preChecks ([], 1%nat) = Ok checksBefore)
    (at_checkFragment :
       hydrateConfigFragment checkFragment (Some (fragmentValidator CheckSchema))
       = Ok (preCheckVals ++ checkVal :: postCheckVals))
    (at_checkVals :
       forOf (pushCheck runNo) preCheckVals checksBefore = Ok (hydratedChecks, checkNo)).

Lemma RunAt_number (config : SubredditConfigData) (runVal : jsval)
    (hydratedRuns : list jsval) (runNo : nat) :
  RunAt config runVal hydratedRuns runNo -> runNo = S (length hydratedRuns).
Proof.
  intros []. eapply (HydrateFacts.pushRun_counts _ _ (_, _)); [| eassumption].
  eapply HydrateFacts.runStep_counts; [apply HydrateFacts.counts_start | eassumption].
Qed.

Lemma CheckAt_number (config : SubredditConfigData) (checkVal : jsval)
    (hydratedRuns hydratedChecks : list jsval) (runNo checkNo : nat) :
  CheckAt config checkVal hydratedRuns hydratedChecks runNo checkNo ->
  runNo = S (length hydratedRuns) /\ checkNo = S (length hydratedChecks).
Proof.
  intros []. split; [eapply RunAt_number; eassumption |].
  eapply (HydrateFacts.pushCheck_counts _ _ _ (_, _)); [| eassumption].
  eapply HydrateFacts.checkStep_counts; [apply HydrateFacts.counts_start | eassumption].
Qed.

(** An error of a run value is the error of the hydration. *)
Lemma RunAt_failure (config : SubredditConfigData) (runVal : jsval)
    (hydratedRuns : list jsval) (runNo : nat) (e : exn) :
  RunAt config runVal hydratedRuns runNo ->
  hydrateRun runNo runVal = Throw e ->
  hydrateConfig config = Throw e.
Proof.
  intros [] Hfail. eapply HydrateFacts.hydrateConfig_run_failure; eauto.
Qed.

(** An error of a check value is the error of the hydration. *)
Lemma CheckAt_failure (config : SubredditConfigData) (checkVal : jsval)
    (hydratedRuns hydratedChecks : list jsval) (runNo checkNo : nat) (e : exn) :
  CheckAt config checkVal hydratedRuns hydratedChecks runNo checkNo ->
  hydrateCheck runNo checkNo checkVal = Throw e ->
  hydrateConfig config = Throw e.
Proof.
  intros [] Hfail. eapply RunAt_failure; [eassumption |].
  eapply HydrateFacts.hydrateRun_checks_failure; [eassumption |].
  eapply HydrateFacts.checkStep_check_failure; eauto.
Qed.

(** X9: when a fragment listed in the checks of a run cannot be fetched
    or does not pass validation, the whole hydration ends with an error
    that wraps the cause and gives the 1-based number of the check and
    the 1-based number of the run. *)
Theorem check_fragment_failure_reports_check_and_run
    (config : SubredditConfigData) (runFields : list (string * jsval))
    (hydratedRuns hydratedChecks preChecks postChecks : list jsval)
    (c : jsval) (runNo checkNo : nat) (cause : exn) :
  RunAt config (JObj runFields) hydratedRuns runNo ->
  getField "checks" runFields = JArr (preChecks ++ c :: postChecks) ->
  forOf (checkStep runNo) preChecks ([], 1%nat) = Ok (hydratedChecks, checkNo) ->
  hydrateConfigFragment c (Some (fragmentValidator CheckSchema)) = Throw cause ->
  hydrateConfig config
  = Throw (CMError ("Could not fetch or validate Check Config Fragment #"
                      ++ showNat checkNo ++ " in Run #" ++ showNat runNo) cause)
  /\ checkNo = S (length hydratedChecks)
  /\ runNo = S (length hydratedRuns).
Proof.
  intros Hrun Hchecks Hbefore Hfrag. split; [| split].
  - eapply RunAt_failure; [exact Hrun |].
    eapply HydrateFacts.hydrateRun_checks_failure; [exact Hchecks |].
    rewrite ExnFacts.forOf_app, Hbefore, ExnFacts.bind_Ok.
    cbn [forOf]. unfold checkStep at 1. rewrite Hfrag. reflexivity.
  - exact (HydrateFacts.checkStep_counts runNo preChecks ([], 1%nat) _
             HydrateFacts.counts_start Hbefore).
  - exact (RunAt_number _ _ _ _ Hrun).
Qed.

(** X10: a run that is, or that its fragment resolves to, a plain
    string which is no reference is refused with a parse error that
    gives the number of the run and the string. *)
Theorem string_run_is_refused
    (config : SubredditConfigData) (given : string)
    (hydratedRuns : list jsval) (runNo : nat) :
  RunAt config (JStr given) hydratedRuns runNo ->
  hydrateConfig config
  = Throw (ConfigParseError
             ("Run Config Fragment #" ++ showNat runNo
                ++ " was not in a recognized Config Fragment format. Given: " ++ given)).
Proof.
  intros Hat. eapply RunAt_failure; [exact Hat | reflexivity].
Qed.

(** X11: a check that is, or that its fragment resolves to, a plain
    string which is no reference is refused with a parse error that
    gives the number of the check, the number of its run and the string:
    unlike rules, checks cannot be given by name. *)
Theorem string_check_is_refused
    (config : SubredditConfigData) (given : string)
    (hydratedRuns hydratedChecks : list jsval) (runNo checkNo : nat) :
  CheckAt config (JStr given) hydratedRuns hydratedChecks runNo checkNo ->
  hydrateConfig config
  = Throw (ConfigParseError
             ("Check #" ++ showNat checkNo ++ " in Run #" ++ showNat runNo
                ++ " was not in a recognized include format. Given: " ++ given)).
Proof.
  intros Hat. eapply CheckAt_failure; [exact Hat | reflexivity].
Qed.

(** *** Actions and rule sets of a check *)

(** The rules of a check object, when it has any, hydrate. *)
Definition rulesHydrate (checkNo : nat) (checkFields : list (string * jsval)) : Prop :=
  match getField "rules" checkFields with
  | JUndefined => True
  | rules => exists rs hydrated,
               iter rules = Ok rs /\ hydrateRules rs checkNo = Ok hydrated
  end.

Lemma actionStep_counts (checkIndex : nat) (actions : list jsval) :
  forall st st', HydrateFacts.counts st ->
                 forOf (actionStep checkIndex) actions st = Ok st' ->
                 HydrateFacts.counts st'.
Proof.
  apply ExnFacts.forOf_invariant. intros st a st' Hst. unfold actionStep.
  destruct (hydrateConfigFragment a None) as [arr |]; simpl; [| discriminate].
  revert st st' Hst. apply ExnFacts.forOf_invariant.
  intros s x s' Hs [= <-]. unfold HydrateFacts.counts in *. simpl.
  rewrite length_app, Hs. simpl. lia.
Qed.

(** An error of the actions of a check object whose rules hydrate is the
    error of the check. *)
Lemma hydrateCheck_actions_failure (runIndex checkIndex : nat)
    (checkFields : list (string * jsval)) (actions : list jsval) (e : exn) :
  rulesHydrate checkIndex checkFields ->
  getField "actions" checkFields = JArr actions ->
  hydrateActions actions checkIndex = Throw e ->
  hydrateCheck runIndex checkIndex (JObj checkFields) = Throw e.
Proof.
  intros Hrules Hactions Hfail. unfold hydrateCheck, rulesHydrate in *.
  cbn [ownProps]. rewrite ExnFacts.bind_Ok. rewrite Hactions.
  assert (Hgo : forall withRules,
             (withActions <-
                (acts <- iter (JArr actions) ;;
                 hydratedActions <- hydrateActions acts checkIndex ;;
                 Ok (setField "actions" (JArr hydratedActions) withRules)) ;;
              Ok (JObj withActions)) = Throw e).
  { intros withRules. cbn [iter]. rewrite ExnFacts.bind_Ok, Hfail. reflexivity. }
  destruct (getField "rules" checkFields) eqn:E;
    try (destruct Hrules as (rs & hydrated & Hiter & Hhyd);
         rewrite Hiter, ExnFacts.bind_Ok, Hhyd, !ExnFacts.bind_Ok; apply Hgo).
  rewrite ExnFacts.bind_Ok. apply Hgo.
Qed.

(** X12: when an action fragment of a check cannot be fetched, and the
    rules of the check hydrated, the whole hydration ends with an error
    that wraps the cause and gives the 1-based number of the action,
    counted over the actions resolved so far, and the number of the
    check; the number of the run is not part of it. *)
Theorem action_fragment_failure_reports_action_and_check
    (config : SubredditConfigData) (checkFields : list (string * jsval))
    (hydratedRuns hydratedChecks preActions postActions hydratedActions : list jsval)
    (a : jsval) (runNo checkNo actionNo : nat) (cause : exn) :
  CheckAt config (JObj checkFields) hydratedRuns hydratedChecks runNo checkNo ->
  rulesHydrate checkNo checkFields ->
  getField "actions" checkFields = JArr (preActions ++ a :: postActions) ->
  forOf (actionStep checkNo) preActions ([], 1%nat) = Ok (hydratedActions, actionNo) ->
  hydrateConfigFragment a None = Throw cause ->
  hydrateConfig config
  = Throw (CMError ("Action Config Fragment #" ++ showNat actionNo ++ " in Check #"
                      ++ showNat checkNo ++ " could not be fetched") cause)
  /\ actionNo = S (length hydratedActions).
Proof.
  intros Hat Hrules Hactions Hbefore Hfrag. split.
  - eapply CheckAt_failure; [exact Hat |].
    eapply hydrateCheck_actions_failure; [exact Hrules | exact Hactions |].
    unfold hydrateActions.
    rewrite ExnFacts.forOf_app, Hbefore, ExnFacts.bind_Ok.
    cbn [forOf]. unfold actionStep at 1. rewrite Hfrag. reflexivity.
  - exact (actionStep_counts checkNo preActions ([], 1%nat) _
             HydrateFacts.counts_start Hbefore).
Qed.

(** Where a value of a check's [rules] sits: in a check object at a
    check position, after fragments and values that hydrate. *)
Inductive RuleValueAt (config : SubredditConfigData) (ruleVal : jsval)
    (checkNo : nat) : Prop :=
| rule_value_at
    (hydratedRuns hydratedChecks : list jsval) (runNo : nat)
    (checkFields : list (string * jsval))
    (preRules : list jsval) (ruleFragment : jsval) (postRules : list jsval)
    (rulesBefore : list jsval * nat) (preRuleVals postRuleVals : list jsval)
    (valsBefore : list jsval * nat)
    (at_check : CheckAt config (JObj checkFields) hydratedRuns hydratedChecks
                        runNo checkNo)
    (at_rules :
       getField "rules" checkFields = JArr (preRules ++ ruleFragment :: postRules))
    (at_rulesBefore : forOf (ruleStep checkNo) preRules ([], 1%nat) = Ok rulesBefore)
    (at_ruleFragment :
       hydrateConfigFragment ruleFragment None
       = Ok (preRuleVals ++ ruleVal :: postRuleVals))
    (at_ruleVals : forOf pushRule preRuleVals rulesBefore = Ok valsBefore).

(** An error of a value of a check's rules is the error of the
    hydration. *)
Lemma RuleValueAt_failure (config : SubredditConfigData) (ruleVal : jsval)
    (checkNo : nat) (e : exn) :
  RuleValueAt config ruleVal checkNo ->
  hydrateRuleOrSet ruleVal = Throw e ->
  hydrateConfig config = Throw e.
Proof.
  intros [] Hfail. eapply CheckAt_failure; [eassumption |].
  eapply HydrateFacts.hydrateCheck_rules_failure; [eassumption |].
  unfold hydrateRules.
  rewrite ExnFacts.forOf_app, at_rulesBefore, ExnFacts.bind_Ok.
  cbn [forOf]. unfold ruleStep at 1. rewrite at_ruleFragment.
  cbn [rethrow bind]. rewrite ExnFacts.forOf_app, at_ruleVals, ExnFacts.bind_Ok.
  cbn [forOf]. unfold pushRule at 1. rewrite Hfail. reflexivity.
Qed.

(** X13: when a fragment listed inside a rule set cannot be resolved,
    the whole hydration ends with the cause itself: unlike for a rule
    listed in the check, the error is not wrapped and gives neither the
    rule nor the check. *)
Theorem rule_set_member_failure_is_not_wrapped
    (config : SubredditConfigData) (setFields : list (string * jsval))
    (checkNo : nat) (preMembers postMembers membersBefore : list jsval)
    (member : jsval) (cause : exn) :
  RuleValueAt config (JObj setFields) checkNo ->
  getField "rules" setFields = JArr (preMembers ++ member :: postMembers) ->
  hydrateRuleSetRules preMembers = Ok membersBefore ->
  hydrateConfigFragment member None = Throw cause ->
  hydrateConfig config = Throw cause.
Proof.
  intros Hat Hrules Hbefore Hfrag.
  eapply RuleValueAt_failure; [exact Hat |].
  unfold hydrateRuleOrSet, isRuleSetJSON. cbn [prop]. rewrite Hrules.
  cbn [iter]. rewrite ExnFacts.bind_Ok.
  unfold hydrateRuleSetRules in *.
  rewrite ExnFacts.forOf_app, Hbefore, ExnFacts.bind_Ok.
  cbn [forOf]. rewrite Hfrag. reflexivity.
Qed.

(** *** Literal documents *)

(** A value [hydrateConfigFragment] hands back as it is: no reference,
    no includes object, no array. *)
Definition isLiteral (v : jsval) : bool :=
  match v with
  | JStr s => negb (parseUrlContext s)
  | JArr _ => false
  | JObj fields => negb (hasField "path" fields)
  | _ => true
  end.

(** A literal rule, or a rule set whose [rules] is an array of
    literals. *)
Definition isLiteralRule (v : jsval) : bool :=
  isLiteral v &&
  match v with
  | JObj fields =>
      match getField "rules" fields with
      | JUndefined => true
      | JArr members => forallb isLiteral members
      | _ => false
      end
  | _ => true
  end.

Lemma hydrateConfigFragment_isLiteral (v : jsval)
    (validateFunc : option ConfigFragmentValidationFunc) :
  isLiteral v = true -> hydrateConfigFragment v validateFunc = Ok [v].
Proof.
  unfold hydrateConfigFragment, detectIncludes, isLiteral.
  destruct v; try reflexivity; try discriminate.
  - destruct (parseUrlContext s); [discriminate | reflexivity].
  - simpl. destruct (hasField "path" fields); [discriminate | reflexivity].
Qed.

Lemma hydrateRuleSetRules_literal (members acc : list jsval) :
  forallb isLiteral members = true ->
  forOf (fun hydratedRulesetRules rsr =>
           hydratedRuleSetRuleArr <- hydrateConfigFragment rsr None ;;
           Ok (hydratedRulesetRules ++ hydratedRuleSetRuleArr))
        members acc
  = Ok (acc ++ members).
Proof.
  revert acc. induction members as [| m members IH]; intros acc Hall; simpl in *.
  - rewrite app_nil_r. reflexivity.
  - apply andb_prop in Hall as [Hm Hall].
    rewrite (hydrateConfigFragment_isLiteral m None Hm). simpl.
    rewrite (IH _ Hall), <- app_assoc. reflexivity.
Qed.

Lemma hydrateRuleOrSet_literal (v : jsval) :
  isLiteralRule v = true -> hydrateRuleOrSet v = Ok v.
Proof.
  unfold isLiteralRule. intros Hv. apply andb_prop in Hv as [_ Hv].
  unfold hydrateRuleOrSet, isRuleSetJSON.
  destruct v; try reflexivity. cbn [prop].
  destruct (getField "rules" fields) eqn:E; try discriminate; [reflexivity |].
  cbn [iter]. rewrite ExnFacts.bind_Ok. unfold hydrateRuleSetRules.
  rewrite (hydrateRuleSetRules_literal items [] Hv). simpl.
  rewrite <- E, setField_same; [reflexivity |].
  apply getField_defined. rewrite E. discriminate.
Qed.

Lemma ruleStep_literal (checkIndex : nat) (rules : list jsval) (st : list jsval * nat) :
  forallb isLiteralRule rules = true ->
  forOf (ruleStep checkIndex) rules st
  = Ok (fst st ++ rules, (length rules + snd st)%nat).
Proof.
  revert st. induction rules as [| r rules IH]; intros [acc n] Hall; simpl in *.
  - rewrite app_nil_r. reflexivity.
  - apply andb_prop in Hall as [Hr Hall]. unfold ruleStep at 1.
    assert (Hlit : isLiteral r = true).
    { unfold isLiteralRule in Hr. apply andb_prop in Hr as [Hlit _]. exact Hlit. }
    rewrite (hydrateConfigFragment_isLiteral r None Hlit).
    cbn [rethrow bind forOf]. unfold pushRule at 1.
    rewrite (hydrateRuleOrSet_literal r Hr). cbn [bind fst snd].
    rewrite (IH _ Hall). cbn [fst snd]. rewrite <- app_assoc.
    f_equal. f_equal. lia.
Qed.

Lemma actionStep_literal (checkIndex : nat) (actions : list jsval)
    (st : list jsval * nat) :
  forallb isLiteral actions = true ->
  forOf (actionStep checkIndex) actions st
  = Ok (fst st ++ actions, (length actions + snd st)%nat).
Proof.
  revert st. induction actions as [| a actions IH]; intros [acc n] Hall; simpl in *.
  - rewrite app_nil_r. reflexivity.
  - apply andb_prop in Hall as [Ha Hall]. unfold actionStep at 1.
    rewrite (hydrateConfigFragment_isLiteral a None Ha).
    cbn [rethrow bind forOf fst snd].
    rewrite (IH _ Hall). cbn [fst snd]. rewrite <- app_assoc.
    f_equal. f_equal. lia.
Qed.

(** X14: rules and actions that hold no reference come out of hydration
    as they went in, in the same order, whatever the source would answer
    to a fetch: names that are no reference, inline rules and actions,
    and rule sets whose members are such. *)
Theorem literal_rules_and_actions_are_unchanged
    (rules actions : list jsval) (checkIndex : nat) :
  forallb isLiteralRule rules = true ->
  forallb isLiteral actions = true ->
  hydrateRules rules checkIndex = Ok rules
  /\ hydrateActions actions checkIndex = Ok actions.
Proof.
  intros Hrules Hactions. unfold hydrateRules, hydrateActions.
  rewrite (ruleStep_literal checkIndex rules _ Hrules).
  rewrite (actionStep_literal checkIndex actions _ Hactions).
  split; reflexivity.
Qed.

End WithSource.


(** *** Examples with the one-page source *)

Definition soleRun (fields : list (string * jsval)) : SubredditConfigData :=
  {| runs := Some [JObj fields]; checks := None; restConfig := [] |}.

Definition reportAction : jsval := JObj [("kind", JStr "report")].

Definition firstCheck : jsval :=
  JObj [("name", JStr "c1"); ("kind", JStr "submission");
        ("rules", JArr [JStr "Repeat1"]); ("actions", JArr [reportAction])].

(** The second check of the only run is a page the source does not
    have. *)
Definition missingCheckFields : list (string * jsval) :=
  [("name", JStr "only"); ("checks", JArr [firstCheck; HydrateFacts.missingPage])].

Lemma check_fragment_failure_reports_check_and_run_witness :
  hydrateConfig (H := HydrateFacts.onePage) (soleRun missingCheckFields)
  = Throw (CMError "Could not fetch or validate Check Config Fragment #2 in Run #1"
                   (External "Not Found"))
  /\ 2%nat = S (length [firstCheck])
  /\ 1%nat = S (@length jsval []).
Proof.
  apply (check_fragment_failure_reports_check_and_run (H := HydrateFacts.onePage)
           (soleRun missingCheckFields) missingCheckFields
           [] [firstCheck] [firstCheck] [] HydrateFacts.missingPage 1 2
           (External "Not Found")).
  - apply (run_at (H := HydrateFacts.onePage) (soleRun missingCheckFields)
             (JObj missingCheckFields) [] 1
             [] (JObj missingCheckFields) [] ([], 1%nat) [] []);
      [left | | | |]; reflexivity.
  - reflexivity.
  - reflexivity.
  - reflexivity.
Defined.

(** The second run is a bare name. *)
Definition namedRun : SubredditConfigData :=
  {| runs := Some [JObj [("name", JStr "first"); ("checks", JArr [])]; JStr "second"];
     checks := None;
     restConfig := [] |}.

Lemma string_run_is_refused_witness :
  hydrateConfig (H := HydrateFacts.onePage) namedRun
  = Throw (ConfigParseError
             "Run Config Fragment #2 was not in a recognized Config Fragment format. Given: second").
Proof.
  apply (string_run_is_refused (H := HydrateFacts.onePage) namedRun "second"
           [JObj [("name", JStr "first"); ("checks", JArr [])]] 2).
  apply (run_at (H := HydrateFacts.onePage) namedRun (JStr "second")
           [JObj [("name", JStr "first"); ("checks", JArr [])]] 2
           [JObj [("name", JStr "first"); ("checks", JArr [])]] (JStr "second") []
           ([JObj [("name", JStr "first"); ("checks", JArr [])]], 2%nat) [] []);
    [left | | | |]; reflexivity.
Defined.

(** The second check of the only run is a bare name. *)
Definition namedCheckFields : list (string * jsval) :=
  [("name", JStr "only"); ("checks", JArr [firstCheck; JStr "c2"])].

Lemma string_check_is_refused_witness :
  hydrateConfig (H := HydrateFacts.onePage) (soleRun namedCheckFields)
  = Throw (ConfigParseError
             "Check #2 in Run #1 was not in a recognized include format. Given: c2").
Proof.
  apply (string_check_is_refused (H := HydrateFacts.onePage)
           (soleRun namedCheckFields) "c2" [] [firstCheck] 1 2).
  apply (check_at (H := HydrateFacts.onePage) (soleRun namedCheckFields) (JStr "c2")
           [] [firstCheck] 1 2
           namedCheckFields [firstCheck] (JStr "c2") [] ([firstCheck], 2%nat) [] []);
    try reflexivity.
  apply (run_at (H := HydrateFacts.onePage) (soleRun namedCheckFields)
           (JObj namedCheckFields) [] 1
           [] (JObj namedCheckFields) [] ([], 1%nat) [] []);
    [left | | | |]; reflexivity.
Defined.

(** A check whose rules are on the known page and whose second action
    is on a page the source does not have. *)
Definition missingActionCheck : list (string * jsval) :=
  [("name", JStr "c1"); ("kind", JStr "submission");
   ("rules", JArr [JStr "wiki:botconfig/rules"]);
   ("actions", JArr [reportAction; HydrateFacts.missingPage; reportAction])].

Definition missingActionFields : list (string * jsval) :=
  [("name", JStr "only"); ("checks", JArr [JObj missingActionCheck])].

Lemma missingActionCheck_position :
  CheckAt (H := HydrateFacts.onePage) (soleRun missingActionFields)
    (JObj missingActionCheck) [] [] 1 1.
Proof.
  apply (check_at (H := HydrateFacts.onePage) (soleRun missingActionFields)
           (JObj missingActionCheck) [] [] 1 1
           missingActionFields [] (JObj missingActionCheck) [] ([], 1%nat) [] []);
    try reflexivity.
  apply (run_at (H := HydrateFacts.onePage) (soleRun missingActionFields)
           (JObj missingActionFields) [] 1
           [] (JObj missingActionFields) [] ([], 1%nat) [] []);
    [left | | | |]; reflexivity.
Defined.

Lemma action_fragment_failure_reports_action_and_check_witness :
  hydrateConfig (H := HydrateFacts.onePage) (soleRun missingActionFields)
  = Throw (CMError "Action Config Fragment #2 in Check #1 could not be fetched"
                   (External "Not Found"))
  /\ 2%nat = S (length [reportAction]).
Proof.
  apply (action_fragment_failure_reports_action_and_check (H := HydrateFacts.onePage)
           (soleRun missingActionFields) missingActionCheck
           [] [] [reportAction] [reportAction] [reportAction]
           HydrateFacts.missingPage 1 1 2 (External "Not Found")
           missingActionCheck_position).
  - exists [JStr "wiki:botconfig/rules"],
           [JObj [("kind", JStr "regex"); ("name", JStr "swear")]].
    split; reflexivity.
  - reflexivity.
  - reflexivity.
  - reflexivity.
Defined.

(** A check with a rule set whose second member is on a page the source
    does not have. *)
Definition brokenSet : list (string * jsval) :=
  [("condition", JStr "OR");
   ("rules", JArr [HydrateFacts.inlineRule; HydrateFacts.missingPage])].

Definition brokenSetCheck : list (string * jsval) :=
  [("name", JStr "c1"); ("kind", JStr "comment");
   ("rules", JArr [JStr "Repeat1"; JObj brokenSet])].

Definition brokenSetFields : list (string * jsval) :=
  [("name", JStr "only"); ("checks", JArr [JObj brokenSetCheck])].

Lemma rule_set_member_failure_is_not_wrapped_witness :
  hydrateConfig (H := HydrateFacts.onePage) (soleRun brokenSetFields)
  = Throw (External "Not Found").
Proof.
  apply (rule_set_member_failure_is_not_wrapped (H := HydrateFacts.onePage)
           (soleRun brokenSetFields) brokenSet 1
           [HydrateFacts.inlineRule] [] [HydrateFacts.inlineRule]
           HydrateFacts.missingPage (External "Not Found"));
    try reflexivity.
  apply (rule_value_at (H := HydrateFacts.onePage) (soleRun brokenSetFields)
           (JObj brokenSet) 1
           [] [] 1 brokenSetCheck
           [JStr "Repeat1"] (JObj brokenSet) [] ([JStr "Repeat1"], 2%nat) [] []
           ([JStr "Repeat1"], 2%nat));
    try reflexivity.
  apply (check_at (H := HydrateFacts.onePage) (soleRun brokenSetFields)
           (JObj brokenSetCheck) [] [] 1 1
           brokenSetFields [] (JObj brokenSetCheck) [] ([], 1%nat) [] []);
    try reflexivity.
  apply (run_at (H := HydrateFacts.onePage) (soleRun brokenSetFields)
           (JObj brokenSetFields) [] 1
           [] (JObj brokenSetFields) [] ([], 1%nat) [] []);
    [left | | | |]; reflexivity.
Defined.

(** A name, an inline rule and a rule set of a name and an inline rule;
    one inline action. *)
Definition literalRules : list jsval :=
  [JStr "Repeat1"; HydrateFacts.inlineRule;
   JObj [("condition", JStr "OR");
         ("rules", JArr [JStr "Repeat2"; HydrateFacts.inlineRule])]].

Lemma literal_rules_and_actions_are_unchanged_witness :
  hydrateRules (H := HydrateFacts.onePage) literalRules 1 = Ok literalRules
  /\ hydrateActions (H := HydrateFacts.onePage) [reportAction] 1 = Ok [reportAction].
Proof.
  apply (literal_rules_and_actions_are_unchanged (H := HydrateFacts.onePage)
           literalRules [reportAction] 1); reflexivity.
Defined.

End HydrateMoreFacts.


(** ** The author cache over time *)

Module AuthorCacheFacts.
Import Js Exn Hashing Resources.

Section WithHash.
Context `{ObjectHash}.

(** What a miss that fetches leaves in the store. *)
Lemma stored_after_miss (source : ActivitySource) (this : SubredditResources)
    (t0 : Z) (user : jsval) (options : list (string * jsval)) (store : Store)
    (items : list jsval) :
  enabled this && (0 <? authorTTL this)%Z = true ->
  fst (cacheGet t0 (authorActivitiesHash this user options) store) = None ->
  fetchAuthorActivities (ActivitySource := source) user options = Ok items ->
  storeAfter (getAuthorActivities (H0 := source) this t0 user options store)
  = cachePut t0 (authorActivitiesHash this user options) items (authorTTL this)
      (snd (cacheGet t0 (authorActivitiesHash this user options) store)).
Proof.
  intros Hon Hmiss Hfetch. unfold getAuthorActivities. rewrite Hon.
  destruct (cacheGet t0 _ store) as [v store1]. simpl in Hmiss. subst v.
  rewrite Hfetch. reflexivity.
Qed.

(** X15: a listing that was fetched and stored at time [t0] is what any
    call for the same user and options returns before time
    [t0 + authorTTL], whatever a live fetch would answer by then and
    whichever timers have run in between, provided the time to live is
    one that [setTimeout] takes as it is, 2147483647 ms at most; the
    store is read once and not written. *)
Theorem author_activities_served_from_cache_before_expiry
    (first later : ActivitySource) (this : SubredditResources) (t0 t1 : Z)
    (user : jsval) (options : list (string * jsval)) (store : Store)
    (items : list jsval) (ran : list string) :
  enabled this && (0 <? authorTTL this)%Z = true ->
  (authorTTL this <= 2147483647)%Z ->
  fst (cacheGet t0 (authorActivitiesHash this user options) store) = None ->
  fetchAuthorActivities (ActivitySource := first) user options = Ok items ->
  (t1 < t0 + authorTTL this)%Z ->
  let stored :=
    runTimers ran t1
      (storeAfter (getAuthorActivities (H0 := first) this t0 user options store)) in
  getAuthorActivities (H0 := later) this t1 user options stored
  = {| returned := Ok items; storeAfter := stored;
       cacheOps := [CacheGet (authorActivitiesHash this user options)] |}.
Proof.
  intros Hon Hmax Hmiss Hfetch Hfresh stored. subst stored.
  rewrite (stored_after_miss first this t0 user options store items Hon Hmiss Hfetch).
  assert (Hpos : (0 < authorTTL this)%Z).
  { apply andb_prop in Hon as [_ Hpos]. apply Z.ltb_lt in Hpos. exact Hpos. }
  unfold getAuthorActivities. rewrite Hon.
  unfold cacheGet at 1.
  rewrite (ResourcesFacts.runTimers_not_due ran t1 _ (authorActivitiesHash this user options)
             {| e_expire := (t0 + authorTTL this)%Z;
                e_timerDue := (t0 + timerDelay (authorTTL this))%Z;
                e_value := items |}).
  - cbn [e_expire e_value].
    replace (t1 <=? t0 + authorTTL this)%Z with true
      by (symmetry; apply Z.leb_le; lia).
    reflexivity.
  - unfold cachePut. apply lookup_insert_eq.
  - cbn [e_timerDue]. rewrite (ResourcesFacts.timerDelay_in_range _ Hpos Hmax). exact Hfresh.
Qed.

(** X16: once [t0 + authorTTL] has passed, the stored listing is no
    longer served: the call returns what the live fetch answers. *)
Theorem author_activities_refetched_after_expiry
    (first later : ActivitySource) (this : SubredditResources) (t0 t1 : Z)
    (user : jsval) (options : list (string * jsval)) (store : Store)
    (items : list jsval) :
  enabled this && (0 <? authorTTL this)%Z = true ->
  fst (cacheGet t0 (authorActivitiesHash this user options) store) = None ->
  fetchAuthorActivities (ActivitySource := first) user options = Ok items ->
  (t0 + authorTTL this < t1)%Z ->
  let stored :=
    storeAfter (getAuthorActivities (H0 := first) this t0 user options store) in
  returned (getAuthorActivities (H0 := later) this t1 user options stored)
  = fetchAuthorActivities (ActivitySource := later) user options.
Proof.
  intros Hon Hmiss Hfetch Hstale stored. subst stored.
  rewrite (stored_after_miss first this t0 user options store items Hon Hmiss Hfetch).
  unfold getAuthorActivities. rewrite Hon.
  unfold cacheGet at 1, cachePut. rewrite lookup_insert_eq. cbn [e_expire e_value].
  apply Z.leb_gt in Hstale. rewrite Hstale.
  destruct (fetchAuthorActivities (ActivitySource := later) user options); reflexivity.
Qed.

Context `{ActivitySource}.

(** X17: an instance made by the constructor leaves the store alone
    exactly when the manager is disabled, the options disable it, or the
    time to live it ends up with (its own, else the manager's) is not
    positive; it then returns the live fetch. *)
Theorem author_cache_bypassed_exactly_when_off
    (mgr : SubredditResourcesManager) (name : string)
    (options : SubredditCacheOptions) (now : Z)
    (user : jsval) (opts : list (string * jsval)) (store : Store) :
  let this := newSubredditResources mgr name options in
  let out := getAuthorActivities this now user opts store in
  (cacheOps out = [] <->
   m_enabled mgr = false \/ o_enabled options = Some false
   \/ (default (m_authorTTL mgr) (o_authorTTL options) <= 0)%Z)
  /\ (cacheOps out = [] ->
      returned out = fetchAuthorActivities user opts /\ storeAfter out = store).
Proof.
  intros this out. subst out this. unfold getAuthorActivities, newSubredditResources.
  cbn [enabled authorTTL].
  assert (Hoff :
    (if m_enabled mgr then default true (o_enabled options) else false)
    && (0 <? match o_authorTTL options with
             | None => m_authorTTL mgr
             | Some ttl => ttl
             end)%Z = false
    <-> (m_enabled mgr = false \/ o_enabled options = Some false
         \/ (default (m_authorTTL mgr) (o_authorTTL options) <= 0)%Z)).
  { destruct (m_enabled mgr), (o_enabled options) as [[|] |],
             (o_authorTTL options) as [ttl |];
      cbn; rewrite ?Z.ltb_ge;
      intuition (discriminate || lia || auto). }
  destruct (_ && _) eqn:Eon.
  - split; [split |].
    + intros Hops. exfalso.
      destruct (cacheGet now _ store) as [[v |] store1];
        [| destruct (fetchAuthorActivities user opts)]; discriminate Hops.
    + intros Hcond. apply Hoff in Hcond. discriminate Hcond.
    + intros Hops. exfalso.
      destruct (cacheGet now _ store) as [[v |] store1];
        [| destruct (fetchAuthorActivities user opts)]; discriminate Hops.
  - split; [split |].
    + intros _. apply Hoff. reflexivity.
    + reflexivity.
    + intros _. split; reflexivity.
Qed.

End WithHash.

(** A source that lists one comment, and one that lists nothing. *)
Definition oneComment : ActivitySource :=
  fun _ _ => Ok [JObj [("id", JStr "c1")]].

Definition nothingNow : ActivitySource := fun _ _ => Ok [].

Definition tenSeconds : SubredditResources :=
  newSubredditResources manager "sub" ResourcesFacts.perSubreddit.

Definition someUser : jsval := JObj [("name", JStr "alice")].

Lemma author_activities_served_from_cache_before_expiry_witness :
  getAuthorActivities (H := Demo.printedHash) (H0 := nothingNow)
    tenSeconds 9999 someUser []
    (runTimers [authorActivitiesHash (H := Demo.printedHash) tenSeconds someUser []] 9999
       (storeAfter (getAuthorActivities (H := Demo.printedHash) (H0 := oneComment)
                      tenSeconds 0 someUser [] ∅)))
  = {| returned := Ok [JObj [("id", JStr "c1")]];
       storeAfter :=
         runTimers [authorActivitiesHash (H := Demo.printedHash) tenSeconds someUser []]
           9999
           (storeAfter (getAuthorActivities (H := Demo.printedHash) (H0 := oneComment)
                          tenSeconds 0 someUser [] ∅));
       cacheOps := [CacheGet (authorActivitiesHash (H := Demo.printedHash)
                                tenSeconds someUser [])] |}.
Proof.
  apply (author_activities_served_from_cache_before_expiry (H := Demo.printedHash)
           oneComment nothingNow tenSeconds 0 9999 someUser [] ∅
           [JObj [("id", JStr "c1")]]
           [authorActivitiesHash (H := Demo.printedHash) tenSeconds someUser []]).
  - reflexivity.
  - simpl. lia.
  - reflexivity.
  - reflexivity.
  - simpl. lia.
Defined.

(** At [t0 + authorTTL] the record has not expired, but its timer is
    due: once the timer had its turn the listing is fetched again. *)
Example author_activities_gone_when_timer_ran :
  returned
    (getAuthorActivities (H := Demo.printedHash) (H0 := nothingNow)
       tenSeconds 10000 someUser []
       (runTimers [authorActivitiesHash (H := Demo.printedHash) tenSeconds someUser []]
          10000
          (storeAfter (getAuthorActivities (H := Demo.printedHash) (H0 := oneComment)
                         tenSeconds 0 someUser [] ∅))))
  = Ok []
  /\ returned
       (getAuthorActivities (H := Demo.printedHash) (H0 := nothingNow)
          tenSeconds 10000 someUser []
          (storeAfter (getAuthorActivities (H := Demo.printedHash) (H0 := oneComment)
                         tenSeconds 0 someUser [] ∅)))
     = Ok [JObj [("id", JStr "c1")]].
Proof. split; vm_compute; reflexivity. Qed.

(** A time to live beyond what [setTimeout] takes: the timer is due one
    millisecond after the listing was stored, long before the record
    expires. *)
Definition sixtyDays : SubredditResources :=
  newSubredditResources manager "sub"
    {| o_enabled := None; o_authorTTL := Some 5184000000%Z; o_wikiTTL := None |}.

Example oversized_ttl_is_gone_after_a_millisecond :
  returned
    (getAuthorActivities (H := Demo.printedHash) (H0 := nothingNow)
       sixtyDays 1 someUser []
       (runTimers [authorActivitiesHash (H := Demo.printedHash) sixtyDays someUser []] 1
          (storeAfter (getAuthorActivities (H := Demo.printedHash) (H0 := oneComment)
                         sixtyDays 0 someUser [] ∅))))
  = Ok [].
Proof. vm_compute. reflexivity. Qed.

Lemma author_activities_refetched_after_expiry_witness :
  returned (getAuthorActivities (H := Demo.printedHash) (H0 := nothingNow)
              tenSeconds 10001 someUser []
              (storeAfter (getAuthorActivities (H := Demo.printedHash)
                             (H0 := oneComment) tenSeconds 0 someUser [] ∅)))
  = Ok [].
Proof.
  apply (author_activities_refetched_after_expiry (H := Demo.printedHash)
           oneComment nothingNow tenSeconds 0 10001 someUser [] ∅
           [JObj [("id", JStr "c1")]]).
  - reflexivity.
  - reflexivity.
  - reflexivity.
  - simpl. lia.
Defined.

End AuthorCacheFacts.


(** ** Wiki content *)

Module WikiContentFacts.
Import Js Exn Resources WikiContent.

Definition dash : ascii := ascii_of_nat 45.

(** The key of a page tells the subreddit and the path apart when the
    names of the subreddits hold no dash. *)
Lemma dashed_injective (n1 n2 p1 p2 : string) :
  EnvList.includesChar dash n1 = false ->
  EnvList.includesChar dash n2 = false ->
  (n1 ++ "-" ++ p1 = n2 ++ "-" ++ p2)%string ->
  n1 = n2 /\ p1 = p2.
Proof.
  assert (Hcons : forall c a b, String.append (String c a) b = String c (String.append a b))
    by reflexivity.
  assert (Hnil : forall b, String.append EmptyString b = b) by reflexivity.
  revert n2. induction n1 as [| c n1 IH]; intros [| d n2] H1 H2 Heq;
    rewrite ?Hcons, ?Hnil in Heq; simpl in H1, H2.
  - inversion Heq. split; reflexivity.
  - inversion Heq; subst. discriminate H2.
  - inversion Heq; subst. discriminate H1.
  - inversion Heq as [[Hc Hrest]]; subst.
    apply orb_false_elim in H1 as [_ H1]. apply orb_false_elim in H2 as [_ H2].
    destruct (IH n2 H1 H2 Hrest) as [-> ->]. split; reflexivity.
Qed.

Lemma get_twice (now : Z) (key : string) (store : SharedStore) :
  fst (get now key store) = JNull ->
  fst (get now key (snd (get now key store))) = JNull.
Proof.
  unfold get. destruct (store !! key) as [entry |] eqn:E.
  - destruct (now <=? e_expire entry)%Z eqn:L; cbn [fst snd].
    + intros Hnull. rewrite E, L. exact Hnull.
    + intros _. rewrite lookup_delete_eq. reflexivity.
  - cbn [fst snd]. rewrite E. reflexivity.
Qed.

(** A record is live before the time it expires at, whichever timers
    have run, when its time to live is one that [setTimeout] takes as it
    is. *)
Lemma get_put_fresh (t0 t1 : Z) (key : string) (v : jsval) (ttl : Z)
    (store : SharedStore) (ran : list string) :
  (0 < ttl)%Z -> (ttl <= TIMEOUT_MAX)%Z -> (t1 < t0 + ttl)%Z ->
  get t1 key (runTimers ran t1 (put t0 key v ttl store))
  = (v, runTimers ran t1 (put t0 key v ttl store)).
Proof.
  intros Hpos Hmax Hfresh. unfold get.
  rewrite (ResourcesFacts.runTimers_not_due ran t1 _ key
             {| e_expire := (t0 + ttl)%Z;
                e_timerDue := (t0 + timerDelay ttl)%Z;
                e_value := v |}).
  - cbn [e_expire e_value].
    replace (t1 <=? t0 + ttl)%Z with true by (symmetry; apply Z.leb_le; lia).
    reflexivity.
  - unfold put. apply lookup_insert_eq.
  - cbn [e_timerDue]. rewrite (ResourcesFacts.timerDelay_in_range _ Hpos Hmax). exact Hfresh.
Qed.

Section WithSource.

(** What a miss that reads the page leaves in the store. *)
Lemma stored_after_read (source : WikiSource) (this : SubredditResources)
    (t0 : Z) (val : string) (subreddit : Subreddit) (store : SharedStore)
    (page : string) :
  enabled this && (0 <? wikiTTL this)%Z = true ->
  hasWiki val = true ->
  fst (get t0 (contentKey subreddit (wikiPathOf val)) store) = JNull ->
  content_md (WikiSource := source) subreddit (wikiPathOf val) = Ok page ->
  contentStore (getContent (H := source) this t0 val subreddit store)
  = put t0 (contentKey subreddit (wikiPathOf val)) (JStr page) (wikiTTL this)
        (snd (get t0 (contentKey subreddit (wikiPathOf val)) store)).
Proof.
  intros Hon Hwiki Hmiss Hread. unfold getContent.
  rewrite Hwiki, Hon. cbn [negb]. rewrite Hmiss, Hread. reflexivity.
Qed.

(** X18: a wiki page that was read and stored at time [t0] is what any
    reference to it from the same subreddit returns before time
    [t0 + wikiTTL], whatever the wiki holds by then, whatever white
    space surrounds the reference and whichever timers have run in
    between, provided the time to live is one that [setTimeout] takes as
    it is, 2147483647 ms at most; the store is left as it is. *)
Theorem wiki_content_served_from_cache_before_expiry
    (first later : WikiSource) (this : SubredditResources) (t0 t1 : Z)
    (val1 val2 : string) (subreddit : Subreddit) (store : SharedStore)
    (page : string) (ran : list string) :
  enabled this && (0 <? wikiTTL this)%Z = true ->
  (wikiTTL this <= 2147483647)%Z ->
  hasWiki val1 = true ->
  EnvList.trim val2 = EnvList.trim val1 ->
  fst (get t0 (contentKey subreddit (wikiPathOf val1)) store) = JNull ->
  content_md (WikiSource := first) subreddit (wikiPathOf val1) = Ok page ->
  (t1 < t0 + wikiTTL this)%Z ->
  let stored :=
    runTimers ran t1
      (contentStore (getContent (H := first) this t0 val1 subreddit store)) in
  getContent (H := later) this t1 val2 subreddit stored
  = {| content := Ok (JStr page); contentStore := stored |}.
Proof.
  intros Hon Hmax Hwiki Htrim Hmiss Hread Hfresh stored. subst stored.
  rewrite (stored_after_read first this t0 val1 subreddit store page
             Hon Hwiki Hmiss Hread).
  assert (Hpos : (0 < wikiTTL this)%Z).
  { apply andb_prop in Hon as [_ Hpos]. apply Z.ltb_lt in Hpos. exact Hpos. }
  unfold getContent.
  assert (Hwiki2 : hasWiki val2 = true) by (unfold hasWiki; rewrite Htrim; exact Hwiki).
  assert (Hpath : wikiPathOf val2 = wikiPathOf val1) by (unfold wikiPathOf; rewrite Htrim; reflexivity).
  rewrite Hwiki2, Hon, Hpath. cbn [negb].
  rewrite (get_put_fresh t0 t1 _ (JStr page) (wikiTTL this) _ ran Hpos Hmax Hfresh).
  reflexivity.
Qed.

Context `{WikiSource}.

(** X19: what is stored for one page never changes what a call for
    another page, or for the page of that path in another subreddit,
    returns, as long as the names of the subreddits hold no dash; the
    path of the call is what follows [wiki:] in the reference once
    [trim] took the white space around it, the no-break space and the
    other white space outside the ASCII range included; and this holds
    whichever timers have run since. *)
Theorem wiki_entries_are_per_subreddit_and_page
    (this : SubredditResources) (now : Z) (val : string) (subreddit : Subreddit)
    (store : SharedStore)
    (otherSubreddit : Subreddit) (otherPath : string) (v : jsval) (t ttl : Z)
    (ran : list string) :
  EnvList.includesChar dash (display_name subreddit) = false ->
  EnvList.includesChar dash (display_name otherSubreddit) = false ->
  (display_name otherSubreddit, otherPath)
    <> (display_name subreddit, wikiPathOf val) ->
  content (getContent this now val subreddit
             (runTimers ran now (put t (contentKey otherSubreddit otherPath) v ttl store)))
  = content (getContent this now val subreddit (runTimers ran now store)).
Proof.
  intros Hsub Hother Hdiff. unfold getContent.
  destruct (hasWiki val); cbn [negb]; [| reflexivity].
  destruct (enabled this && (0 <? wikiTTL this)%Z);
    [| cbn [fst snd]; destruct (content_md subreddit (wikiPathOf val)); reflexivity].
  assert (Hkeys : contentKey subreddit (wikiPathOf val)
                  <> contentKey otherSubreddit otherPath).
  { intros Heq. apply Hdiff. unfold contentKey in Heq.
    destruct (dashed_injective _ _ _ _ Hsub Hother Heq) as [-> ->]. reflexivity. }
  unfold get.
  rewrite (ResourcesFacts.runTimers_agree ran now
             (put t (contentKey otherSubreddit otherPath) v ttl store) store
             (contentKey otherSubreddit otherPath));
    [| intros k Hk; unfold put; apply lookup_insert_ne; congruence | exact Hkeys].
  destruct (runTimers ran now store !! contentKey subreddit (wikiPathOf val)) as [entry |];
    [destruct (now <=? e_expire entry)%Z |]; cbn [fst snd];
    try (destruct (e_value entry); try reflexivity);
    destruct (content_md subreddit (wikiPathOf val)); reflexivity.
Qed.

(** X20: when the page of a reference cannot be read, the call fails
    with a logged error that names the page and drops the cause, and
    nothing is stored for the page: the next call reads the wiki
    again. *)
Theorem unreadable_wiki_page_is_reported_and_not_cached
    (this : SubredditResources) (now : Z) (val : string) (subreddit : Subreddit)
    (store : SharedStore) (cause : exn) :
  hasWiki val = true ->
  fst (get now (contentKey subreddit (wikiPathOf val)) store) = JNull ->
  content_md subreddit (wikiPathOf val) = Throw cause ->
  let out := getContent this now val subreddit store in
  content out
  = Throw (LoggedError
             ("Could not read wiki page. Please ensure the page 'https://reddit.com"
                ++ display_name_prefixed subreddit ++ "wiki/" ++ wikiPathOf val
                ++ "' exists and is readable")%string)
  /\ fst (get now (contentKey subreddit (wikiPathOf val)) (contentStore out)) = JNull.
Proof.
  intros Hwiki Hmiss Hread out. subst out. unfold getContent.
  rewrite Hwiki. cbn [negb].
  destruct (enabled this && (0 <? wikiTTL this)%Z).
  - rewrite Hmiss, Hread. cbn [content contentStore]. split; [reflexivity |].
    apply get_twice, Hmiss.
  - cbn [fst snd]. rewrite Hread. cbn [content contentStore].
    split; [reflexivity | exact Hmiss].
Qed.

End WithSource.

(** A wiki with one page, and a wiki that cannot be read. *)
Definition oneWikiPage : WikiSource :=
  fun _ path => if String.eqb path "removal/spam" then Ok "No spam."
                else Throw (External "404").

Definition wikiDown : WikiSource := fun _ _ => Throw (External "503").

Definition fiveMinutes : SubredditResources :=
  newSubredditResources manager "pics"
    {| o_enabled := None; o_authorTTL := None; o_wikiTTL := None |}.

Definition pics : Subreddit :=
  {| display_name := "pics"; display_name_prefixed := "r/pics/" |}.

Definition aww : Subreddit :=
  {| display_name := "aww"; display_name_prefixed := "r/aww/" |}.

Lemma wiki_content_served_from_cache_before_expiry_witness :
  getContent (H := wikiDown) fiveMinutes 299999
    (" wiki:removal/spam" +:+ EnvListFacts.nbsp) pics
    (runTimers [contentKey pics "removal/spam"] 299999
       (contentStore (getContent (H := oneWikiPage) fiveMinutes 0
                        "wiki:removal/spam" pics ∅)))
  = {| content := Ok (JStr "No spam.");
       contentStore :=
         runTimers [contentKey pics "removal/spam"] 299999
           (contentStore (getContent (H := oneWikiPage) fiveMinutes 0
                            "wiki:removal/spam" pics ∅)) |}.
Proof.
  apply (wiki_content_served_from_cache_before_expiry oneWikiPage wikiDown
           fiveMinutes 0 299999 "wiki:removal/spam"
           (" wiki:removal/spam" +:+ EnvListFacts.nbsp) pics ∅
           "No spam." [contentKey pics "removal/spam"]).
  - reflexivity.
  - simpl. lia.
  - reflexivity.
  - reflexivity.
  - reflexivity.
  - reflexivity.
  - simpl. lia.
Defined.

(** At [t0 + wikiTTL] the record has not expired, but its timer is due:
    once the timer had its turn the page is read again. *)
Example wiki_content_gone_when_timer_ran :
  content
    (getContent (H := wikiDown) fiveMinutes 300000 "wiki:removal/spam" pics
       (runTimers [contentKey pics "removal/spam"] 300000
          (contentStore (getContent (H := oneWikiPage) fiveMinutes 0
                           "wiki:removal/spam" pics ∅))))
  = Throw (LoggedError (unreadableMessage pics "removal/spam"))
  /\ content
       (getContent (H := wikiDown) fiveMinutes 300000 "wiki:removal/spam" pics
          (contentStore (getContent (H := oneWikiPage) fiveMinutes 0
                           "wiki:removal/spam" pics ∅)))
     = Ok (JStr "No spam.").
Proof. split; vm_compute; reflexivity. Qed.

(** A no-break space after the path is no part of the key. *)
Example no_break_space_is_no_part_of_the_key :
  wikiPathOf ("wiki:a" +:+ EnvListFacts.nbsp) = "a"
  /\ contentKey pics (wikiPathOf ("wiki:a" +:+ EnvListFacts.nbsp)) = "pics-a".
Proof. split; reflexivity. Qed.

Lemma wiki_entries_are_per_subreddit_and_page_witness :
  content (getContent (H := wikiDown) fiveMinutes 10 "wiki:removal/spam" aww
             (runTimers [contentKey pics "removal/spam"] 10
                (put 0 (contentKey pics "removal/spam") (JStr "No spam.") 300000 ∅)))
  = content (getContent (H := wikiDown) fiveMinutes 10 "wiki:removal/spam" aww
               (runTimers [contentKey pics "removal/spam"] 10 ∅)).
Proof.
  apply (wiki_entries_are_per_subreddit_and_page (H := wikiDown)
           fiveMinutes 10 "wiki:removal/spam" aww ∅
           pics "removal/spam" (JStr "No spam.") 0 300000
           [contentKey pics "removal/spam"]).
  - reflexivity.
  - reflexivity.
  - discriminate.
Defined.

Lemma unreadable_wiki_page_is_reported_and_not_cached_witness :
  content (getContent (H := oneWikiPage) fiveMinutes 0 "wiki:removal/ham" pics ∅)
  = Throw (LoggedError
             "Could not read wiki page. Please ensure the page 'https://reddit.comr/pics/wiki/removal/ham' exists and is readable")
  /\ fst (get 0 (contentKey pics (wikiPathOf "wiki:removal/ham"))
            (contentStore (getContent (H := oneWikiPage) fiveMinutes 0
                             "wiki:removal/ham" pics ∅)))
     = JNull.
Proof.
  apply (unreadable_wiki_page_is_reported_and_not_cached (H := oneWikiPage)
           fiveMinutes 0 "wiki:removal/ham" pics ∅ (External "404")).
  - reflexivity.
  - reflexivity.
  - reflexivity.
Defined.

End WikiContentFacts.


(** ** Names across checks and runs *)

Module StructuredFacts.
Import Js Exn Config Filters NamedEntities Structured.
Local Open Scope js_scope.

(** An entry of the action registry stays through a check, through the
    checks of a run, and through the runs. *)
Lemma collectCheck_keeps (k : string) (v : ActionJson) (c : CheckData)
    (st st' : JsMap RuleJson * JsMap ActionJson) :
  mapGet k (snd st) = Some v -> collectCheck st c = Ok st' ->
  mapGet k (snd st') = Some v.
Proof.
  unfold collectCheck. intros Hk Hrun. ExnFacts.bind_steps. cbn [snd].
  eapply NamedEntitiesFacts.extractNamedActions_keeps; eassumption.
Qed.

Lemma collectChecks_keeps (k : string) (v : ActionJson) (cs : list CheckData) :
  forall st st', mapGet k (snd st) = Some v -> forOf collectCheck cs st = Ok st' ->
                 mapGet k (snd st') = Some v.
Proof.
  apply (ExnFacts.forOf_invariant (fun s => mapGet k (snd s) = Some v)).
  intros s c s' Hs Hstep. eapply collectCheck_keeps; eassumption.
Qed.

Lemma collectRuns_keeps (k : string) (v : ActionJson) (rs : list RunData) :
  forall st st',
    mapGet k (snd st) = Some v ->
    forOf (fun st r => forOf collectCheck (run_checks r) st) rs st = Ok st' ->
    mapGet k (snd st') = Some v.
Proof.
  apply (ExnFacts.forOf_invariant (fun s => mapGet k (snd s) = Some v)).
  intros s r s' Hs Hstep. eapply collectChecks_keeps; eassumption.
Qed.

(** A named action of any check of any run is bound in the registry the
    first loop ends with. *)
Lemma collectNamed_binds (realRuns : list RunData) (r : RunData) (c : CheckData)
    (actions : list ActionData) (a : ActionJson) (name : string)
    (namedRules : JsMap RuleJson) (namedActions : JsMap ActionJson) :
  collectNamed realRuns = Ok (namedRules, namedActions) ->
  In r realRuns -> In c (run_checks r) ->
  c_actions c = Some actions -> In (ActionObj a) actions ->
  a_name a = Some name ->
  exists registered,
    mapGet (toLowerCase name) namedActions = Some registered
    /\ (registered = a \/ deepEqual (actionNoName registered) (actionNoName a) = true).
Proof.
  unfold collectNamed. intros Hrun Hr Hc Hacts Hin Hname.
  apply in_split in Hr as (preRuns & postRuns & ->).
  apply in_split in Hc as (preChecks & postChecks & Hchecks).
  rewrite ExnFacts.forOf_app in Hrun.
  apply ExnFacts.bind_Ok_inv in Hrun as (st1 & _ & Hrun).
  cbn [forOf] in Hrun.
  apply ExnFacts.bind_Ok_inv in Hrun as (st2 & Hthis & Hrest).
  rewrite Hchecks, ExnFacts.forOf_app in Hthis.
  apply ExnFacts.bind_Ok_inv in Hthis as (st3 & _ & Hthis).
  cbn [forOf] in Hthis.
  apply ExnFacts.bind_Ok_inv in Hthis as (st4 & Hcheck & Hafter).
  unfold collectCheck in Hcheck.
  apply ExnFacts.bind_Ok_inv in Hcheck as (rules' & _ & Hcheck).
  apply ExnFacts.bind_Ok_inv in Hcheck as (actions' & Hextract & Hcheck).
  injection Hcheck as <-. rewrite Hacts in Hextract. cbn [default] in Hextract.
  destruct (NamedEntitiesFacts.extractNamedActions_binds actions a name _ _
              Hextract Hin Hname) as (registered & Hget & Hsame).
  exists registered. split; [| exact Hsame].
  change namedActions with (snd (namedRules, namedActions)).
  eapply collectRuns_keeps; [| exact Hrest].
  eapply collectChecks_keeps; [| exact Hafter]. exact Hget.
Qed.

(** X21: names of actions are known across the whole configuration: an
    action declared with a name in any check of any run is what a
    reference to that name, in any letter case, resolves to from every
    check, also from checks that come before the declaration. *)
Theorem action_name_is_known_in_every_check
    (realRuns : list RunData) (r : RunData) (c : CheckData)
    (actions : list ActionData) (a : ActionJson) (name ref : string)
    (namedRules : JsMap RuleJson) (namedActions : JsMap ActionJson)
    (nf : NamedFilters) :
  collectNamed realRuns = Ok (namedRules, namedActions) ->
  In r realRuns -> In c (run_checks r) ->
  c_actions c = Some actions -> In (ActionObj a) actions ->
  a_name a = Some name ->
  toLowerCase ref = toLowerCase name ->
  exists registered,
    (registered = a \/ deepEqual (actionNoName registered) (actionNoName a) = true)
    /\ insertNamedActions [ActionRef ref] namedActions nf
       = (strong <- strongAction nf registered ;; Ok [strong]).
Proof.
  intros Hrun Hr Hc Hacts Hin Hname Hcase.
  destruct (collectNamed_binds realRuns r c actions a name namedRules namedActions
              Hrun Hr Hc Hacts Hin Hname) as (registered & Hget & Hsame).
  exists registered. split; [exact Hsame |].
  rewrite NamedEntitiesFacts.insertNamedActions_mapM. cbn [mapM resolveAction].
  rewrite Hcase, Hget.
  destruct (strongAction nf registered); reflexivity.
Qed.

(** Two runs of one check each: the first check refers to the action
    that the check of the second run declares. *)
Definition plainCheck (name : string) (actions : list ActionData) : CheckData :=
  {| c_name := name; c_filters := {| authorIs := None; itemIs := None |};
     c_rules := None; c_actions := Some actions |}.

Definition plainRun (name : string) (cs : list CheckData) : RunData :=
  {| run_name := name; run_filterCriteriaDefaults := None;
     run_filters := {| authorIs := None; itemIs := None |}; run_checks := cs |}.

Definition declaredLater : list RunData :=
  [plainRun "first" [plainCheck "c1" [ActionRef "Remind"]];
   plainRun "second" [plainCheck "c2" [ActionObj (NamedEntitiesFacts.remind "remind")]]].

Lemma action_name_is_known_in_every_check_witness :
  exists registered,
    (registered = NamedEntitiesFacts.remind "remind"
     \/ deepEqual (actionNoName registered)
          (actionNoName (NamedEntitiesFacts.remind "remind")) = true)
    /\ insertNamedActions [ActionRef "Remind"]
         [("remind", NamedEntitiesFacts.remind "remind")] noFilters
       = (strong <- strongAction noFilters registered ;; Ok [strong]).
Proof.
  apply (action_name_is_known_in_every_check declaredLater
           (plainRun "second"
              [plainCheck "c2" [ActionObj (NamedEntitiesFacts.remind "remind")]])
           (plainCheck "c2" [ActionObj (NamedEntitiesFacts.remind "remind")])
           [ActionObj (NamedEntitiesFacts.remind "remind")]
           (NamedEntitiesFacts.remind "remind") "remind" "Remind"
           [] [("remind", NamedEntitiesFacts.remind "remind")] noFilters).
  - reflexivity.
  - right. left. reflexivity.
  - left. reflexivity.
  - reflexivity.
  - left. reflexivity.
  - reflexivity.
  - reflexivity.
Defined.

End StructuredFacts.


(** ** The restart loop *)

Module AppFacts.
Import Js Exn App.
Import QArith Lqa.

Lemma longAgo_false (now last : Z) :
  (now - last < 300000)%Z -> longAgo now last = false.
Proof.
  intros Hgap. unfold longAgo. apply Z.leb_gt.
  assert (Hle : (Z.quot (now - last) 60000 <= Z.quot 299999 60000)%Z)
    by (apply Z.quot_le_mono; lia).
  change (Z.quot 299999 60000) with 4%Z in Hle. lia.
Qed.

Lemma longAgo_true (now last : Z) :
  (300000 <= now - last)%Z -> longAgo now last = true.
Proof.
  intros Hgap. unfold longAgo. apply Z.leb_le.
  assert (Hle : (Z.quot 300000 60000 <= Z.quot (now - last) 60000)%Z)
    by (apply Z.quot_le_mono; lia).
  change (Z.quot 300000 60000) with 5%Z in Hle. lia.
Qed.

(** A turn that fails with an error that is no timeout: the test of
    the handler answers no, or the test itself throws on the error. *)
Definition otherFailure (turn : Turn) : Prop :=
  match turn with
  | Failed _ _ err => isTimeout err <> Ok true
  | Ended => False
  end.

(** A turn that fails with an error on which the test answers. *)
Definition answered (turn : Turn) : Prop :=
  match turn with
  | Failed _ _ err => exists timeout, isTimeout err = Ok timeout
  | Ended => False
  end.

Lemma count_at_least_one (n : nat) : (1 <= inject_Z (Z.of_nat (S n)))%Q.
Proof. unfold Qle. simpl. lia. Qed.

(** The test throws on an error whose message holds no [ETIMEDOUT] and
    whose code is a number: a number has no [includes]. *)
Lemma numeric_code_throws (fields : list (string * jsval)) (msg : string) (n : Z) :
  getField "message" fields = JStr msg ->
  occurs "ETIMEDOUT" msg = false ->
  getField "code" fields = JNum n ->
  isTimeout (JObj fields) = Throw (TypeError "includes is not a function").
Proof.
  intros Hmsg Hno Hcode. unfold isTimeout, member, includes. cbn [prop bind].
  rewrite Hmsg. cbn [bind]. rewrite Hno, Hcode. reflexivity.
Qed.

(** Errors that are no timeouts and on which the test answers are
    waited out one after the other. *)
Lemma others_waited_out (pre : list Turn) :
  Forall otherFailure pre -> Forall answered pre ->
  forall (rest : list Turn) (st : RunState),
  exists waits st',
    runManagers (pre ++ rest) st
    = (waits ++ fst (runManagers rest st'), snd (runManagers rest st'))
    /\ length waits = length pre
    /\ Forall (fun ms => (3000 <= ms)%Q) waits.
Proof.
  intros Hother. induction Hother as [| turn pre Hturn _ IH]; intros Hans rest st.
  - exists [], st. split; [cbn [app]; destruct (runManagers rest st); reflexivity |].
    split; [reflexivity | constructor].
  - inversion Hans as [| ? ? Hanswer Hrest]; subst.
    destruct turn as [| now random err]; [destruct Hturn |].
    destruct Hanswer as [[|] Htest]; [destruct (Hturn Htest) |].
    cbn [app runManagers]. unfold onError. rewrite Htest.
    cbn [maxOtherCount Nat.ltb Nat.leb].
    match goal with
    | |- context [runManagers (pre ++ rest) ?s] =>
        destruct (IH Hrest rest s) as (waits & st' & Hrun & Hlen & Hwaits)
    end.
    rewrite Hrun. eexists (_ :: waits), st'. split; [reflexivity |]. split.
    + simpl. rewrite Hlen. reflexivity.
    + constructor; [| exact Hwaits].
      match goal with
      | |- (_ <= 3 * 1000 * inject_Z (Z.of_nat (S ?n)))%Q =>
          pose proof (count_at_least_one n)
      end.
      lra.
Qed.

(** X22: an error that is no timeout is never thrown again by the
    loop, however many such errors there are and however fast they
    come.  As long as the test of the handler answers on the errors,
    the loop waits three seconds or more after each of them and goes
    on; the loop ends only at the first error on which the test itself
    throws, and then with the error of the test. *)
Theorem other_errors_are_never_rethrown (turns : list Turn) (st : RunState) :
  Forall otherFailure turns ->
  (forall err, snd (runManagers turns st) <> Thrown err)
  /\ snd (runManagers turns st) <> Returned
  /\ (Forall answered turns ->
      exists waits st',
        runManagers turns st = (waits, Looping st')
        /\ length waits = length turns
        /\ Forall (fun ms => (3000 <= ms)%Q) waits)
  /\ (forall pre caughtAt random err post e,
         turns = pre ++ Failed caughtAt random err :: post ->
         Forall answered pre ->
         isTimeout err = Throw e ->
         exists waits,
           runManagers turns st = (waits, Crashed e)
           /\ length waits = length pre
           /\ Forall (fun ms => (3000 <= ms)%Q) waits).
Proof.
  intros Hother.
  assert (Hstands : forall s,
             (exists s', snd (runManagers turns s) = Looping s')
             \/ (exists e, snd (runManagers turns s) = Crashed e)).
  { clear st. induction Hother as [| turn turns Hturn _ IH]; intros s.
    - left. exists s. reflexivity.
    - destruct turn as [| now random err]; [destruct Hturn |].
      cbn [runManagers]. unfold onError.
      destruct (isTimeout err) as [[|] | e] eqn:Htest.
      + destruct (Hturn Htest).
      + cbn [maxOtherCount Nat.ltb Nat.leb].
        match goal with
        | |- context [runManagers turns ?s1] =>
            destruct (IH s1) as [[s' Hs'] | [e He]];
              destruct (runManagers turns s1) as [waits stands]; simpl in *; subst;
              eauto
        end.
      + right. exists e. reflexivity. }
  split; [| split; [| split]].
  - intros err Habs. destruct (Hstands st) as [[s' Hs'] | [e He]]; congruence.
  - intros Habs. destruct (Hstands st) as [[s' Hs'] | [e He]]; congruence.
  - intros Hans.
    destruct (others_waited_out turns Hother Hans [] st)
      as (waits & st' & Hrun & Hlen & Hwaits).
    rewrite app_nil_r in Hrun. cbn [runManagers fst snd] in Hrun.
    rewrite app_nil_r in Hrun. exists waits, st'. auto.
  - intros pre caughtAt random err post e -> Hans Htest.
    apply Forall_app in Hother as [Hpre _].
    destruct (others_waited_out pre Hpre Hans (Failed caughtAt random err :: post) st)
      as (waits & st' & Hrun & Hlen & Hwaits).
    cbn [runManagers] in Hrun. unfold onError in Hrun. rewrite Htest in Hrun.
    cbn [fst snd] in Hrun. rewrite app_nil_r in Hrun.
    exists waits. auto.
Qed.

(** X23: five timeouts, each less than five minutes after the one
    before, end the loop: the first four are waited out, for about one,
    two, four and eight seconds, and the fifth is thrown again, whatever
    would come after it. *)
Theorem fifth_timeout_in_a_burst_is_rethrown
    (t1 t2 t3 t4 t5 : Z) (r1 r2 r3 r4 r5 : Q) (e1 e2 e3 e4 e5 : jsval)
    (later : list Turn) :
  isTimeout e1 = Ok true -> isTimeout e2 = Ok true -> isTimeout e3 = Ok true ->
  isTimeout e4 = Ok true -> isTimeout e5 = Ok true ->
  (t2 - t1 < 300000)%Z -> (t3 - t2 < 300000)%Z ->
  (t4 - t3 < 300000)%Z -> (t5 - t4 < 300000)%Z ->
  runManagers (Failed t1 r1 e1 :: Failed t2 r2 e2 :: Failed t3 r3 e3
                 :: Failed t4 r4 e4 :: Failed t5 r5 e5 :: later) initial
  = ([((1 + (r1 - (3 # 10))) * 1000)%Q; ((2 + (r2 - (3 # 10))) * 1000)%Q;
      ((4 + (r3 - (3 # 10))) * 1000)%Q; ((8 + (r4 - (3 # 10))) * 1000)%Q],
     Thrown e5).
Proof.
  intros H1 H2 H3 H4 H5 G2 G3 G4 G5.
  apply longAgo_false in G2, G3, G4, G5.
  cbn [runManagers]. unfold onError at 1. rewrite H1. cbn.
  unfold onError at 1. cbn [lastErrorAt timeoutCount otherRetryCount].
  rewrite H2, G2. cbn.
  unfold onError at 1. cbn [lastErrorAt timeoutCount otherRetryCount].
  rewrite H3, G3. cbn.
  unfold onError at 1. cbn [lastErrorAt timeoutCount otherRetryCount].
  rewrite H4, G4. cbn.
  unfold onError at 1. cbn [lastErrorAt timeoutCount otherRetryCount].
  rewrite H5, G5. cbn.
  reflexivity.
Qed.

(** A turn that fails. *)
Definition failed (turn : Turn) : Prop :=
  match turn with
  | Failed _ _ _ => True
  | Ended => False
  end.

(** Every failure comes five minutes or more after the one before. *)
Fixpoint spaced (last : option Z) (turns : list Turn) : Prop :=
  match turns with
  | [] => True
  | Ended :: rest => spaced last rest
  | Failed now _ _ :: rest =>
      match last with
      | Some l => (300000 <= now - l)%Z
      | None => True
      end /\ spaced (Some now) rest
  end.

(** The wait after a failure that is handled as the first one. *)
Definition firstWait (turn : Turn) : Q :=
  match turn with
  | Failed _ random err =>
      match isTimeout err with
      | Ok true => 700 + 1000 * random
      | _ => 3000
      end
  | Ended => 0
  end.

(** Spaced errors on which the test answers are each waited out as a
    first error. *)
Lemma spaced_waited_out (pre : list Turn) :
  Forall answered pre ->
  forall (rest : list Turn) (st : RunState),
    spaced (lastErrorAt st) (pre ++ rest) ->
    (lastErrorAt st = None -> timeoutCount st = 0%nat /\ otherRetryCount st = 0%nat) ->
    exists waits st',
      runManagers (pre ++ rest) st
      = (waits ++ fst (runManagers rest st'), snd (runManagers rest st'))
      /\ Forall2 (fun turn ms => (ms == firstWait turn)%Q) pre waits
      /\ spaced (lastErrorAt st') rest
      /\ (lastErrorAt st' = None ->
          timeoutCount st' = 0%nat /\ otherRetryCount st' = 0%nat).
Proof.
  intros Hall. induction Hall as [| turn pre Hturn _ IH]; intros rest st Hspaced Hfresh.
  - exists [], st. split; [cbn [app]; destruct (runManagers rest st); reflexivity |].
    split; [constructor | split; assumption].
  - destruct turn as [| now random err]; [destruct Hturn |].
    destruct Hturn as [timeout Htimeout].
    cbn [app runManagers spaced] in *. destruct Hspaced as [Hgap Hspaced].
    assert (Hcounts :
      (if match lastErrorAt st with
          | Some last => longAgo now last
          | None => false
          end then 0%nat else timeoutCount st) = 0%nat
      /\ (if match lastErrorAt st with
             | Some last => longAgo now last
             | None => false
             end then 0%nat else otherRetryCount st) = 0%nat).
    { destruct (lastErrorAt st) as [last |].
      - rewrite (longAgo_true now last Hgap). split; reflexivity.
      - apply Hfresh. reflexivity. }
    destruct Hcounts as [Htc Hoc].
    unfold onError. rewrite Htimeout, Htc, Hoc.
    destruct timeout; cbn [maxTimeoutCount maxOtherCount Nat.ltb Nat.leb].
    + match goal with
      | |- context [runManagers (pre ++ rest) ?s] =>
          destruct (IH rest s Hspaced) as (waits & st' & Hrun & Hwaits & Hafter);
            [cbn; discriminate |]
      end.
      rewrite Hrun. eexists (_ :: waits), st'. split; [reflexivity |].
      split; [| exact Hafter].
      constructor; [| exact Hwaits].
      unfold firstWait. rewrite Htimeout.
      change (inject_Z (2 ^ (Z.of_nat 1 - 1))) with 1%Q. lra.
    + match goal with
      | |- context [runManagers (pre ++ rest) ?s] =>
          destruct (IH rest s Hspaced) as (waits & st' & Hrun & Hwaits & Hafter);
            [cbn; discriminate |]
      end.
      rewrite Hrun. eexists (_ :: waits), st'. split; [reflexivity |].
      split; [| exact Hafter].
      constructor; [| exact Hwaits].
      unfold firstWait. rewrite Htimeout.
      change (inject_Z (Z.of_nat 1)) with 1%Q. lra.
Qed.

(** One spaced error, handled from a state that follows spaced
    errors. *)
Lemma spaced_step (now : Z) (random : Q) (err : jsval) (st : RunState) :
  match lastErrorAt st with
  | Some l => (300000 <= now - l)%Z
  | None => True
  end ->
  (lastErrorAt st = None -> timeoutCount st = 0%nat /\ otherRetryCount st = 0%nat) ->
  onError now random err st <> Rethrows.
Proof.
  intros Hgap Hfresh. unfold onError.
  assert (Hcounts :
    (if match lastErrorAt st with
        | Some last => longAgo now last
        | None => false
        end then 0%nat else timeoutCount st) = 0%nat
    /\ (if match lastErrorAt st with
           | Some last => longAgo now last
           | None => false
           end then 0%nat else otherRetryCount st) = 0%nat).
  { destruct (lastErrorAt st) as [last |].
    - rewrite (longAgo_true now last Hgap). split; reflexivity.
    - apply Hfresh. reflexivity. }
  destruct Hcounts as [-> ->].
  destruct (isTimeout err) as [[|] |]; discriminate.
Qed.

(** X24: when every error comes five minutes or more after the one
    before, no error is ever thrown again by the loop, timeouts
    included.  As long as the test of the handler answers on the errors,
    each is handled as if it were the first, with a wait of 0.7 seconds
    plus the random part for a timeout and of three seconds for any
    other error, and the loop goes on; the loop ends only at the first
    error on which the test itself throws, and then with the error of
    the test. *)
Theorem spaced_errors_are_never_rethrown (turns : list Turn) :
  Forall failed turns ->
  spaced None turns ->
  (forall err, snd (runManagers turns initial) <> Thrown err)
  /\ (Forall answered turns ->
      exists waits st',
        runManagers turns initial = (waits, Looping st')
        /\ Forall2 (fun turn ms => (ms == firstWait turn)%Q) turns waits)
  /\ (forall pre caughtAt random err post e,
         turns = pre ++ Failed caughtAt random err :: post ->
         Forall answered pre ->
         isTimeout err = Throw e ->
         exists waits,
           runManagers turns initial = (waits, Crashed e)
           /\ Forall2 (fun turn ms => (ms == firstWait turn)%Q) pre waits).
Proof.
  intros Hfailed Hspaced. split; [| split].
  - assert (Hgen : forall st,
               spaced (lastErrorAt st) turns ->
               (lastErrorAt st = None ->
                timeoutCount st = 0%nat /\ otherRetryCount st = 0%nat) ->
               forall err, snd (runManagers turns st) <> Thrown err).
    { clear Hspaced. induction Hfailed as [| turn turns Hturn _ IH];
        intros st Hsp Hfresh err; [discriminate |].
      destruct turn as [| now random e0]; [destruct Hturn |].
      cbn [runManagers spaced] in *. destruct Hsp as [Hgap Hsp].
      pose proof (spaced_step now random e0 st Hgap Hfresh) as Hstep.
      destruct (onError now random e0 st) as [ms st' | | e] eqn:Hon;
        [| congruence | discriminate].
      assert (Hlast : lastErrorAt st' = Some now).
      { unfold onError in Hon.
        destruct (isTimeout e0) as [[|] |]; try discriminate;
          match type of Hon with
          | (if ?c then _ else _) = _ => destruct c; [discriminate |]
          end; injection Hon as _ <-; reflexivity. }
      specialize (IH st'). rewrite Hlast in IH.
      specialize (IH Hsp ltac:(discriminate) err).
      destruct (runManagers turns st') as [waits stands]. exact IH. }
    apply Hgen; [exact Hspaced | intros _; split; reflexivity].
  - intros Hans.
    destruct (spaced_waited_out turns Hans [] initial)
      as (waits & st' & Hrun & Hwaits & _).
    + rewrite app_nil_r. exact Hspaced.
    + intros _. split; reflexivity.
    + rewrite app_nil_r in Hrun. cbn [runManagers fst snd] in Hrun.
      rewrite app_nil_r in Hrun. exists waits, st'. auto.
  - intros pre caughtAt random err post e -> Hans Htest.
    destruct (spaced_waited_out pre Hans (Failed caughtAt random err :: post) initial)
      as (waits & st' & Hrun & Hwaits & _).
    + exact Hspaced.
    + intros _. split; reflexivity.
    + cbn [runManagers] in Hrun. unfold onError in Hrun. rewrite Htest in Hrun.
      cbn [fst snd] in Hrun. rewrite app_nil_r in Hrun.
      exists waits. auto.
Qed.

(** An error of the network layer, an error of the bot's own, and an
    error that carries a number as its code. *)
Definition timedOut : jsval :=
  JObj [("message", JStr "connect ETIMEDOUT 151.101.1.140:443")].

Definition socketHangUp : jsval :=
  JObj [("message", JStr "socket hang up"); ("code", JStr "ECONNRESET")].

Definition notFound : jsval :=
  JObj [("message", JStr "Not Found"); ("code", JNum 404)].

Lemma other_errors_are_never_rethrown_witness :
  (exists waits st',
      runManagers [Failed 0 (1 # 2) socketHangUp; Failed 4000 (1 # 2) socketHangUp]
        initial = (waits, Looping st')
      /\ length waits = 2%nat
      /\ Forall (fun ms => (3000 <= ms)%Q) waits)
  /\ (exists waits,
         runManagers [Failed 0 (1 # 2) socketHangUp; Failed 4000 (1 # 2) notFound;
                      Failed 8000 (1 # 2) socketHangUp] initial
         = (waits, Crashed (TypeError "includes is not a function"))
         /\ length waits = 1%nat
         /\ Forall (fun ms => (3000 <= ms)%Q) waits).
Proof.
  split.
  - destruct (other_errors_are_never_rethrown
                [Failed 0 (1 # 2) socketHangUp; Failed 4000 (1 # 2) socketHangUp] initial)
      as (_ & _ & Hloop & _).
    + repeat constructor; discriminate.
    + apply Hloop. repeat constructor; eexists; reflexivity.
  - destruct (other_errors_are_never_rethrown
                [Failed 0 (1 # 2) socketHangUp; Failed 4000 (1 # 2) notFound;
                 Failed 8000 (1 # 2) socketHangUp] initial)
      as (_ & _ & _ & Hcrash).
    + repeat constructor; discriminate.
    + apply (Hcrash [Failed 0 (1 # 2) socketHangUp] 4000%Z (1 # 2) notFound
               [Failed 8000 (1 # 2) socketHangUp]).
      * reflexivity.
      * repeat constructor; eexists; reflexivity.
      * reflexivity.
Defined.

Lemma fifth_timeout_in_a_burst_is_rethrown_witness :
  runManagers [Failed 0 0 timedOut; Failed 1000 0 timedOut; Failed 3000 0 timedOut;
               Failed 7000 0 timedOut; Failed 15000 0 timedOut;
               Failed 16000 0 socketHangUp] initial
  = ([((1 + (0 - (3 # 10))) * 1000)%Q; ((2 + (0 - (3 # 10))) * 1000)%Q;
      ((4 + (0 - (3 # 10))) * 1000)%Q; ((8 + (0 - (3 # 10))) * 1000)%Q],
     Thrown timedOut).
Proof.
  apply (fifth_timeout_in_a_burst_is_rethrown 0 1000 3000 7000 15000 0 0 0 0 0
           timedOut timedOut timedOut timedOut timedOut
           [Failed 16000 0 socketHangUp]);
    try reflexivity; lia.
Defined.

Lemma spaced_errors_are_never_rethrown_witness :
  (exists waits st',
      runManagers [Failed 0 0 timedOut; Failed 300000 0 timedOut;
                   Failed 600000 0 timedOut; Failed 900000 0 timedOut;
                   Failed 1200000 0 timedOut; Failed 1500000 0 socketHangUp]
        initial = (waits, Looping st')
      /\ Forall2 (fun turn ms => (ms == firstWait turn)%Q)
           [Failed 0 0 timedOut; Failed 300000 0 timedOut;
            Failed 600000 0 timedOut; Failed 900000 0 timedOut;
            Failed 1200000 0 timedOut; Failed 1500000 0 socketHangUp] waits)
  /\ (exists waits,
         runManagers [Failed 0 0 timedOut; Failed 300000 0 notFound;
                      Failed 600000 0 timedOut] initial
         = (waits, Crashed (TypeError "includes is not a function"))
         /\ Forall2 (fun turn ms => (ms == firstWait turn)%Q)
              [Failed 0 0 timedOut] waits).
Proof.
  split.
  - destruct (spaced_errors_are_never_rethrown
                [Failed 0 0 timedOut; Failed 300000 0 timedOut;
                 Failed 600000 0 timedOut; Failed 900000 0 timedOut;
                 Failed 1200000 0 timedOut; Failed 1500000 0 socketHangUp])
      as (_ & Hloop & _).
    + repeat constructor.
    + simpl. repeat split; lia.
    + apply Hloop. repeat constructor; eexists; reflexivity.
  - destruct (spaced_errors_are_never_rethrown
                [Failed 0 0 timedOut; Failed 300000 0 notFound; Failed 600000 0 timedOut])
      as (_ & _ & Hcrash).
    + repeat constructor.
    + simpl. repeat split; lia.
    + apply (Hcrash [Failed 0 0 timedOut] 300000%Z 0 notFound [Failed 600000 0 timedOut]).
      * reflexivity.
      * repeat constructor; eexists; reflexivity.
      * reflexivity.
Defined.

End AppFacts.


(** ** Error predicates *)

Module ErrorsFacts.
Import Js Exn Errors.
Local Open Scope js_scope.

(** X25: an error that [isScopeError] accepts is a status error and a
    request error and no rate limit error, and [getScopeError] returns
    its [www-authenticate] header, which is defined and mentions
    [insufficient_scope]. *)
Theorem scope_error_is_a_status_error_with_its_header (err : jsval) :
  isScopeError err = Ok true ->
  isStatusError err = Ok true
  /\ isRequestError err = Ok true
  /\ isRateLimitError err = Ok false
  /\ exists header,
       getScopeError err = Ok header
       /\ header <> JUndefined
       /\ App.includes "insufficient_scope" header = Ok true.
Proof.
  intros Hscope. unfold getScopeError. rewrite Hscope. cbn [bind].
  unfold isScopeError in Hscope.
  destruct (isStatusError err) as [[|] |] eqn:Hstatus; cbn [bind] in Hscope;
    try discriminate.
  destruct (authenticateHeader err) as [header |] eqn:Hheader; cbn [bind] in Hscope;
    [| discriminate].
  split; [reflexivity |].
  unfold isStatusError, isRateLimitError in *.
  destruct (isRequestError err) as [[|] |]; cbn [bind andb] in *; try discriminate.
  injection Hstatus as Hname. split; [reflexivity |]. split.
  - unfold named in *. destruct (prop "name" err) as [| | | | s | |]; try discriminate.
    apply String.eqb_eq in Hname. subst s. reflexivity.
  - exists header. split; [reflexivity |]. split.
    + intros ->. discriminate Hscope.
    + destruct header; try discriminate; exact Hscope.
Qed.

(** The answer of the platform to a request that the token does not
    cover. *)
Definition forbidden : jsval :=
  JObj [("name", JStr "StatusCodeError"); ("statusCode", JNum 403);
        ("response",
         JObj [("headers",
                JObj [("www-authenticate",
                       JStr "Bearer realm=reddit, error=insufficient_scope")])])].

Lemma scope_error_is_a_status_error_with_its_header_witness :
  isStatusError forbidden = Ok true
  /\ isRequestError forbidden = Ok true
  /\ isRateLimitError forbidden = Ok false
  /\ exists header,
       getScopeError forbidden = Ok header
       /\ header <> JUndefined
       /\ App.includes "insufficient_scope" header = Ok true.
Proof.
  apply (scope_error_is_a_status_error_with_its_header forbidden). reflexivity.
Defined.

End ErrorsFacts.

(** ** The comment action *)

Module CommentActionFacts.
Import Js Exn CommentAction.

Section WithPlatform.
Context `{Platform}.

(** The calls of a dry run. *)
Definition dryCalls (this : CommentAction) (item : jsval) (ruleResults : list jsval)
  : list Call :=
  GetContent (content this) (prop "subreddit" item) ::
  match getContent (content this) (prop "subreddit" item) with
  | Ok c =>
      RenderContent c item ::
      match renderContent c item ruleResults with
      | Ok rc =>
          if truthy (prop "archived" item) then []
          else GenerateFooter item ::
               match generateFooter item with
               | Ok f => [Reply item (rc ++ f)%string]
               | Throw _ => []
               end
      | Throw _ => []
      end
  | Throw _ => []
  end.

Lemma dry_run_calls (this : CommentAction) (item : jsval) (ruleResults : list jsval) :
  dryRun this = true ->
  fst (process this item ruleResults) = dryCalls this item ruleResults.
Proof.
  intros Hdry. unfold dryCalls, process. rewrite Hdry, andb_false_r. cbn [negb].
  unfold call, tbind, ret.
  destruct (getContent _ _) as [c |]; [| reflexivity].
  destruct (renderContent c item ruleResults) as [rc |]; [| reflexivity].
  destruct (truthy _); [reflexivity |].
  destruct (generateFooter item) as [f |]; [| reflexivity].
  destruct (reply item _) as [theReply |]; [| reflexivity].
  destruct (lock this); reflexivity.
Qed.

(** X26: in a dry run the action makes neither the lock nor the
    distinguish call, but it still posts the reply: the reply is made
    exactly when the item is not archived and the content, its rendering
    and the footer were obtained. *)
Theorem dry_run_withholds_lock_and_distinguish_but_replies
    (this : CommentAction) (item : jsval) (ruleResults : list jsval) :
  dryRun this = true ->
  let calls := fst (process this item ruleResults) in
  (forall target, ~ In (Lock target) calls)
  /\ (forall target s, ~ In (Distinguish target s) calls)
  /\ ((exists text, In (Reply item text) calls)
      <-> truthy (prop "archived" item) = false
          /\ exists c rc f,
               getContent (content this) (prop "subreddit" item) = Ok c
               /\ renderContent c item ruleResults = Ok rc
               /\ generateFooter item = Ok f).
Proof.
  intros Hdry calls. subst calls. rewrite (dry_run_calls this item ruleResults Hdry).
  unfold dryCalls.
  split; [intros target Hin | split; [intros target s Hin | split]].
  - destruct (getContent _ _) as [c |]; [| simpl in Hin; intuition discriminate].
    destruct (renderContent c item ruleResults) as [rc |];
      [| simpl in Hin; intuition discriminate].
    destruct (truthy _); [simpl in Hin; intuition discriminate |].
    destruct (generateFooter item); simpl in Hin; intuition discriminate.
  - destruct (getContent _ _) as [c |]; [| simpl in Hin; intuition discriminate].
    destruct (renderContent c item ruleResults) as [rc |];
      [| simpl in Hin; intuition discriminate].
    destruct (truthy _); [simpl in Hin; intuition discriminate |].
    destruct (generateFooter item); simpl in Hin; intuition discriminate.
  - intros [text Hin].
    destruct (getContent _ _) as [c |];
      [| exfalso; simpl in Hin; intuition discriminate].
    destruct (renderContent c item ruleResults) as [rc |] eqn:Erender;
      [| exfalso; simpl in Hin; intuition discriminate].
    destruct (truthy _); [exfalso; simpl in Hin; intuition discriminate |].
    destruct (generateFooter item) as [f |];
      [| exfalso; simpl in Hin; intuition discriminate].
    split; [reflexivity |]. exists c, rc, f. auto.
  - intros (Hopen & c & rc & f & Hc & Hrc & Hf).
    rewrite Hc, Hrc, Hopen, Hf. exists (rc ++ f)%string. simpl. auto.
Qed.

(** X27: an archived item is left alone: no footer is generated and no
    reply, lock or distinguish call is made, whatever the action is set
    to; only the content is fetched and rendered. *)
Theorem archived_item_is_left_alone
    (this : CommentAction) (item : jsval) (ruleResults : list jsval) :
  truthy (prop "archived" item) = true ->
  Forall (fun c => match c with
                   | GetContent _ _ | RenderContent _ _ => True
                   | _ => False
                   end)
         (fst (process this item ruleResults)).
Proof.
  intros Harchived. unfold process. rewrite Harchived. unfold call, tbind, ret.
  destruct (getContent _ _) as [c |]; [| repeat constructor].
  destruct (renderContent c item ruleResults) as [rc |]; repeat constructor.
Qed.

End WithPlatform.

(** A platform on which every call succeeds. *)
Definition obliging : Platform :=
  {| getContent := fun val _ => Ok val;
     renderContent := fun content _ _ => Ok content;
     generateFooter := fun _ => Ok " -- bot";
     reply := fun _ text => Ok (JObj [("id", JStr "t1_new"); ("body", JStr text)]);
     lockItem := fun _ => Ok tt;
     distinguishReply := fun _ _ => Ok tt |}.

Definition lockAndSticky (dry : bool) : CommentAction :=
  newCommentAction {| o_content := "Please read the rules"; o_lock := Some true;
                      o_sticky := Some true; o_distinguish := Some true;
                      o_dryRun := dry |}.

Definition openSubmission : jsval :=
  JObj [("id", JStr "t3_abc"); ("archived", JBool false); ("subreddit", JStr "pics")].

Definition oldSubmission : jsval :=
  JObj [("id", JStr "t3_old"); ("archived", JBool true); ("subreddit", JStr "pics")].

Lemma dry_run_withholds_lock_and_distinguish_but_replies_witness :
  (forall target,
      ~ In (Lock target) (fst (process (H := obliging) (lockAndSticky true)
                                 openSubmission [])))
  /\ (forall target s,
         ~ In (Distinguish target s)
              (fst (process (H := obliging) (lockAndSticky true) openSubmission [])))
  /\ ((exists text,
          In (Reply openSubmission text)
             (fst (process (H := obliging) (lockAndSticky true) openSubmission [])))
      <-> truthy (prop "archived" openSubmission) = false
          /\ exists c rc f,
               getContent (Platform := obliging) (content (lockAndSticky true))
                 (prop "subreddit" openSubmission) = Ok c
               /\ renderContent (Platform := obliging) c openSubmission [] = Ok rc
               /\ generateFooter (Platform := obliging) openSubmission = Ok f).
Proof.
  apply (dry_run_withholds_lock_and_distinguish_but_replies (H := obliging)
           (lockAndSticky true) openSubmission []).
  reflexivity.
Defined.

Lemma archived_item_is_left_alone_witness :
  Forall (fun c => match c with
                   | GetContent _ _ | RenderContent _ _ => True
                   | _ => False
                   end)
         (fst (process (H := obliging) (lockAndSticky false) oldSubmission [])).
Proof.
  apply (archived_item_is_left_alone (H := obliging) (lockAndSticky false)
           oldSubmission []).
  reflexivity.
Defined.

(** The same action on an open submission, live and in a dry run. *)
Example live_and_dry_run :
  fst (process (H := obliging) (lockAndSticky false) openSubmission [])
  = [GetContent "Please read the rules" (JStr "pics");
     RenderContent "Please read the rules" openSubmission;
     GenerateFooter openSubmission;
     Reply openSubmission "Please read the rules -- bot";
     Lock openSubmission;
     Distinguish (JObj [("id", JStr "t1_new");
                        ("body", JStr "Please read the rules -- bot")]) true]
  /\ fst (process (H := obliging) (lockAndSticky true) openSubmission [])
     = [GetContent "Please read the rules" (JStr "pics");
        RenderContent "Please read the rules" openSubmission;
        GenerateFooter openSubmission;
        Reply openSubmission "Please read the rules -- bot"].
Proof. split; reflexivity. Qed.

End CommentActionFacts.


(** ** Named item filters of a check *)

Module FilterExtractionFacts.
Import Js Exn Config Filters.
Local Open Scope js_scope.

(** A loop throws when it holds an element at which the body throws
    from every state that the steps before it can leave. *)
Lemma forOf_throws_under {A S : Type} (P : S -> Prop) (body : S -> A -> result S)
    (xs : list A) (x : A) :
  (forall s y s', P s -> body s y = Ok s' -> P s') ->
  In x xs ->
  (forall s, P s -> exists e, body s x = Throw e) ->
  forall s, P s -> exists e, forOf body xs s = Throw e.
Proof.
  intros Hkeep Hin Hthrow. induction xs as [| y xs IH]; [destruct Hin |].
  intros s Hs. simpl. destruct (body s y) as [s' | e] eqn:Hstep; [| simpl; eauto].
  simpl. destruct Hin as [-> | Hin].
  - destruct (Hthrow s Hs) as [e He]. congruence.
  - apply (IH Hin). eapply Hkeep; eassumption.
Qed.

(** The named entries of [items] are bound in the registry of item
    filters. *)
Definition itemsBound (items : list MaybeAnonymousOrStringCriteria)
    (nf : NamedFilters) : Prop :=
  FilterFacts.allRegistered items (namedItemFilters nf).

Lemma parseAuthorIs_itemsBound (items : list MaybeAnonymousOrStringCriteria)
    (val : option FilterJson) (nf nf' : NamedFilters) :
  itemsBound items nf -> parseAuthorIs val nf = Ok nf' -> itemsBound items nf'.
Proof.
  intros Hb Hrun. unfold parseAuthorIs in Hrun. ExnFacts.bind_steps. exact Hb.
Qed.

Lemma parseItemIs_grows (val : option FilterJson) (nf nf' : NamedFilters) (k : string) :
  parseItemIs val nf = Ok nf' ->
  is_Some (namedItemFilters nf !! k) -> is_Some (namedItemFilters nf' !! k).
Proof.
  intros Hrun. unfold parseItemIs in Hrun. ExnFacts.bind_steps. cbn [namedItemFilters].
  destruct val as [f |]; [| injection Hstep as <-; tauto].
  rewrite FilterFacts.parseFilterJson_items in Hstep.
  apply (FilterFacts.forOf_add_registers "itemIs" (FilterFacts.filterItems f) _ _ Hstep).
Qed.

Lemma parseItemIs_itemsBound (items : list MaybeAnonymousOrStringCriteria)
    (val : option FilterJson) (nf nf' : NamedFilters) :
  itemsBound items nf -> parseItemIs val nf = Ok nf' -> itemsBound items nf'.
Proof.
  intros Hb Hrun nc n Hin Hname.
  eapply parseItemIs_grows; [exact Hrun |]. exact (Hb nc n Hin Hname).
Qed.

(** Both parsers keep the bindings; so does every sequence of them. *)
Ltac keep_bound :=
  repeat match goal with
         | Hp : parseAuthorIs _ ?nf = Ok _, Hl : itemsBound _ ?nf |- _ =>
             apply (parseAuthorIs_itemsBound _ _ _ _ Hl) in Hp
         | Hp : parseItemIs _ ?nf = Ok _, Hl : itemsBound _ ?nf |- _ =>
             apply (parseItemIs_itemsBound _ _ _ _ Hl) in Hp
         end.

Lemma filtersOfRule_itemsBound (items : list MaybeAnonymousOrStringCriteria)
    (c : CheckData) (nf nf' : NamedFilters) (ru : RuleData) :
  itemsBound items nf -> filtersOfRule c nf ru = Ok nf' -> itemsBound items nf'.
Proof.
  intros Hnf. destruct ru as [ref | rule | condition setRules]; simpl.
  - intros [= <-]. exact Hnf.
  - intros Hrun. ExnFacts.bind_steps. keep_bound. assumption.
  - apply (ExnFacts.forOf_invariant (itemsBound items)); [| exact Hnf].
    intros s rr s' Hs. destruct rr; try (intros [= <-]; exact Hs);
      intros Hrun; ExnFacts.bind_steps; keep_bound; assumption.
Qed.

Lemma filtersOfAction_itemsBound (items : list MaybeAnonymousOrStringCriteria)
    (c : CheckData) (nf nf' : NamedFilters) (a : ActionData) :
  itemsBound items nf -> filtersOfAction c nf a = Ok nf' -> itemsBound items nf'.
Proof.
  intros Hnf. destruct a as [ref | action]; simpl.
  - intros [= <-]. exact Hnf.
  - intros Hrun. ExnFacts.bind_steps. keep_bound. assumption.
Qed.

(** Parsing a filter whose names are bound already throws when it has a
    named entry. *)
Lemma parseItemIs_again (f : FilterJson) (nf : NamedFilters) :
  itemsBound (FilterFacts.filterItems f) nf ->
  existsb FilterFacts.registersName (FilterFacts.filterItems f) = true ->
  exists e, parseItemIs (Some f) nf = Throw e.
Proof.
  intros Hb Hnamed. unfold parseItemIs. rewrite FilterFacts.parseFilterJson_items.
  destruct (FilterFacts.forOf_add_throws "itemIs" _ _ Hb Hnamed) as [e He].
  rewrite He. simpl. eauto.
Qed.

(** After the item filter of the check was parsed, an inline rule and an
    inline action of the check make it be parsed again. *)
Lemma filtersOfRule_again (c : CheckData) (f : FilterJson) (rule : RuleJson)
    (nf : NamedFilters) :
  itemIs (c_filters c) = Some f ->
  existsb FilterFacts.registersName (FilterFacts.filterItems f) = true ->
  itemsBound (FilterFacts.filterItems f) nf ->
  exists e, filtersOfRule c nf (RuleObj rule) = Throw e.
Proof.
  intros Hf Hnamed Hb. cbn [filtersOfRule].
  destruct (parseAuthorIs _ nf) as [nf1 |] eqn:Hauthor; [| simpl; eauto].
  simpl. rewrite Hf. apply parseItemIs_again; [| exact Hnamed].
  eapply parseAuthorIs_itemsBound; eassumption.
Qed.

Lemma filtersOfAction_again (c : CheckData) (f : FilterJson) (action : ActionJson)
    (nf : NamedFilters) :
  itemIs (c_filters c) = Some f ->
  existsb FilterFacts.registersName (FilterFacts.filterItems f) = true ->
  itemsBound (FilterFacts.filterItems f) nf ->
  exists e, filtersOfAction c nf (ActionObj action) = Throw e.
Proof.
  intros Hf Hnamed Hb. cbn [filtersOfAction].
  destruct (parseAuthorIs _ nf) as [nf1 |] eqn:Hauthor; [| simpl; eauto].
  simpl. rewrite Hf. apply parseItemIs_again; [| exact Hnamed].
  eapply parseAuthorIs_itemsBound; eassumption.
Qed.

(** A check that names an item filter and holds an inline rule or an
    inline action. *)
Definition namesItemFilterBesideInline (c : CheckData) : Prop :=
  (exists f nc name,
      itemIs (c_filters c) = Some f
      /\ In (CritNamed nc) (FilterFacts.filterItems f)
      /\ nc_name nc = Some name)
  /\ ((exists rule, In (RuleObj rule) (default [] (c_rules c)))
      \/ (exists action, In (ActionObj action) (default [] (c_actions c)))).

Lemma filtersOfCheck_refuses (c : CheckData) (nf : NamedFilters) :
  namesItemFilterBesideInline c -> exists e, filtersOfCheck nf c = Throw e.
Proof.
  intros [(f & nc & name & Hf & Hin & Hname) Hinline]. unfold filtersOfCheck.
  assert (Hnamed : existsb FilterFacts.registersName (FilterFacts.filterItems f) = true).
  { apply existsb_exists. exists (CritNamed nc). split; [exact Hin |].
    simpl. rewrite Hname. reflexivity. }
  destruct (parseAuthorIs _ nf) as [nf1 |]; [| simpl; eauto]. simpl.
  destruct (parseItemIs _ nf1) as [nf2 |] eqn:Hitem; [| simpl; eauto]. simpl.
  assert (Hb : itemsBound (FilterFacts.filterItems f) nf2).
  { unfold parseItemIs in Hitem. rewrite Hf in Hitem. ExnFacts.bind_steps.
    rewrite FilterFacts.parseFilterJson_items in Hstep.
    apply (FilterFacts.forOf_add_registers "itemIs" _ _ _ Hstep). }
  destruct Hinline as [[rule Hrule] | [action Haction]].
  - destruct (forOf_throws_under (itemsBound (FilterFacts.filterItems f))
                (filtersOfRule c) _ (RuleObj rule)
                (fun s y s' => filtersOfRule_itemsBound _ c s s' y) Hrule
                (fun s => filtersOfRule_again c f rule s Hf Hnamed) nf2 Hb) as [e He].
    rewrite He. simpl. eauto.
  - destruct (forOf (filtersOfRule c) _ nf2) as [nf3 |] eqn:Hrules; [| simpl; eauto].
    simpl.
    assert (Hb3 : itemsBound (FilterFacts.filterItems f) nf3).
    { revert Hb Hrules. apply ExnFacts.forOf_invariant.
      intros s y s'. apply filtersOfRule_itemsBound. }
    exact (forOf_throws_under (itemsBound (FilterFacts.filterItems f))
             (filtersOfAction c) _ (ActionObj action)
             (fun s y s' => filtersOfAction_itemsBound _ c s s' y) Haction
             (fun s => filtersOfAction_again c f action s Hf Hnamed) nf3 Hb3).
Qed.

Lemma filtersOfRun_refuses (d : option RunnableBaseJson) (r : RunData) (c : CheckData)
    (nf : NamedFilters) :
  In c (run_checks r) -> namesItemFilterBesideInline c ->
  exists e, filtersOfRun d nf r = Throw e.
Proof.
  intros Hc Hnames. unfold filtersOfRun.
  destruct (parseAuthorIs _ nf) as [nf1 |]; [| simpl; eauto]. simpl.
  destruct (parseAuthorIs _ nf1) as [nf2 |]; [| simpl; eauto]. simpl.
  destruct (parseItemIs _ nf2) as [nf3 |]; [| simpl; eauto]. simpl.
  destruct (parseItemIs _ nf3) as [nf4 |]; [| simpl; eauto]. simpl.
  apply (forOf_throws_under (fun _ => True) filtersOfCheck _ c); auto.
  intros s _. apply filtersOfCheck_refuses. exact Hnames.
Qed.

(** X28: a check that gives a name to one of its item criteria and
    holds an inline rule or an inline action cannot be extracted: the
    item filter of the check is parsed once for the check and again for
    each inline rule and action, so the extraction of the whole
    configuration ends with an error, whatever the registries held
    before. *)
Theorem check_item_filter_name_beside_inline_is_refused
    (config : SubredditConfigHydratedData) (r : RunData) (c : CheckData)
    (nf : NamedFilters) :
  In r (default [] (runs config)) ->
  In c (run_checks r) ->
  namesItemFilterBesideInline c ->
  exists e, extractNamedFilters config nf = Throw e.
Proof.
  intros Hr Hc Hnames. unfold extractNamedFilters.
  destruct (parseAuthorIs _ nf) as [nf1 |]; [| simpl; eauto]. simpl.
  destruct (parseItemIs _ nf1) as [nf2 |]; [| simpl; eauto]. simpl.
  apply (forOf_throws_under (fun _ => True)
           (filtersOfRun (filterCriteriaDefaults config)) _ r); auto.
  intros s _. eapply filtersOfRun_refuses; eassumption.
Qed.

(** A check for approved items only, with one inline rule. *)
Definition approvedOnly : NamedCriteria :=
  {| nc_name := Some "approvedOnly";
     nc_criteria := JObj [("approved", JBool true)] |}.

Definition someRule : RuleJson :=
  {| r_name := None; r_kind := "regex";
     r_filters := {| authorIs := None; itemIs := None |};
     r_config := [] |}.

Definition namedItemCheck : CheckData :=
  {| c_name := "c1";
     c_filters := {| authorIs := None;
                     itemIs := Some (FilterArr [CritNamed approvedOnly]) |};
     c_rules := Some [RuleObj someRule];
     c_actions := None |}.

Definition namedItemRun : RunData :=
  {| run_name := "only"; run_filterCriteriaDefaults := None;
     run_filters := {| authorIs := None; itemIs := None |};
     run_checks := [namedItemCheck] |}.

Definition namedItemConfig : SubredditConfigHydratedData :=
  {| filterCriteriaDefaults := None; runs := Some [namedItemRun] |}.

Lemma check_item_filter_name_beside_inline_is_refused_witness :
  exists e, extractNamedFilters namedItemConfig noFilters = Throw e.
Proof.
  apply (check_item_filter_name_beside_inline_is_refused namedItemConfig
           namedItemRun namedItemCheck noFilters).
  - left. reflexivity.
  - left. reflexivity.
  - split.
    + exists (FilterArr [CritNamed approvedOnly]), approvedOnly, "approvedOnly".
      split; [reflexivity |]. split; [left |]; reflexivity.
    + left. exists someRule. left. reflexivity.
Defined.

(** The error is the one of a repeated name. *)
Example named_item_check_error :
  extractNamedFilters namedItemConfig noFilters
  = Throw (Error (duplicateMessage "itemIs" "approvedOnly")).
Proof. vm_compute. reflexivity. Qed.


(** *** Named author filters of a check *)

(** The registry of author filters binds [k] to [v]. *)
Definition authorBound (k : string) (v : NamedCriteria) (nf : NamedFilters) : Prop :=
  namedAuthorFilters nf !! k = Some v.

(** A binding is never replaced: a name that is bound is refused. *)
Lemma addToNamedFilter_keeps (fn : string) (m m' : gmap string NamedCriteria)
    (c : MaybeAnonymousOrStringCriteria) (k : string) (v : NamedCriteria) :
  m !! k = Some v -> addToNamedFilter fn m c = Ok m' -> m' !! k = Some v.
Proof.
  intros Hk. unfold addToNamedFilter.
  destruct c as [ref | nc | w]; try (intros [= <-]; exact Hk).
  destruct (nc_name nc) as [n |]; [| intros [= <-]; exact Hk].
  destruct (m !! toLocaleLowerCase n) eqn:Hl; [discriminate |].
  intros [= <-].
  destruct (decide (toLocaleLowerCase n = k)) as [Heq | Hne];
    [rewrite Heq in Hl; congruence |].
  rewrite lookup_insert_ne; assumption.
Qed.

Lemma forOf_add_keeps (fn : string) (items : list MaybeAnonymousOrStringCriteria)
    (k : string) (v : NamedCriteria) :
  forall m m', m !! k = Some v -> forOf (addToNamedFilter fn) items m = Ok m' ->
               m' !! k = Some v.
Proof.
  apply (ExnFacts.forOf_invariant (fun s => s !! k = Some v)).
  intros s x s'. apply addToNamedFilter_keeps.
Qed.

(** After a pass that ends normally every named entry is bound to
    itself. *)
Lemma forOf_add_binds (fn : string) (items : list MaybeAnonymousOrStringCriteria)
    (nc : NamedCriteria) (name : string) :
  forall m m',
    forOf (addToNamedFilter fn) items m = Ok m' ->
    In (CritNamed nc) items -> nc_name nc = Some name ->
    m' !! toLocaleLowerCase name = Some nc.
Proof.
  induction items as [| c items IH]; intros m m' Hrun Hin Hname; [destruct Hin |].
  simpl in Hrun.
  destruct (addToNamedFilter fn m c) as [m1 |] eqn:Hadd; simpl in Hrun; [| discriminate].
  destruct Hin as [-> | Hin]; [| exact (IH m1 m' Hrun Hin Hname)].
  apply (forOf_add_keeps fn items _ _ m1 m'); [| exact Hrun].
  unfold addToNamedFilter in Hadd. rewrite Hname in Hadd.
  destruct (m !! toLocaleLowerCase name); [discriminate |].
  injection Hadd as <-. apply lookup_insert_eq.
Qed.

Lemma parseAuthorIs_authorBound (k : string) (v : NamedCriteria)
    (val : option FilterJson) (nf nf' : NamedFilters) :
  authorBound k v nf -> parseAuthorIs val nf = Ok nf' -> authorBound k v nf'.
Proof.
  intros Hb Hrun. unfold parseAuthorIs in Hrun. ExnFacts.bind_steps.
  unfold authorBound in *. cbn [namedAuthorFilters].
  destruct val as [f |]; [| injection Hstep as <-; exact Hb].
  rewrite FilterFacts.parseFilterJson_items in Hstep.
  eapply forOf_add_keeps; eassumption.
Qed.

Lemma parseItemIs_authorBound (k : string) (v : NamedCriteria)
    (val : option FilterJson) (nf nf' : NamedFilters) :
  authorBound k v nf -> parseItemIs val nf = Ok nf' -> authorBound k v nf'.
Proof.
  intros Hb Hrun. unfold parseItemIs in Hrun. ExnFacts.bind_steps. exact Hb.
Qed.

Ltac keep_author :=
  repeat match goal with
         | Hp : parseAuthorIs _ ?nf = Ok _, Hl : authorBound _ _ ?nf |- _ =>
             apply (parseAuthorIs_authorBound _ _ _ _ _ Hl) in Hp
         | Hp : parseItemIs _ ?nf = Ok _, Hl : authorBound _ _ ?nf |- _ =>
             apply (parseItemIs_authorBound _ _ _ _ _ Hl) in Hp
         end.

Lemma filtersOfRule_authorBound (k : string) (v : NamedCriteria)
    (c : CheckData) (nf nf' : NamedFilters) (ru : RuleData) :
  authorBound k v nf -> filtersOfRule c nf ru = Ok nf' -> authorBound k v nf'.
Proof.
  intros Hnf. destruct ru as [ref | rule | condition setRules]; simpl.
  - intros [= <-]. exact Hnf.
  - intros Hrun. ExnFacts.bind_steps. keep_author. assumption.
  - apply (ExnFacts.forOf_invariant (authorBound k v)); [| exact Hnf].
    intros s rr s' Hs. destruct rr; try (intros [= <-]; exact Hs);
      intros Hrun; ExnFacts.bind_steps; keep_author; assumption.
Qed.

Lemma filtersOfAction_authorBound (k : string) (v : NamedCriteria)
    (c : CheckData) (nf nf' : NamedFilters) (a : ActionData) :
  authorBound k v nf -> filtersOfAction c nf a = Ok nf' -> authorBound k v nf'.
Proof.
  intros Hnf. destruct a as [ref | action]; simpl.
  - intros [= <-]. exact Hnf.
  - intros Hrun. ExnFacts.bind_steps. keep_author. assumption.
Qed.

Lemma filtersOfCheck_authorBound (k : string) (v : NamedCriteria)
    (nf nf' : NamedFilters) (c : CheckData) :
  authorBound k v nf -> filtersOfCheck nf c = Ok nf' -> authorBound k v nf'.
Proof.
  intros Hnf Hrun. unfold filtersOfCheck in Hrun. ExnFacts.bind_steps. keep_author.
  eapply (ExnFacts.forOf_invariant (authorBound k v)); [| | exact Hrun].
  - intros s x s'. apply filtersOfAction_authorBound.
  - eapply (ExnFacts.forOf_invariant (authorBound k v)); [| | eassumption].
    + intros s x s'. apply filtersOfRule_authorBound.
    + assumption.
Qed.

Lemma filtersOfRun_authorBound (k : string) (v : NamedCriteria)
    (d : option RunnableBaseJson) (nf nf' : NamedFilters) (r : RunData) :
  authorBound k v nf -> filtersOfRun d nf r = Ok nf' -> authorBound k v nf'.
Proof.
  intros Hnf Hrun. unfold filtersOfRun in Hrun. ExnFacts.bind_steps. keep_author.
  eapply (ExnFacts.forOf_invariant (authorBound k v)); [| | exact Hrun].
  - intros s x s'. apply filtersOfCheck_authorBound.
  - assumption.
Qed.

(** The author filter of a check binds its named entries. *)
Lemma filtersOfCheck_binds (nf nf' : NamedFilters) (c : CheckData) (f : FilterJson)
    (nc : NamedCriteria) (name : string) :
  filtersOfCheck nf c = Ok nf' ->
  authorIs (c_filters c) = Some f ->
  In (CritNamed nc) (FilterFacts.filterItems f) -> nc_name nc = Some name ->
  authorBound (toLocaleLowerCase name) nc nf'.
Proof.
  intros Hrun Hf Hin Hname. unfold filtersOfCheck in Hrun.
  apply ExnFacts.bind_Ok_inv in Hrun as (nf1 & Hauthor & Hrun).
  assert (Hb : authorBound (toLocaleLowerCase name) nc nf1).
  { rewrite Hf, FilterFacts.parseAuthorIs_items in Hauthor.
    apply ExnFacts.bind_Ok_inv in Hauthor as (m & Hadd & Hnf1).
    injection Hnf1 as <-. unfold authorBound. cbn [namedAuthorFilters].
    eapply forOf_add_binds; eassumption. }
  ExnFacts.bind_steps. keep_author.
  eapply (ExnFacts.forOf_invariant (authorBound _ nc)); [| | exact Hrun].
  - intros s x s'. apply filtersOfAction_authorBound.
  - eapply (ExnFacts.forOf_invariant (authorBound _ nc)); [| | eassumption].
    + intros s x s'. apply filtersOfRule_authorBound.
    + assumption.
Qed.

(** X29: when the extraction of a configuration goes through, every
    author criteria that a check declares with a name is what a
    reference to the lower-cased name resolves to, from anywhere in the
    configuration. *)
Theorem named_author_filter_of_check_resolves_in_lower_case
    (config : SubredditConfigHydratedData) (start nf : NamedFilters)
    (r : RunData) (c : CheckData) (f : FilterJson)
    (nc : NamedCriteria) (name filterName : string) :
  extractNamedFilters config start = Ok nf ->
  In r (default [] (runs config)) ->
  In c (run_checks r) ->
  authorIs (c_filters c) = Some f ->
  In (CritNamed nc) (FilterFacts.filterItems f) ->
  nc_name nc = Some name ->
  getNamedOrReturn (namedAuthorFilters nf) filterName (CritRef (toLowerCase name))
  = Ok (Some nc).
Proof.
  intros Hrun Hr Hc Hf Hin Hname.
  assert (Hb : authorBound (toLocaleLowerCase name) nc nf).
  { unfold extractNamedFilters in Hrun.
    apply ExnFacts.bind_Ok_inv in Hrun as (nf1 & _ & Hrun).
    apply ExnFacts.bind_Ok_inv in Hrun as (nf2 & _ & Hrun).
    apply in_split in Hr as (preRuns & postRuns & Hruns). rewrite Hruns in Hrun.
    rewrite ExnFacts.forOf_app in Hrun.
    apply ExnFacts.bind_Ok_inv in Hrun as (nf3 & _ & Hrun). cbn [forOf] in Hrun.
    apply ExnFacts.bind_Ok_inv in Hrun as (nf4 & Hthis & Hrest).
    eapply (ExnFacts.forOf_invariant (authorBound _ nc)); [| | exact Hrest].
    { intros s x s'. apply filtersOfRun_authorBound. }
    unfold filtersOfRun in Hthis.
    apply ExnFacts.bind_Ok_inv in Hthis as (a1 & _ & Hthis).
    apply ExnFacts.bind_Ok_inv in Hthis as (a2 & _ & Hthis).
    apply ExnFacts.bind_Ok_inv in Hthis as (a3 & _ & Hthis).
    apply ExnFacts.bind_Ok_inv in Hthis as (a4 & _ & Hthis).
    apply in_split in Hc as (preChecks & postChecks & Hchecks).
    rewrite Hchecks, ExnFacts.forOf_app in Hthis.
    apply ExnFacts.bind_Ok_inv in Hthis as (a5 & _ & Hthis). cbn [forOf] in Hthis.
    apply ExnFacts.bind_Ok_inv in Hthis as (a6 & Hcheck & Hafter).
    eapply (ExnFacts.forOf_invariant (authorBound _ nc)); [| | exact Hafter].
    { intros s x s'. apply filtersOfCheck_authorBound. }
    eapply filtersOfCheck_binds; eassumption. }
  unfold authorBound, toLocaleLowerCase in Hb. unfold getNamedOrReturn, toLocaleLowerCase.
  rewrite FilterFacts.toLowerCase_idempotent, Hb. reflexivity.
Qed.

(** A check for moderators only, declared with a name in mixed case. *)
Definition trustedMods : NamedCriteria :=
  {| nc_name := Some "TrustedMods";
     nc_criteria := JObj [("isMod", JBool true)] |}.

Definition namedAuthorCheck : CheckData :=
  {| c_name := "c1";
     c_filters := {| authorIs := Some (FilterObj None (Some [CritNamed trustedMods]) []);
                     itemIs := None |};
     c_rules := Some [RuleObj someRule];
     c_actions := None |}.

Definition namedAuthorConfig : SubredditConfigHydratedData :=
  {| filterCriteriaDefaults := None;
     runs := Some [ {| run_name := "only"; run_filterCriteriaDefaults := None;
                       run_filters := {| authorIs := None; itemIs := None |};
                       run_checks := [namedAuthorCheck] |} ] |}.

Lemma named_author_filter_of_check_resolves_in_lower_case_witness :
  getNamedOrReturn
    (namedAuthorFilters {| namedAuthorFilters := {["trustedmods" := trustedMods]};
                           namedItemFilters := ∅ |})
    "authorIs" (CritRef (toLowerCase "TrustedMods"))
  = Ok (Some trustedMods).
Proof.
  apply (named_author_filter_of_check_resolves_in_lower_case namedAuthorConfig
           noFilters
           {| namedAuthorFilters := {["trustedmods" := trustedMods]};
              namedItemFilters := ∅ |}
           {| run_name := "only"; run_filterCriteriaDefaults := None;
              run_filters := {| authorIs := None; itemIs := None |};
              run_checks := [namedAuthorCheck] |}
           namedAuthorCheck (FilterObj None (Some [CritNamed trustedMods]) [])
           trustedMods "TrustedMods" "authorIs").
  - reflexivity.
  - left. reflexivity.
  - left. reflexivity.
  - reflexivity.
  - left. reflexivity.
  - reflexivity.
Defined.

End FilterExtractionFacts.
